(** * Colour Analysis: the view-coordination core

    A shallow embedding of [colour_analysis/analysis.py]: the [Analysis]
    canvas object, its validating property setters, the two colour-space
    cycling iterators, the construction-time image pipeline, the layout
    engine and the key-chord action dispatcher.

    The object is a record of its private attributes; methods are programs
    of a state-and-exception monad over that record.  The Python built-ins
    the module relies on ([sorted], [str.lower], [str.join], [dict],
    [itertools.cycle], [collections.deque.rotate], extended slicing) are
    modelled in the first part of the file.  What the module imports and
    does not define (the colour-space registries, the image decoder, the
    view classes, the base canvas class and its grid) is a parameter of
    the development. *)

From Stdlib Require Import ZArith Ascii String List Lia Permutation.
From stdpp Require Import base list strings sets pretty sorting.

Local Open Scope Z_scope.
Local Open Scope nat_scope.

(** ** Python values, types and exceptions *)

(** The values a property setter can be handed.  [VOther] stands for an
    object of any other class, with the name of its type and its [str]. *)
Inductive value : Type :=
| VNone
| VBool (b : bool)
| VInt (z : Z)
| VStr (s : string)
| VUnicode (s : string)
| VOther (type_name : string) (repr : string).

Inductive pytype : Type :=
| TNoneType | TBool | TInt | TStr | TUnicode | TObject (name : string).

Definition type (v : value) : pytype :=
  match v with
  | VNone => TNoneType
  | VBool _ => TBool
  | VInt _ => TInt
  | VStr _ => TStr
  | VUnicode _ => TUnicode
  | VOther n _ => TObject n
  end.

#[global] Instance value_eq_dec : EqDecision value.
Proof. solve_decision. Defined.

#[global] Instance pytype_eq_dec : EqDecision pytype.
Proof. solve_decision. Defined.

(** [value is not None] *)
Definition is_not_None (v : value) : bool :=
  match v with VNone => false | _ => true end.

(** [type(value) in (str, unicode)] *)
Definition type_in_str_unicode (v : value) : bool :=
  match type v with TStr | TUnicode => true | _ => false end.

(** [type(value) is int] *)
Definition type_is_int (v : value) : bool :=
  match type v with TInt => true | _ => false end.

(** [type(value) is bool] *)
Definition type_is_bool (v : value) : bool :=
  match type v with TBool => true | _ => false end.

(** Truth value of an object, as [not value] tests it. *)
Definition truthy (v : value) : bool :=
  match v with
  | VNone => false
  | VBool b => b
  | VInt z => negb (z =? 0)%Z
  | VStr s | VUnicode s => negb (String.eqb s EmptyString)
  | VOther _ _ => true
  end.

(** [str(value)], as ['{0}'.format(value)] renders it. *)
Definition str (v : value) : string :=
  match v with
  | VNone => "None"
  | VBool true => "True"
  | VBool false => "False"
  | VInt z => pretty z
  | VStr s | VUnicode s => s
  | VOther _ r => r
  end.

(** The text of a [str] or [unicode] object; the two compare equal in
    Python 2 when their text is the same. *)
Definition text (v : value) : option string :=
  match v with
  | VStr s | VUnicode s => Some s
  | _ => None
  end.

Inductive exn : Type :=
| AssertionError (msg : string)
| AttributeError (msg : string)
| KeyError (key : string)
| ValueError (msg : string)
| TypeError (msg : string)
| StopIteration.

#[global] Instance exn_eq_dec : EqDecision exn.
Proof. solve_decision. Defined.

(** ** Strings *)

(** The double quote character, which the error messages embed. *)
Definition dq : string := String "034"%char EmptyString.

Definition lower_ascii (c : ascii) : ascii :=
  let n := nat_of_ascii c in
  if (65 <=? n) && (n <=? 90) then ascii_of_nat (n + 32) else c.

(** [s.lower()] *)
Fixpoint lower (s : string) : string :=
  match s with
  | EmptyString => EmptyString
  | String c r => String (lower_ascii c) (lower r)
  end.

Fixpoint insert_sorted (x : string) (l : list string) : list string :=
  match l with
  | [] => [x]
  | y :: r => if String.leb x y then x :: l else y :: insert_sorted x r
  end.

(** [sorted(l)] on strings: ascending code-point order. *)
Definition sorted (l : list string) : list string :=
  foldr insert_sorted [] l.

(** [sep.join(l)] *)
Fixpoint join (sep : string) (l : list string) : string :=
  match l with
  | [] => EmptyString
  | [x] => x
  | x :: r => x +:+ sep +:+ join sep r
  end.

(** ** Containers *)

(** A module-level constant holding names is either a sequence (tuple or
    list) or a dictionary; the two answer different methods. *)
Inductive container : Type :=
| PyTuple (items : list string)
| PyDict (dict_keys : list string).

(** [iter(c)]: the items of a sequence, the keys of a dictionary. *)
Definition iter (c : container) : list string :=
  match c with PyTuple l => l | PyDict l => l end.

(** [value in c] *)
Definition contains (c : container) (v : value) : bool :=
  match text v with
  | Some s => bool_decide (s ∈ iter c)
  | None => false
  end.

Fixpoint list_index (s : string) (l : list string) : option nat :=
  match l with
  | [] => None
  | x :: r => if String.eqb x s then Some 0 else S <$> list_index s r
  end.

(** [c.index(value)]: only sequences have the method. *)
Definition index (c : container) (v : value) : exn + nat :=
  match c with
  | PyDict _ => inl (AttributeError "'dict' object has no attribute 'index'")
  | PyTuple l =>
      match text v ≫= λ s, list_index s l with
      | Some i => inr i
      | None => inl (ValueError "tuple.index(x): x not in tuple")
      end
  end.

(** [c.keys()]: only dictionaries have the method. *)
Definition keys (c : container) : exn + list string :=
  match c with
  | PyDict l => inr l
  | PyTuple _ => inl (AttributeError "'tuple' object has no attribute 'keys'")
  end.

(** A mapping from names to objects, such as [RGB_COLOURSPACES]: its keys
    in iteration order and its subscript operation.  Membership ([in]) is
    defined by the subscript succeeding. *)
Record mapping (V : Type) : Type := Mapping {
  mapping_keys : list string;
  getitem : string → option V
}.
Arguments Mapping {V}.
Arguments mapping_keys {V}.
Arguments getitem {V}.

Definition mapping_contains {V} (m : mapping V) (v : value) : bool :=
  match text v ≫= getitem m with
  | Some _ => true
  | None => false
  end.

(** ** Dictionaries *)

(** A dictionary with string keys, represented by the assignments
    [d[k] = v] that built it, in the order in which they were made.  A
    subscript gives the value last assigned to the key; iteration goes
    through the keys in the order in which they were first assigned, which
    is the order of a Python dictionary. *)
Record dict (V : Type) : Type := Dict {
  assignments : list (string * V)
}.
Arguments Dict {V}.
Arguments assignments {V}.

#[global] Instance dict_eq_dec {V} `{EqDecision V} : EqDecision (dict V).
Proof. solve_decision. Defined.

Fixpoint last_assigned {V} (k : string) (l : list (string * V)) : option V :=
  match l with
  | [] => None
  | (k', v) :: r =>
      match last_assigned k r with
      | Some w => Some w
      | None => if decide (k' = k) then Some v else None
      end
  end.

(** The distinct elements of a list, each at its first occurrence. *)
Fixpoint first_occurrences (l : list string) : list string :=
  match l with
  | [] => []
  | k :: r => k :: filter (λ k', k' ≠ k) (first_occurrences r)
  end.

(** [d[k]] and [d.get(k)] *)
#[global] Instance dict_lookup {V} : Lookup string V (dict V) :=
  λ k d, last_assigned k (assignments d).

(** [{}] *)
#[global] Instance dict_empty {V} : Empty (dict V) := Dict [].

(** [d[k] = v] *)
#[global] Instance dict_insert {V} : Insert string V (dict V) :=
  λ k v d, Dict (assignments d ++ [(k, v)]).

(** [{k: v}] *)
#[global] Instance dict_singleton {V} : SingletonM string V (dict V) :=
  λ k v, Dict [(k, v)].

(** [list(d)] *)
Definition key_order {V} (d : dict V) : list string :=
  first_occurrences (assignments d).*1.

(** [d.items()] *)
Definition items {V} (d : dict V) : list (string * V) :=
  omap (λ k, pair k <$> d !! k) (key_order d).

(** [d.values()] *)
Definition values {V} (d : dict V) : list V := (items d).*2.

(** [{k: f(v) for k, v in d.items()}] *)
#[global] Instance dict_fmap : FMap dict :=
  λ A B f d, Dict (prod_map id f <$> items d).

(** ** [collections.deque] *)

Section Deque.
Context {A : Type}.

(** [d.append(d.popleft())] *)
Definition rotate_left_1 (d : list A) : list A :=
  match d with
  | [] => []
  | x :: r => r ++ [x]
  end.

(** [d.appendleft(d.pop())] *)
Definition rotate_right_1 (d : list A) : list A :=
  match rev d with
  | [] => []
  | x :: r => x :: rev r
  end.

(** [d.rotate(n)]: [n] steps to the right, to the left when negative. *)
Definition rotate (n : Z) (d : list A) : list A :=
  if (0 <=? n)%Z then Nat.iter (Z.to_nat n) rotate_right_1 d
  else Nat.iter (Z.to_nat (- n)) rotate_left_1 d.
End Deque.

(** ** [itertools.cycle] *)

(** The generator state of [cycle(iterable)]: what is left of the current
    pass, the elements saved during the first pass, and whether the first
    pass is still running. *)
Record cycle (A : Type) : Type := Cycle {
  cycle_rest : list A;
  cycle_saved : list A;
  cycle_first_pass : bool
}.
Arguments Cycle {A}.
Arguments cycle_rest {A}.
Arguments cycle_saved {A}.
Arguments cycle_first_pass {A}.

Definition new_cycle {A} (iterable : list A) : cycle A :=
  Cycle iterable [] true.

(** [next(c)] *)
Definition next {A} (c : cycle A) : exn + (A * cycle A) :=
  match cycle_rest c with
  | x :: r =>
      inr (x, Cycle r
                (if cycle_first_pass c then cycle_saved c ++ [x]
                 else cycle_saved c)
                (cycle_first_pass c))
  | [] =>
      match cycle_saved c with
      | [] => inl StopIteration
      | x :: r => inr (x, Cycle r (cycle_saved c) false)
      end
  end.

(** ** Arrays *)

(** An image is a three-dimensional array: rows, columns, channels. *)
Definition ndarray (sample : Type) : Type := list (list (list sample)).

Section Slicing.
Context {A : Type}.

(** Every [n]-th element, after skipping the first [k]. *)
Fixpoint stride_from (n k : nat) (l : list A) : list A :=
  match l with
  | [] => []
  | x :: r =>
      match k with
      | 0 => x :: stride_from n (n - 1) r
      | S k' => stride_from n k' r
      end
  end.

Definition stride (n : nat) (l : list A) : list A := stride_from n 0 l.

(** [l[::step]]; [None] is the default step. *)
Definition slice_step (step : option Z) (l : list A) : exn + list A :=
  match step with
  | None => inr l
  | Some z =>
      if (z =? 0)%Z then inl (ValueError "slice step cannot be zero")
      else if (0 <? z)%Z then inr (stride (Z.to_nat z) l)
      else inr (stride (Z.to_nat (- z)) (rev l))
  end.
End Slicing.

Fixpoint map_result {A B} (f : A → exn + B) (l : list A) : exn + list B :=
  match l with
  | [] => inr []
  | x :: r =>
      match f x with
      | inl e => inl e
      | inr y =>
          match map_result f r with
          | inl e => inl e
          | inr ys => inr (y :: ys)
          end
      end
  end.

(** [image[..., 0:3]] *)
Definition first_three_channels {sample} (image : ndarray sample)
  : ndarray sample :=
  map (map (take 3)) image.

(** [image[::step, ::step]] *)
Definition resample {sample} (step : option Z) (image : ndarray sample)
  : exn + ndarray sample :=
  match slice_step step image with
  | inl e => inl e
  | inr rows => map_result (slice_step step) rows
  end.

(** The pixel at row [i] and column [j]. *)
Definition pixel_at {sample} (image : ndarray sample) (i j : nat)
  : option (list sample) :=
  image !! i ≫= λ r, r !! j.

(** Shape of an array whose rows all have [w] pixels of [c] channels. *)
Definition has_shape {sample} (image : ndarray sample) (h w c : nat) : Prop :=
  length image = h ∧
  Forall (λ row, length row = w ∧ Forall (λ px, length px = c) row) image.

(** ** The settings structure *)

(** [settings['actions'][name]]: every key is optional ([dict.get]). *)
Record sequence_setting : Type := {
  setting_modifiers : option (list string);
  setting_key : option string
}.

Record action_setting : Type := {
  setting_name : option string;
  setting_description : option string;
  setting_sequence : option sequence_setting
}.

(** [layout['views'][name]]: every key is required (subscript). *)
Record view_setting : Type := {
  setting_view_name : string;
  setting_view_description : string;
  setting_view : string;
  setting_row : Z;
  setting_column : Z;
  setting_row_span : Z;
  setting_column_span : Z
}.

Record layout_setting : Type := {
  setting_layout_name : string;
  setting_layout_description : string;
  setting_views : dict view_setting
}.

Record canvas_setting : Type := {
  canvas_size : Z * Z;
  canvas_background_colour : string;
  views_background_colour : string;
  views_border_colour : string
}.

(** A settings dictionary with the keys the module subscripts ([canvas],
    [layouts] and what they hold).  [settings.get('actions', ())] is a
    dictionary when the key is there and the empty tuple when it is not.
    The [settings] argument of the constructor is such a dictionary or
    [None]. *)
Record Settings : Type := {
  settings_canvas : canvas_setting;
  settings_layouts : list layout_setting;
  settings_actions : option (dict action_setting)
}.

(** ** The named tuples of the module *)

Record Sequence : Type := {
  modifiers : list string;
  key : option string
}.

Record Action : Type := {
  action_name : option string;
  action_description : option string;
  sequence : Sequence
}.

Record ViewPreset : Type := {
  preset_name : string;
  preset_description : string;
  view : string;
  row : Z;
  column : Z;
  row_span : Z;
  column_span : Z
}.

Record LayoutPreset : Type := {
  layout_name : string;
  layout_description : string;
  views : dict ViewPreset
}.

(** ** Views, the grid and key events *)

(** The four view classes.  The canvas builds one instance of each, so the
    class also identifies the instance wherever a reference to it is held
    (the [__views] tuple, the widgets of the grid). *)
Inductive view_kind : Type :=
| ConsoleView | GamutView | ImageView | DiagramView.

#[global] Instance view_kind_eq_dec : EqDecision view_kind.
Proof. solve_decision. Defined.

(** A view instance: the keyword arguments it was built with.  The
    colour-space properties are the ones the cycle actions assign to. *)
Record View (sample : Type) : Type := {
  view_class : view_kind;
  view_image : option (ndarray sample);
  view_oecf : value;
  view_input_colourspace : value;
  view_reference_colourspace : value;
  view_correlate_colourspace : value;
  view_bgcolor : string;
  view_border_color : string
}.
Arguments Build_View {sample}.
Arguments view_class {sample}.
Arguments view_image {sample}.
Arguments view_oecf {sample}.
Arguments view_input_colourspace {sample}.
Arguments view_reference_colourspace {sample}.
Arguments view_correlate_colourspace {sample}.
Arguments view_bgcolor {sample}.
Arguments view_border_color {sample}.

(** What [getattr(self, name)] can hand to the grid: a view instance,
    [None], or some other object, told by the attribute that holds it (a
    string, an array, a dictionary, a bound method, ...). *)
Inductive object : Type :=
| AView (k : view_kind)
| ANone
| AOther (attribute : string).

#[global] Instance object_eq_dec : EqDecision object.
Proof. solve_decision. Defined.

(** One [grid.add_widget(widget, row=, col=, row_span=, col_span=)]. *)
Record placement : Type := {
  widget : object;
  widget_row : Z;
  widget_col : Z;
  widget_row_span : Z;
  widget_col_span : Z
}.

#[global] Instance placement_eq_dec : EqDecision placement.
Proof. solve_decision. Defined.

(** What [on_key_press] reads of an event: [event.key.name] and the
    [name] of each of [event.modifiers]. *)
Record KeyEvent : Type := {
  event_key_name : string;
  event_modifier_names : list string
}.

(** The receiver of a handler call: the canvas itself or one of its
    views. *)
Inductive receiver : Type :=
| Canvas
| OnView (v : view_kind).

#[global] Instance receiver_eq_dec : EqDecision receiver.
Proof. solve_decision. Defined.

(** A handler call: the receiver and the method name. *)
Definition call : Type := receiver * string.

#[global] Instance Sequence_eq_dec : EqDecision Sequence.
Proof. solve_decision. Defined.

#[global] Instance Action_eq_dec : EqDecision Action.
Proof. solve_decision. Defined.

(** The keyword arguments of [SceneCanvas.__init__] that depend on the
    arguments of the constructor. *)
Record SceneCanvas_arguments : Type := {
  scene_title : string;
  scene_size : Z * Z;
  scene_bgcolor : string
}.

(** ** The [Analysis] object *)

(** The private attributes of an instance.  [__grid] holds the calls of
    [add_widget] the grid has received.  The last three fields are not
    attributes of the class: [trace] records, in order, every handler call
    the dispatcher makes, so that the number of calls can be stated;
    [scene_canvas] and [shown] are the state of the base class, the
    arguments it was initialised with and whether [show] was called. *)
Record Analysis (sample : Type) : Type := Build_Analysis {
  __image_path : value;
  __image : option (ndarray sample);
  __input_colourspace : value;
  __input_oecf : value;
  __input_linear : value;
  __input_resample : value;
  __reference_colourspace : value;
  __correlate_colourspace : value;
  __settings : Settings;
  __layout : value;
  __layout_presets : dict LayoutPreset;
  __actions : dict Action;
  __console_view : option (View sample);
  __gamut_view : option (View sample);
  __image_view : option (View sample);
  __diagram_view : option (View sample);
  __views : option (list view_kind);
  __grid : option (list placement);
  __RGB_colourspaces_cycle : option (cycle string);
  __reference_colourspaces_cycle : option (cycle string);
  trace : list call;
  scene_canvas : option SceneCanvas_arguments;
  shown : bool
}.
Arguments Build_Analysis {sample}.
Arguments __image_path {sample}.
Arguments __image {sample}.
Arguments __input_colourspace {sample}.
Arguments __input_oecf {sample}.
Arguments __input_linear {sample}.
Arguments __input_resample {sample}.
Arguments __reference_colourspace {sample}.
Arguments __correlate_colourspace {sample}.
Arguments __settings {sample}.
Arguments __layout {sample}.
Arguments __layout_presets {sample}.
Arguments __actions {sample}.
Arguments __console_view {sample}.
Arguments __gamut_view {sample}.
Arguments __image_view {sample}.
Arguments __diagram_view {sample}.
Arguments __views {sample}.
Arguments __grid {sample}.
Arguments __RGB_colourspaces_cycle {sample}.
Arguments __reference_colourspaces_cycle {sample}.
Arguments trace {sample}.
Arguments scene_canvas {sample}.
Arguments shown {sample}.

(** Attribute assignment: [self.<attribute> = x]. *)
Section Assign.
Context {sample : Type}.

Definition assign_image_path (x : value) (self : Analysis sample)
  : Analysis sample :=
  let '(Build_Analysis _ f1 f2 f3 f4 f5 f6 f7 f8 f9 f10 f11 f12 f13 f14 f15
    f16 f17 f18 f19 f20 f21 f22) := self in
  Build_Analysis x f1 f2 f3 f4 f5 f6 f7 f8 f9 f10 f11 f12 f13 f14 f15 f16 f17
    f18 f19 f20 f21 f22.
Definition assign_image (x : option (ndarray sample)) (self : Analysis sample)
  : Analysis sample :=
  let '(Build_Analysis f0 _ f2 f3 f4 f5 f6 f7 f8 f9 f10 f11 f12 f13 f14 f15
    f16 f17 f18 f19 f20 f21 f22) := self in
  Build_Analysis f0 x f2 f3 f4 f5 f6 f7 f8 f9 f10 f11 f12 f13 f14 f15 f16 f17
    f18 f19 f20 f21 f22.
Definition assign_input_colourspace (x : value) (self : Analysis sample)
  : Analysis sample :=
  let '(Build_Analysis f0 f1 _ f3 f4 f5 f6 f7 f8 f9 f10 f11 f12 f13 f14 f15
    f16 f17 f18 f19 f20 f21 f22) := self in
  Build_Analysis f0 f1 x f3 f4 f5 f6 f7 f8 f9 f10 f11 f12 f13 f14 f15 f16 f17
    f18 f19 f20 f21 f22.
Definition assign_input_oecf (x : value) (self : Analysis sample)
  : Analysis sample :=
  let '(Build_Analysis f0 f1 f2 _ f4 f5 f6 f7 f8 f9 f10 f11 f12 f13 f14 f15
    f16 f17 f18 f19 f20 f21 f22) := self in
  Build_Analysis f0 f1 f2 x f4 f5 f6 f7 f8 f9 f10 f11 f12 f13 f14 f15 f16 f17
    f18 f19 f20 f21 f22.
Definition assign_input_linear (x : value) (self : Analysis sample)
  : Analysis sample :=
  let '(Build_Analysis f0 f1 f2 f3 _ f5 f6 f7 f8 f9 f10 f11 f12 f13 f14 f15
    f16 f17 f18 f19 f20 f21 f22) := self in
  Build_Analysis f0 f1 f2 f3 x f5 f6 f7 f8 f9 f10 f11 f12 f13 f14 f15 f16 f17
    f18 f19 f20 f21 f22.
Definition assign_input_resample (x : value) (self : Analysis sample)
  : Analysis sample :=
  let '(Build_Analysis f0 f1 f2 f3 f4 _ f6 f7 f8 f9 f10 f11 f12 f13 f14 f15
    f16 f17 f18 f19 f20 f21 f22) := self in
  Build_Analysis f0 f1 f2 f3 f4 x f6 f7 f8 f9 f10 f11 f12 f13 f14 f15 f16 f17
    f18 f19 f20 f21 f22.
Definition assign_reference_colourspace (x : value) (self : Analysis sample)
  : Analysis sample :=
  let '(Build_Analysis f0 f1 f2 f3 f4 f5 _ f7 f8 f9 f10 f11 f12 f13 f14 f15
    f16 f17 f18 f19 f20 f21 f22) := self in
  Build_Analysis f0 f1 f2 f3 f4 f5 x f7 f8 f9 f10 f11 f12 f13 f14 f15 f16 f17
    f18 f19 f20 f21 f22.
Definition assign_correlate_colourspace (x : value) (self : Analysis sample)
  : Analysis sample :=
  let '(Build_Analysis f0 f1 f2 f3 f4 f5 f6 _ f8 f9 f10 f11 f12 f13 f14 f15
    f16 f17 f18 f19 f20 f21 f22) := self in
  Build_Analysis f0 f1 f2 f3 f4 f5 f6 x f8 f9 f10 f11 f12 f13 f14 f15 f16 f17
    f18 f19 f20 f21 f22.
Definition assign_settings (x : Settings) (self : Analysis sample)
  : Analysis sample :=
  let '(Build_Analysis f0 f1 f2 f3 f4 f5 f6 f7 _ f9 f10 f11 f12 f13 f14 f15
    f16 f17 f18 f19 f20 f21 f22) := self in
  Build_Analysis f0 f1 f2 f3 f4 f5 f6 f7 x f9 f10 f11 f12 f13 f14 f15 f16 f17
    f18 f19 f20 f21 f22.
Definition assign_layout (x : value) (self : Analysis sample)
  : Analysis sample :=
  let '(Build_Analysis f0 f1 f2 f3 f4 f5 f6 f7 f8 _ f10 f11 f12 f13 f14 f15
    f16 f17 f18 f19 f20 f21 f22) := self in
  Build_Analysis f0 f1 f2 f3 f4 f5 f6 f7 f8 x f10 f11 f12 f13 f14 f15 f16 f17
    f18 f19 f20 f21 f22.
Definition assign_layout_presets (x : dict LayoutPreset) (self : Analysis sample)
  : Analysis sample :=
  let '(Build_Analysis f0 f1 f2 f3 f4 f5 f6 f7 f8 f9 _ f11 f12 f13 f14 f15 f16
    f17 f18 f19 f20 f21 f22) := self in
  Build_Analysis f0 f1 f2 f3 f4 f5 f6 f7 f8 f9 x f11 f12 f13 f14 f15 f16 f17
    f18 f19 f20 f21 f22.
Definition assign_actions (x : dict Action) (self : Analysis sample)
  : Analysis sample :=
  let '(Build_Analysis f0 f1 f2 f3 f4 f5 f6 f7 f8 f9 f10 _ f12 f13 f14 f15 f16
    f17 f18 f19 f20 f21 f22) := self in
  Build_Analysis f0 f1 f2 f3 f4 f5 f6 f7 f8 f9 f10 x f12 f13 f14 f15 f16 f17
    f18 f19 f20 f21 f22.
Definition assign_console_view (x : option (View sample)) (self : Analysis sample)
  : Analysis sample :=
  let '(Build_Analysis f0 f1 f2 f3 f4 f5 f6 f7 f8 f9 f10 f11 _ f13 f14 f15 f16
    f17 f18 f19 f20 f21 f22) := self in
  Build_Analysis f0 f1 f2 f3 f4 f5 f6 f7 f8 f9 f10 f11 x f13 f14 f15 f16 f17
    f18 f19 f20 f21 f22.
Definition assign_gamut_view (x : option (View sample)) (self : Analysis sample)
  : Analysis sample :=
  let '(Build_Analysis f0 f1 f2 f3 f4 f5 f6 f7 f8 f9 f10 f11 f12 _ f14 f15 f16
    f17 f18 f19 f20 f21 f22) := self in
  Build_Analysis f0 f1 f2 f3 f4 f5 f6 f7 f8 f9 f10 f11 f12 x f14 f15 f16 f17
    f18 f19 f20 f21 f22.
Definition assign_image_view (x : option (View sample)) (self : Analysis sample)
  : Analysis sample :=
  let '(Build_Analysis f0 f1 f2 f3 f4 f5 f6 f7 f8 f9 f10 f11 f12 f13 _ f15 f16
    f17 f18 f19 f20 f21 f22) := self in
  Build_Analysis f0 f1 f2 f3 f4 f5 f6 f7 f8 f9 f10 f11 f12 f13 x f15 f16 f17
    f18 f19 f20 f21 f22.
Definition assign_diagram_view (x : option (View sample)) (self : Analysis sample)
  : Analysis sample :=
  let '(Build_Analysis f0 f1 f2 f3 f4 f5 f6 f7 f8 f9 f10 f11 f12 f13 f14 _ f16
    f17 f18 f19 f20 f21 f22) := self in
  Build_Analysis f0 f1 f2 f3 f4 f5 f6 f7 f8 f9 f10 f11 f12 f13 f14 x f16 f17
    f18 f19 f20 f21 f22.
Definition assign_views (x : option (list view_kind)) (self : Analysis sample)
  : Analysis sample :=
  let '(Build_Analysis f0 f1 f2 f3 f4 f5 f6 f7 f8 f9 f10 f11 f12 f13 f14 f15 _
    f17 f18 f19 f20 f21 f22) := self in
  Build_Analysis f0 f1 f2 f3 f4 f5 f6 f7 f8 f9 f10 f11 f12 f13 f14 f15 x f17
    f18 f19 f20 f21 f22.
Definition assign_grid (x : option (list placement)) (self : Analysis sample)
  : Analysis sample :=
  let '(Build_Analysis f0 f1 f2 f3 f4 f5 f6 f7 f8 f9 f10 f11 f12 f13 f14 f15
    f16 _ f18 f19 f20 f21 f22) := self in
  Build_Analysis f0 f1 f2 f3 f4 f5 f6 f7 f8 f9 f10 f11 f12 f13 f14 f15 f16 x
    f18 f19 f20 f21 f22.
Definition assign_RGB_colourspaces_cycle (x : option (cycle string)) (self : Analysis sample)
  : Analysis sample :=
  let '(Build_Analysis f0 f1 f2 f3 f4 f5 f6 f7 f8 f9 f10 f11 f12 f13 f14 f15
    f16 f17 _ f19 f20 f21 f22) := self in
  Build_Analysis f0 f1 f2 f3 f4 f5 f6 f7 f8 f9 f10 f11 f12 f13 f14 f15 f16 f17
    x f19 f20 f21 f22.
Definition assign_reference_colourspaces_cycle (x : option (cycle string)) (self : Analysis sample)
  : Analysis sample :=
  let '(Build_Analysis f0 f1 f2 f3 f4 f5 f6 f7 f8 f9 f10 f11 f12 f13 f14 f15
    f16 f17 f18 _ f20 f21 f22) := self in
  Build_Analysis f0 f1 f2 f3 f4 f5 f6 f7 f8 f9 f10 f11 f12 f13 f14 f15 f16 f17
    f18 x f20 f21 f22.
Definition assign_trace (x : list call) (self : Analysis sample)
  : Analysis sample :=
  let '(Build_Analysis f0 f1 f2 f3 f4 f5 f6 f7 f8 f9 f10 f11 f12 f13 f14 f15
    f16 f17 f18 f19 _ f21 f22) := self in
  Build_Analysis f0 f1 f2 f3 f4 f5 f6 f7 f8 f9 f10 f11 f12 f13 f14 f15 f16 f17
    f18 f19 x f21 f22.
Definition assign_scene_canvas (x : option SceneCanvas_arguments) (self : Analysis sample)
  : Analysis sample :=
  let '(Build_Analysis f0 f1 f2 f3 f4 f5 f6 f7 f8 f9 f10 f11 f12 f13 f14 f15
    f16 f17 f18 f19 f20 _ f22) := self in
  Build_Analysis f0 f1 f2 f3 f4 f5 f6 f7 f8 f9 f10 f11 f12 f13 f14 f15 f16 f17
    f18 f19 f20 x f22.
Definition assign_shown (x : bool) (self : Analysis sample)
  : Analysis sample :=
  let '(Build_Analysis f0 f1 f2 f3 f4 f5 f6 f7 f8 f9 f10 f11 f12 f13 f14 f15
    f16 f17 f18 f19 f20 f21 _) := self in
  Build_Analysis f0 f1 f2 f3 f4 f5 f6 f7 f8 f9 f10 f11 f12 f13 f14 f15 f16 f17
    f18 f19 f20 f21 x.
End Assign.


(** ** What the module imports *)

(** An RGB colour space of the colour-science library, as far as the
    module uses it: its inverse transfer function, which acts on every
    sample of an array alike. *)
Record RGB_Colourspace (sample : Type) : Type := {
  inverse_transfer_function : sample → sample
}.
Arguments inverse_transfer_function {sample}.

(** The names the module imports and does not define:
    - the two registries ([colour.RGB_COLOURSPACES], a mapping, and
      [colour_analysis.utilities.common.REFERENCE_COLOURSPACES]);
    - the file system test, the image decoder and the array [__init__]
      first stores;
    - [json.load(open(SETTINGS_FILE))];
    - the methods of the view classes: [view_method k name] is the method
      [name] of class [k], if the class has one.  A method of a view acts on
      that view; it returns or raises, and leaves the view as it made it;
    - the attributes an instance inherits from [SceneCanvas] and [object];
    - what [add_widget] of the grid does when it is handed an object that
      is no view: the exception it raises, if any. *)
Record Env (sample : Type) : Type := {
  RGB_COLOURSPACES : mapping (RGB_Colourspace sample);
  REFERENCE_COLOURSPACES : container;
  os_path_exists : string → bool;
  read_image : string → ndarray sample;
  np_random_random : ndarray sample;
  json_load_SETTINGS_FILE : exn + Settings;
  view_method :
    view_kind → string → option (View sample → (exn + unit) * View sample);
  SceneCanvas_attribute : string → bool;
  add_widget_other : object → option exn
}.
Arguments RGB_COLOURSPACES {sample}.
Arguments REFERENCE_COLOURSPACES {sample}.
Arguments os_path_exists {sample}.
Arguments read_image {sample}.
Arguments np_random_random {sample}.
Arguments json_load_SETTINGS_FILE {sample}.
Arguments view_method {sample}.
Arguments SceneCanvas_attribute {sample}.
Arguments add_widget_other {sample}.

(** [hasattr(view, method)] for an instance of class [k]. *)
Definition hasattr_view {sample} (E : Env sample) (k : view_kind)
    (method : string) : bool :=
  bool_decide (is_Some (view_method E k method)).

(** ** The monad of methods *)

(** A method takes the object and returns it, possibly changed, together
    with a result or the exception raised.  Assignments made before an
    exception stay made. *)
Definition M (sample : Type) (A : Type) : Type :=
  Analysis sample → (exn + A) * Analysis sample.

#[global] Instance M_ret {sample} : MRet (M sample) :=
  λ A x self, (inr x, self).

#[global] Instance M_bind {sample} : MBind (M sample) :=
  λ A B f m self,
    match m self with
    | (inl e, self') => (inl e, self')
    | (inr x, self') => f x self'
    end.

Section Monad.
Context {sample : Type}.

Definition raise {A} (e : exn) : M sample A := λ self, (inl e, self).

Definition get : M sample (Analysis sample) := λ self, (inr self, self).

Definition modify (f : Analysis sample → Analysis sample) : M sample unit :=
  λ self, (inr tt, f self).

Definition lift {A} (r : exn + A) : M sample A :=
  match r with
  | inl e => raise e
  | inr x => mret x
  end.

(** [assert condition, message]: the message is only evaluated when the
    condition is false, and evaluating it may itself raise. *)
Definition py_assert (condition : bool) (message : exn + string)
  : M sample unit :=
  if condition then mret tt
  else match message with
       | inl e => raise e
       | inr msg => raise (AssertionError msg)
       end.

(** [for x in l: body(x)] *)
Fixpoint for_each {A} (l : list A) (body : A → M sample unit)
  : M sample unit :=
  match l with
  | [] => mret tt
  | x :: r => body x;; for_each r body
  end.

(** [n] successive calls of a method whose result is dropped. *)
Fixpoint times {A} (n : nat) (method : M sample A) : M sample unit :=
  match n with
  | 0 => mret tt
  | S n' => method;; times n' method
  end.
End Monad.

(** ** Error messages *)

Definition quoted (s : string) : string := dq +:+ s +:+ dq.

(** ['"{0}" attribute: "{1}" type is not "str" or "unicode"!'] *)
Definition not_str_message (attribute : string) (v : value) : string :=
  quoted attribute +:+ " attribute: " +:+ quoted (str v) +:+
  " type is not " +:+ quoted "str" +:+ " or " +:+ quoted "unicode" +:+ "!".

(** ['"{0}" attribute: "{1}" type is not "<type>"!'] *)
Definition not_type_message (attribute : string) (v : value) (ty : string)
  : string :=
  quoted attribute +:+ " attribute: " +:+ quoted (str v) +:+
  " type is not " +:+ quoted ty +:+ "!".

(** ['"{0}" input image doesn\'t exists!'] *)
Definition not_exists_message (v : value) : string :=
  quoted (str v) +:+ " input image doesn't exists!".

(** ['"{0}" <what>: "{1}".'] with the sorted names joined by [', ']. *)
Definition not_found_message (v : value) (what : string) (names : list string)
  : string :=
  quoted (str v) +:+ what +:+ quoted (join ", " (sorted names)) +:+ ".".

(** ['"{0}" attribute is read only!'] *)
Definition read_only_message (attribute : string) : string :=
  quoted attribute +:+ " attribute is read only!".

(** ** The class [Analysis] *)

Section Analysis.
Context {sample : Type} (E : Env sample).

Abbreviation Method := (M sample).

(** *** Properties: getters *)

Definition image_path (self : Analysis sample) := __image_path self.
Definition image (self : Analysis sample) := __image self.
Definition input_colourspace (self : Analysis sample) :=
  __input_colourspace self.
Definition input_oecf (self : Analysis sample) := __input_oecf self.
Definition input_linear (self : Analysis sample) := __input_linear self.
Definition input_resample (self : Analysis sample) := __input_resample self.
Definition reference_colourspace (self : Analysis sample) :=
  __reference_colourspace self.
Definition correlate_colourspace (self : Analysis sample) :=
  __correlate_colourspace self.
Definition settings (self : Analysis sample) := __settings self.
Definition layout (self : Analysis sample) := __layout self.
Definition actions (self : Analysis sample) := __actions self.
Definition console_view (self : Analysis sample) := __console_view self.
Definition gamut_view (self : Analysis sample) := __gamut_view self.
Definition image_view (self : Analysis sample) := __image_view self.
Definition diagram_view (self : Analysis sample) := __diagram_view self.

(** *** Properties: validating setters *)

Definition image_path_setter (v : value) : Method unit :=
  (if is_not_None v then
     py_assert (type_in_str_unicode v)
       (inr (not_str_message "image_path" v));;
     py_assert (from_option (os_path_exists E) false (text v))
       (inr (not_exists_message v))
   else mret tt);;
  modify (assign_image_path v).

(** The setter is only ever handed [None] or an array, which passes the
    type assertion. *)
Definition image_setter (v : option (ndarray sample)) : Method unit :=
  modify (assign_image v).

Definition input_colourspace_setter (v : value) : Method unit :=
  (if is_not_None v then
     py_assert (type_in_str_unicode v)
       (inr (not_str_message "input_colourspace" v));;
     py_assert (mapping_contains (RGB_COLOURSPACES E) v)
       (inr (not_found_message v
               " colourspace not found in factory RGB colourspaces: "
               (mapping_keys (RGB_COLOURSPACES E))))
   else mret tt);;
  modify (assign_input_colourspace v).

Definition input_oecf_setter (v : value) : Method unit :=
  (if is_not_None v then
     py_assert (type_in_str_unicode v)
       (inr (not_str_message "input_oecf" v));;
     py_assert (mapping_contains (RGB_COLOURSPACES E) v)
       (inr (not_found_message v
               " OECF is not associated with any factory RGB colourspaces: "
               (mapping_keys (RGB_COLOURSPACES E))))
   else mret tt);;
  modify (assign_input_oecf v).

Definition input_linear_setter (v : value) : Method unit :=
  (if is_not_None v then
     py_assert (type_is_bool v)
       (inr (not_type_message "input_linear" v "bool"))
   else mret tt);;
  modify (assign_input_linear v).

Definition input_resample_setter (v : value) : Method unit :=
  (if is_not_None v then
     py_assert (type_is_int v)
       (inr (not_type_message "input_resample" v "int"))
   else mret tt);;
  modify (assign_input_resample v).

(** The message of the membership assertion calls
    [REFERENCE_COLOURSPACES.keys()]. *)
Definition reference_colourspace_setter (v : value) : Method unit :=
  (if is_not_None v then
     py_assert (type_in_str_unicode v)
       (inr (not_str_message "reference_colourspace" v));;
     py_assert (contains (REFERENCE_COLOURSPACES E) v)
       (match keys (REFERENCE_COLOURSPACES E) with
        | inl e => inl e
        | inr names =>
            inr (not_found_message v
                   (" reference colourspace not found in factory reference "
                    +:+ "colourspaces: ")
                   names)
        end)
   else mret tt);;
  modify (assign_reference_colourspace v).

Definition correlate_colourspace_setter (v : value) : Method unit :=
  (if is_not_None v then
     py_assert (type_in_str_unicode v)
       (inr (not_str_message "correlate_colourspace" v));;
     py_assert (mapping_contains (RGB_COLOURSPACES E) v)
       (inr (not_found_message v
               " colourspace not found in factory RGB colourspaces: "
               (mapping_keys (RGB_COLOURSPACES E))))
   else mret tt);;
  modify (assign_correlate_colourspace v).

Definition layout_setter (v : value) : Method unit :=
  (if is_not_None v then
     py_assert (type_in_str_unicode v) (inr (not_str_message "layout" v))
   else mret tt);;
  modify (assign_layout v).

(** *** Properties: read-only setters *)

(** The value written is of no account: none of these setters looks at
    it. *)
Definition settings_setter {T} (v : T) : Method unit :=
  raise (AttributeError (read_only_message "settings")).

Definition actions_setter {T} (v : T) : Method unit :=
  raise (AttributeError (read_only_message "actions")).

Definition console_view_setter {T} (v : T) : Method unit :=
  raise (AttributeError (read_only_message "console_view")).

Definition gamut_view_setter {T} (v : T) : Method unit :=
  raise (AttributeError (read_only_message "gamut_view")).

Definition image_view_setter {T} (v : T) : Method unit :=
  raise (AttributeError (read_only_message "image_view")).

Definition diagram_view_setter {T} (v : T) : Method unit :=
  raise (AttributeError (read_only_message "diagram_view")).

(** *** View attributes *)

(** The private attribute holding the instance of a view class. *)
Definition view_attribute (k : view_kind) (self : Analysis sample)
  : option (View sample) :=
  match k with
  | ConsoleView => __console_view self
  | GamutView => __gamut_view self
  | ImageView => __image_view self
  | DiagramView => __diagram_view self
  end.

Definition assign_view_attribute (k : view_kind) (v : option (View sample))
  : Analysis sample → Analysis sample :=
  match k with
  | ConsoleView => assign_console_view v
  | GamutView => assign_gamut_view v
  | ImageView => assign_image_view v
  | DiagramView => assign_diagram_view v
  end.

Definition with_correlate_colourspace (x : value) (v : View sample)
  : View sample :=
  Build_View (view_class v) (view_image v) (view_oecf v)
    (view_input_colourspace v) (view_reference_colourspace v) x
    (view_bgcolor v) (view_border_color v).

Definition with_reference_colourspace (x : value) (v : View sample)
  : View sample :=
  Build_View (view_class v) (view_image v) (view_oecf v)
    (view_input_colourspace v) x (view_correlate_colourspace v)
    (view_bgcolor v) (view_border_color v).

(** [self.__<view>.<property> = x]: the view object is updated in place,
    so every holder of a reference to it sees the new value. *)
Definition setattr_view (k : view_kind) (property : string)
    (update : View sample → View sample) : Method unit :=
  self ← get;
  match view_attribute k self with
  | Some v => modify (assign_view_attribute k (Some (update v)))
  | None =>
      raise (AttributeError
               ("'NoneType' object has no attribute '" +:+ property +:+ "'"))
  end.

(** *** Cycle actions *)

Definition next_of (c : option (cycle string))
  : Method (string * cycle string) :=
  match c with
  | Some c => lift (next c)
  | None => raise (TypeError "NoneType object is not an iterator")
  end.

Definition cycle_correlate_colourspace_action : Method bool :=
  self ← get;
  '(name, c) ← next_of (__RGB_colourspaces_cycle self);
  modify (assign_RGB_colourspaces_cycle (Some c));;
  modify (assign_correlate_colourspace (VStr name));;
  self ← get;
  setattr_view GamutView "correlate_colourspace"
    (with_correlate_colourspace (__correlate_colourspace self));;
  setattr_view ImageView "correlate_colourspace"
    (with_correlate_colourspace (__correlate_colourspace self));;
  mret true.

Definition cycle_reference_colourspace_action : Method bool :=
  self ← get;
  '(name, c) ← next_of (__reference_colourspaces_cycle self);
  modify (assign_reference_colourspaces_cycle (Some c));;
  modify (assign_reference_colourspace (VStr name));;
  self ← get;
  setattr_view GamutView "reference_colourspace"
    (with_reference_colourspace (__reference_colourspace self));;
  mret true.

(** *** Key-press dispatch *)

(** [getattr(self, method)] for a name ending in [_action]: the class
    defines two such methods, and its base classes none. *)
Definition getattr_method (method : string) : option (Method bool) :=
  if decide (method = "cycle_correlate_colourspace_action")
  then Some cycle_correlate_colourspace_action
  else if decide (method = "cycle_reference_colourspace_action")
  then Some cycle_reference_colourspace_action
  else None.


Definition record_call (c : call) : Method unit :=
  modify (λ self, assign_trace (trace self ++ [c]) self).

(** [getattr(view, method)()] on the view [v] of class [k], whose method
    is [h]: the call is recorded, the view is left as the method made it,
    and an exception of the method is raised on. *)
Definition call_view (k : view_kind) (method : string)
    (h : View sample → (exn + unit) * View sample) (v : View sample)
  : Method unit :=
  record_call (OnView k, method);;
  modify (assign_view_attribute k (Some (snd (h v))));;
  lift (fst (h v)).

(** [hasattr(view, method) and getattr(view, method)()], for the element
    of the [__views] tuple that is the instance of class [k].  The tuple
    holds the objects the view attributes hold; [None] has no method. *)
Definition view_step (method : string) (k : view_kind) : Method unit :=
  self ← get;
  match view_attribute k self, view_method E k method with
  | Some v, Some h => call_view k method h v
  | _, _ => mret tt
  end.

(** ['{0}_action'.format(action.name)] *)
Definition action_method (action : Action) : string :=
  from_option id "None" (action_name action) +:+ "_action".

(** [key == action.sequence.key and
     modifiers == sorted(action.sequence.modifiers)] *)
Definition chord_matches (key' : string) (modifiers' : list string)
    (action : Action) : bool :=
  bool_decide (Some key' = key (sequence action)) &&
  bool_decide (modifiers' = sorted (modifiers (sequence action))).

(** The body of the [if] in [on_key_press]. *)
Definition dispatch (action : Action) : Method unit :=
  let method := action_method action in
  match getattr_method method with
  | Some handler => record_call (Canvas, method);; handler;; mret tt
  | None => mret tt
  end;;
  self ← get;
  match __views self with
  | Some vs => for_each vs (view_step method)
  | None => raise (TypeError "'NoneType' object is not iterable")
  end.

(** The [for] loop of [on_key_press] over the given actions. *)
Definition dispatch_all (key' : string) (modifiers' : list string)
    (registered : list Action) : Method unit :=
  for_each registered (λ action,
    if chord_matches key' modifiers' action then dispatch action
    else mret tt).

Definition on_key_press (event : KeyEvent) : Method unit :=
  let key' := lower (event_key_name event) in
  let modifiers' := sorted (lower <$> event_modifier_names event) in
  self ← get;
  dispatch_all key' modifiers' (values (__actions self)).

(** *** Construction *)

Definition view_preset_of (v : view_setting) : ViewPreset :=
  {| preset_name := setting_view_name v;
     preset_description := setting_view_description v;
     view := setting_view v;
     row := setting_row v;
     column := setting_column v;
     row_span := setting_row_span v;
     column_span := setting_column_span v |}.

Definition __create_layout_presets : Method unit :=
  self ← get;
  for_each (settings_layouts (__settings self)) (λ l,
    let vs :=
      foldl (λ (vs : dict ViewPreset) '(name, v),
               <[name := view_preset_of v]> vs)
            ∅ (items (setting_views l)) in
    modify (λ self,
      assign_layout_presets
        (<[setting_layout_name l :=
             {| layout_name := setting_layout_name l;
                layout_description := setting_layout_description l;
                views := vs |}]> (__layout_presets self))
        self)).

(** The name of the type of a value, as error messages print it. *)
Definition type_name (v : value) : string :=
  match type v with
  | TNoneType => "NoneType"
  | TBool => "bool"
  | TInt => "int"
  | TStr => "str"
  | TUnicode => "unicode"
  | TObject n => n
  end.

(** [RGB_COLOURSPACES[name]].  The mapping of the colour-science library
    lowers the key it is given before it looks it up, which only a string
    allows. *)
Definition RGB_COLOURSPACES_getitem (name : value)
  : exn + RGB_Colourspace sample :=
  match text name with
  | Some s =>
      match getitem (RGB_COLOURSPACES E) s with
      | Some colourspace => inr colourspace
      | None => inl (KeyError s)
      end
  | None =>
      inl (AttributeError
             ("'" +:+ type_name name +:+ "' object has no attribute 'lower'"))
  end.

(** [image] when the input is linear, else
    [RGB_COLOURSPACES[input_oecf].inverse_transfer_function(image)]. *)
Definition linearise (input_linear' input_oecf' : value)
    (decoded : ndarray sample) : exn + ndarray sample :=
  if negb (truthy input_linear') then
    match RGB_COLOURSPACES_getitem input_oecf' with
    | inr colourspace =>
        inr (map (map (map (inverse_transfer_function colourspace))) decoded)
    | inl e => inl e
    end
  else inr decoded.

(** The step of the slices [::self.__input_resample]. *)
Definition step_of (input_resample' : value) : exn + option Z :=
  match input_resample' with
  | VNone => inr None
  | VInt z => inr (Some z)
  | _ => inl (TypeError "slice indices must be integers or None")
  end.

Definition __create_image : Method unit :=
  self ← get;
  decoded ← match text (__image_path self) with
            | Some path => mret (read_image E path)
            | None => raise (TypeError "read_image: the path is not a string")
            end;
  linear ← lift (linearise (__input_linear self) (__input_oecf self) decoded);
  let rgb := first_three_channels linear in
  step ← lift (step_of (__input_resample self));
  resampled ← lift (resample step rgb);
  modify (assign_image (Some resampled)).

Definition sequence_of (a : action_setting) : Sequence :=
  match setting_sequence a with
  | Some s => {| modifiers := default [] (setting_modifiers s);
                 key := setting_key s |}
  | None => {| modifiers := []; key := None |}
  end.

Definition action_of (a : action_setting) : Action :=
  {| action_name := setting_name a;
     action_description := setting_description a;
     sequence := sequence_of a |}.

Definition __create_actions : Method unit :=
  modify (assign_actions ∅);;
  self ← get;
  match settings_actions (__settings self) with
  | Some d =>
      for_each (items d) (λ '(name, a),
        modify (λ self,
          assign_actions (<[name := action_of a]> (__actions self)) self))
  | None => raise (AttributeError "'tuple' object has no attribute 'items'")
  end.

Definition __create_views : Method unit :=
  self ← get;
  let background_colour :=
    views_background_colour (settings_canvas (__settings self)) in
  let border_colour :=
    views_border_colour (settings_canvas (__settings self)) in
  modify (assign_console_view (Some
    (Build_View ConsoleView None VNone VNone VNone VNone
       background_colour border_colour)));;
  modify (assign_gamut_view (Some
    (Build_View GamutView (__image self) VNone (__input_colourspace self)
       (__reference_colourspace self) (__correlate_colourspace self)
       background_colour border_colour)));;
  modify (assign_image_view (Some
    (Build_View ImageView (__image self) (__input_oecf self)
       (__input_colourspace self) VNone (__correlate_colourspace self)
       background_colour border_colour)));;
  modify (assign_diagram_view (Some
    (Build_View DiagramView (__image self) (__input_oecf self)
       (__input_colourspace self) VNone (__correlate_colourspace self)
       background_colour border_colour)));;
  modify (assign_views (Some [ConsoleView; GamutView; ImageView])).

(** *** Attribute lookup by name *)

(** The object an attribute holds, as the grid sees it. *)
Definition view_object (k : view_kind) (self : Analysis sample) : object :=
  match view_attribute k self with
  | Some _ => AView k
  | None => ANone
  end.

Definition value_object (attribute : string) (v : value) : object :=
  match v with
  | VNone => ANone
  | _ => AOther attribute
  end.

Definition option_object {A} (attribute : string) (o : option A) : object :=
  match o with
  | Some _ => AOther attribute
  | None => ANone
  end.

(** The private attributes of an instance and what they hold. *)
Definition private_attributes
  : list (string * (Analysis sample → object)) :=
  [("image_path", λ self, value_object "image_path" (__image_path self));
   ("image", λ self, option_object "image" (__image self));
   ("input_colourspace",
    λ self, value_object "input_colourspace" (__input_colourspace self));
   ("input_oecf", λ self, value_object "input_oecf" (__input_oecf self));
   ("input_linear", λ self, value_object "input_linear" (__input_linear self));
   ("input_resample",
    λ self, value_object "input_resample" (__input_resample self));
   ("reference_colourspace",
    λ self, value_object "reference_colourspace"
              (__reference_colourspace self));
   ("correlate_colourspace",
    λ self, value_object "correlate_colourspace"
              (__correlate_colourspace self));
   ("settings", λ _, AOther "settings");
   ("layout", λ self, value_object "layout" (__layout self));
   ("layout_presets", λ _, AOther "layout_presets");
   ("actions", λ _, AOther "actions");
   ("console_view", view_object ConsoleView);
   ("gamut_view", view_object GamutView);
   ("image_view", view_object ImageView);
   ("diagram_view", view_object DiagramView);
   ("views", λ self, option_object "views" (__views self));
   ("grid", λ self, option_object "grid" (__grid self));
   ("RGB_colourspaces_cycle",
    λ self, option_object "RGB_colourspaces_cycle"
              (__RGB_colourspaces_cycle self));
   ("reference_colourspaces_cycle",
    λ self, option_object "reference_colourspaces_cycle"
              (__reference_colourspaces_cycle self))].

(** The properties of the class: each returns the private attribute of
    its name. *)
Definition properties : list string :=
  ["image_path"; "image"; "input_colourspace"; "input_oecf"; "input_linear";
   "input_resample"; "reference_colourspace"; "correlate_colourspace";
   "settings"; "layout"; "actions"; "console_view"; "gamut_view";
   "image_view"; "diagram_view"].

(** The methods the class defines, under the names [getattr] finds them:
    a name with two leading underscores is stored with the class name in
    front. *)
Definition methods : list string :=
  ["__init__"; "on_key_press"; "_Analysis__create_layout_presets";
   "_Analysis__create_image"; "_Analysis__create_actions";
   "_Analysis__create_views"; "_Analysis__layout_views";
   "cycle_correlate_colourspace_action";
   "cycle_reference_colourspace_action"].

Definition assoc {A} (name : string) (l : list (string * A)) : option A :=
  snd <$> find (λ x, bool_decide (x.1 = name)) l.

(** [name] without the prefix [prefix], if it starts with it. *)
Fixpoint strip_prefix (prefix name : string) : option string :=
  match prefix, name with
  | EmptyString, _ => Some name
  | String c p, String c' n =>
      if decide (c = c') then strip_prefix p n else None
  | String _ _, EmptyString => None
  end.

(** The private attribute a name denotes: a property returns the private
    attribute of its name, and a private attribute is stored with the
    class name in front. *)
Definition attribute_of (name : string) : option string :=
  if bool_decide (name ∈ properties) then Some name
  else strip_prefix "_Analysis__" name.

(** [getattr(self, name)] on a constructed instance: a property or a
    private attribute, a method, or what the base classes provide. *)
Definition getattr (name : string) (self : Analysis sample) : exn + object :=
  match attribute_of name ≫= λ n, assoc n private_attributes with
  | Some attribute => inr (attribute self)
  | None =>
      if bool_decide (name ∈ methods) || SceneCanvas_attribute E name
      then inr (AOther name)
      else inl (AttributeError
                  ("'Analysis' object has no attribute '" +:+ name +:+ "'"))
  end.

(** [hasattr(self, name)] *)
Definition hasattr (name : string) : bool :=
  bool_decide (is_Some (attribute_of name ≫= λ n, assoc n private_attributes))
  || bool_decide (name ∈ methods) || SceneCanvas_attribute E name.

(** *** Layout *)

(** [self.__grid.add_widget(w, row=, col=, row_span=, col_span=)]: the
    grid receives the call; handed anything but a view, it may raise. *)
Definition add_widget (w : object) (p : ViewPreset) : Method unit :=
  self ← get;
  match __grid self with
  | Some g =>
      modify (assign_grid (Some (g ++ [
        {| widget := w; widget_row := row p; widget_col := column p;
           widget_row_span := row_span p;
           widget_col_span := column_span p |}])));;
      match w with
      | AView _ => mret tt
      | _ => from_option raise (mret tt) (add_widget_other E w)
      end
  | None => raise (AttributeError
                     "'NoneType' object has no attribute 'add_widget'")
  end.

(** [self.__layout_presets.get(self.__layout)] *)
Definition get_layout (self : Analysis sample) : option LayoutPreset :=
  text (__layout self) ≫= λ name, __layout_presets self !! name.

Definition place (p : ViewPreset) : Method unit :=
  self ← get;
  w ← lift (getattr (view p) self);
  add_widget w p.

Definition __layout_views : Method unit :=
  modify (assign_grid (Some []));;
  self ← get;
  match get_layout self with
  | Some l => for_each (values (views l)) place
  | None => raise (AttributeError "'NoneType' object has no attribute 'views'")
  end.

Definition excluded : list string := ["aces"; "adobe1998"; "prophoto"].

(** The candidates of the correlate cycle. *)
Definition RGB_candidates : list string :=
  filter (λ c, c ∉ excluded) (sorted (mapping_keys (RGB_COLOURSPACES E))).

(** The keyword arguments of the call of [SceneCanvas.__init__]:
    [settings['canvas']] is evaluated whatever [settings] is. *)
Definition SceneCanvas_arguments_of (image_path' : value)
    (settings' : option Settings) : exn + SceneCanvas_arguments :=
  match settings' with
  | Some s =>
      inr {| scene_title := "Colour Analysis - " +:+ str image_path';
             scene_size := canvas_size (settings_canvas s);
             scene_bgcolor := canvas_background_colour (settings_canvas s) |}
  | None => inl (TypeError "'NoneType' object is not subscriptable")
  end.

(** The constructor.  The base class is initialised first and the canvas
    is shown last. *)
Definition __init__ (image_path' input_colourspace' input_oecf' input_linear'
    input_resample' reference_colourspace' correlate_colourspace' : value)
    (settings' : option Settings) (layout' : value) : Method unit :=
  arguments ← lift (SceneCanvas_arguments_of image_path' settings');
  modify (assign_scene_canvas (Some arguments));;
  modify (assign_image_path VNone);;
  image_path_setter image_path';;
  modify (assign_image None);;
  image_setter (Some (np_random_random E));;
  modify (assign_input_colourspace VNone);;
  input_colourspace_setter input_colourspace';;
  modify (assign_input_oecf VNone);;
  input_oecf_setter input_oecf';;
  modify (assign_input_linear VNone);;
  input_linear_setter input_linear';;
  modify (assign_input_resample VNone);;
  input_resample_setter input_resample';;
  modify (assign_reference_colourspace VNone);;
  reference_colourspace_setter reference_colourspace';;
  modify (assign_correlate_colourspace VNone);;
  correlate_colourspace_setter correlate_colourspace';;
  loaded ← lift (match settings' with
                 | Some s => inr s
                 | None => json_load_SETTINGS_FILE E
                 end);
  modify (assign_settings loaded);;
  modify (assign_layout VNone);;
  layout_setter layout';;
  modify (assign_layout_presets ∅);;
  modify (assign_actions ∅);;
  modify (assign_console_view None);;
  modify (assign_gamut_view None);;
  modify (assign_image_view None);;
  modify (assign_diagram_view None);;
  modify (assign_views None);;
  modify (assign_grid None);;
  modify (assign_RGB_colourspaces_cycle (Some (new_cycle RGB_candidates)));;
  self ← get;
  let reference_colourspaces_deque := iter (REFERENCE_COLOURSPACES E) in
  i ← lift (index (REFERENCE_COLOURSPACES E) (__reference_colourspace self));
  modify (assign_reference_colourspaces_cycle (Some (new_cycle
    (rotate (- Z.of_nat i - 1) reference_colourspaces_deque))));;
  __create_layout_presets;;
  __create_actions;;
  __create_image;;
  __create_views;;
  __layout_views;;
  modify (assign_shown true).

(** An instance before its constructor has run. *)
Definition blank (settings' : Settings) : Analysis sample :=
  Build_Analysis VNone None VNone VNone VNone VNone VNone VNone settings'
    VNone ∅ ∅ None None None None None None None None [] None false.

(** *** Observations *)

(** The [correlate_colourspace] property after [n] calls of
    [cycle_correlate_colourspace_action]. *)
Definition correlate_after (n : nat) (self : Analysis sample) : value :=
  correlate_colourspace (snd (times n cycle_correlate_colourspace_action self)).

(** The [reference_colourspace] property after [n] calls of
    [cycle_reference_colourspace_action]. *)
Definition reference_after (n : nat) (self : Analysis sample) : value :=
  reference_colourspace (snd (times n cycle_reference_colourspace_action self)).
End Analysis.

(** ** Predicates used in the statements *)

(** A cycle over [l] that has consumed [j] elements of its current pass. *)
Definition at_position {A} (l : list A) (j : nat) (c : cycle A) : Prop :=
  j ≤ length l ∧ cycle_rest c = drop j l ∧
  cycle_saved c = (if cycle_first_pass c then take j l else l).

(** The canvas can run [cycle_correlate_colourspace_action]: its correlate
    cycle runs over [l], [k] calls into it, and the two views the action
    assigns to exist. *)
Definition correlate_ready {sample} (l : list string) (k : nat)
    (self : Analysis sample) : Prop :=
  ∃ c j, __RGB_colourspaces_cycle self = Some c ∧ at_position l j c ∧
         j mod length l = k mod length l ∧
         is_Some (__gamut_view self) ∧ is_Some (__image_view self).

(** The same for [cycle_reference_colourspace_action]. *)
Definition reference_ready {sample} (l : list string) (k : nat)
    (self : Analysis sample) : Prop :=
  ∃ c j, __reference_colourspaces_cycle self = Some c ∧ at_position l j c ∧
         j mod length l = k mod length l ∧ is_Some (__gamut_view self).

(** The view widget an identifier of a layout names: each of the four
    view properties names the instance of its class. *)
Definition names_widget (identifier : string) (w : object) : Prop :=
  identifier = "console_view" ∧ w = AView ConsoleView ∨
  identifier = "gamut_view" ∧ w = AView GamutView ∨
  identifier = "image_view" ∧ w = AView ImageView ∨
  identifier = "diagram_view" ∧ w = AView DiagramView.

(** A view preset and the placement made for it. *)
Definition placed (p : ViewPreset) (q : placement) : Prop :=
  names_widget (view p) (widget q) ∧
  widget_row q = row p ∧ widget_col q = column p ∧
  widget_row_span q = row_span p ∧ widget_col_span q = column_span p.

(** The placement of a widget by a view preset. *)
Definition placement_of (w : object) (p : ViewPreset) : placement :=
  {| widget := w; widget_row := row p; widget_col := column p;
     widget_row_span := row_span p; widget_col_span := column_span p |}.

(** The four views of the canvas have been built. *)
Definition views_built {sample} (self : Analysis sample) : Prop :=
  is_Some (console_view self) ∧ is_Some (gamut_view self) ∧
  is_Some (image_view self) ∧ is_Some (diagram_view self).


(** The calls of [method] on the given receivers. *)
Definition calls_of (method : string) (rs : list receiver) : list call :=
  (λ r, (r, method)) <$> rs.

(** What the handler [method] of the view of class [k] does on the view
    the canvas holds, if there is such a view and such a handler. *)
Definition view_outcome {sample} (E : Env sample) (method : string)
    (self : Analysis sample) (k : view_kind)
  : option ((exn + unit) * View sample) :=
  v ← view_attribute k self; h ← view_method E k method; Some (h v).

(** The views a dispatch calls: those of the tuple that have a handler,
    up to and including the first whose handler raises. *)
Fixpoint called {A} (outcome : view_kind → option ((exn + unit) * A))
    (vs : list view_kind) : list view_kind :=
  match vs with
  | [] => []
  | k :: r =>
      match outcome k with
      | None => called outcome r
      | Some (inl _, _) => [k]
      | Some (inr _, _) => k :: called outcome r
      end
  end.

(** The result of a dispatch over the views: the exception of the first
    handler that raises, if one does. *)
Fixpoint result_of {A} (outcome : view_kind → option ((exn + unit) * A))
    (vs : list view_kind) : exn + unit :=
  match vs with
  | [] => inr tt
  | k :: r =>
      match outcome k with
      | Some (inl e, _) => inl e
      | _ => result_of outcome r
      end
  end.

(** ** A concrete environment *)

Module Example.

Definition names : list string :=
  ["sRGB"; "ACEScg"; "aces"; "Rec. 709"; "ACES2065-1"].

Definition identity_colourspace : RGB_Colourspace Z :=
  {| inverse_transfer_function := λ x, x |}.

Definition rgb_colourspaces : mapping (RGB_Colourspace Z) :=
  Mapping names
    (λ k, if bool_decide (k ∈ names) then Some identity_colourspace else None).

Definition reference_colourspaces : list string :=
  ["CIE XYZ"; "CIE xyY"; "CIE Lab"; "CIE Luv"; "CIE UCS"; "CIE UVW"; "IPT"].

(** A decoded image of 3 rows and 5 columns with 4 channels (RGBA). *)
Definition pixel (r c : Z) : list Z := [r; c; (r + c)%Z; 255%Z].

Definition rgba_image : ndarray Z :=
  map (λ r, map (pixel r) [0; 1; 2; 3; 4]%Z) [0; 1; 2]%Z.

(** A decoded greyscale image: one channel. *)
Definition grey_image : ndarray Z :=
  [[[7%Z]; [8%Z]]; [[9%Z]; [10%Z]]].

(** A handler that marks the view it ran on. *)
Definition mark (colour : string) (v : View Z) : (exn + unit) * View Z :=
  (inr tt,
   Build_View (view_class v) (view_image v) (view_oecf v)
     (view_input_colourspace v) (view_reference_colourspace v)
     (view_correlate_colourspace v) (view_bgcolor v) colour).

(** The gamut and diagram views have a [toggle_axis_action] method.  The
    three views with an image have a [fit_image_action] method; the one
    of the gamut view raises. *)
Definition methods_of (k : view_kind) (method : string)
  : option (View Z → (exn + unit) * View Z) :=
  if decide (method = "toggle_axis_action") then
    match k with
    | GamutView | DiagramView => Some (λ v, (inr tt, v))
    | _ => None
    end
  else if decide (method = "fit_image_action") then
    match k with
    | GamutView => Some (λ v, (inl (ValueError "no image to fit"), v))
    | ImageView | DiagramView => Some (mark "fitted")
    | ConsoleView => None
    end
  else if decide (method = "clear_action") then
    match k with
    | ConsoleView => Some (mark "cleared")
    | _ => None
    end
  else None.

Definition chord_setting : sequence_setting :=
  {| setting_modifiers := Some ["control"]; setting_key := Some "g" |}.

Definition toggle_axis : action_setting :=
  {| setting_name := Some "toggle_axis";
     setting_description := Some "Toggle the axis.";
     setting_sequence := Some chord_setting |}.

Definition cycle_correlate : action_setting :=
  {| setting_name := Some "cycle_correlate_colourspace";
     setting_description := Some "Cycle the correlate colourspace.";
     setting_sequence :=
       Some {| setting_modifiers := None; setting_key := Some "n" |} |}.

Definition unbound : action_setting :=
  {| setting_name := Some "toggle_axis";
     setting_description := None;
     setting_sequence := None |}.


Definition fit_image : action_setting :=
  {| setting_name := Some "fit_image";
     setting_description := Some "Fit the image.";
     setting_sequence := Some chord_setting |}.

Definition clear : action_setting :=
  {| setting_name := Some "clear";
     setting_description := Some "Clear the console.";
     setting_sequence := Some chord_setting |}.

Definition cycle_correlate_g : action_setting :=
  {| setting_name := Some "cycle_correlate_colourspace";
     setting_description := Some "Cycle the correlate colourspace.";
     setting_sequence := Some chord_setting |}.

Definition view_at (name : string) (r c rs cs : Z) : view_setting :=
  {| setting_view_name := name; setting_view_description := name;
     setting_view := name; setting_row := r; setting_column := c;
     setting_row_span := rs; setting_column_span := cs |}.

Definition layout_1 : layout_setting :=
  {| setting_layout_name := "layout_1";
     setting_layout_description := "Gamut and image side by side.";
     setting_views :=
       Dict [("gamut_view", view_at "gamut_view" 0 0 2 1);
             ("image_view", view_at "image_view" 0 1 1 1);
             ("console_view", view_at "console_view" 1 1 1 1)] |}.

(** A layout one of whose views is no attribute of the canvas. *)
Definition layout_2 : layout_setting :=
  {| setting_layout_name := "layout_2";
     setting_layout_description := "Gamut and histogram.";
     setting_views :=
       Dict [("gamut_view", view_at "gamut_view" 0 0 1 1);
             ("histogram_view", view_at "histogram_view" 0 1 1 1);
             ("image_view", view_at "image_view" 1 0 1 1)] |}.

Definition canvas : canvas_setting :=
  {| canvas_size := (1280, 720)%Z; canvas_background_colour := "black";
     views_background_colour := "grey"; views_border_colour := "white" |}.

Definition settings_with (acts : dict action_setting) : Settings :=
  {| settings_canvas := canvas; settings_layouts := [layout_1; layout_2];
     settings_actions := Some acts |}.

Definition one_action : Settings :=
  settings_with {["toggle_axis" := toggle_axis]}.

Definition three_actions : Settings :=
  settings_with
    (Dict [("toggle_axis", toggle_axis);
           ("cycle_correlate_colourspace", cycle_correlate);
           ("unbound", unbound)]).

Definition env : Env Z :=
  {| RGB_COLOURSPACES := rgb_colourspaces;
     REFERENCE_COLOURSPACES := PyTuple reference_colourspaces;
     os_path_exists := λ p, bool_decide (p ∈ ["rgba.exr"; "grey.exr"]);
     read_image := λ p, if decide (p = "grey.exr") then grey_image
                        else rgba_image;
     np_random_random := [];
     json_load_SETTINGS_FILE := inr one_action;
     view_method := methods_of;
     SceneCanvas_attribute :=
       λ name, bool_decide (name ∈ ["central_widget"; "show"; "title"]);
     add_widget_other :=
       λ w, match w with
            | AOther _ =>
                Some (AttributeError "object has no attribute 'parent'")
            | _ => None
            end |}.

(** [Analysis(path, input_resample=resample',
    correlate_colourspace=correlate', settings=s, layout=layout')] with
    the defaults of the constructor for the other arguments. *)
Definition construct_with (path : string) (resample' : value)
    (correlate' layout' : string) (s : Settings)
  : (exn + unit) * Analysis Z :=
  __init__ env (VStr path) (VStr "Rec. 709") (VStr "Rec. 709") (VBool true)
    resample' (VStr "CIE xyY") (VStr correlate') (Some s) (VStr layout')
    (blank s).

Definition construct (path : string) (resample' : value) (s : Settings)
  : (exn + unit) * Analysis Z :=
  construct_with path resample' "ACEScg" "layout_1" s.

Definition canvas_1 : Analysis Z :=
  snd (construct "rgba.exr" (VInt 1) one_action).

Definition canvas_3 : Analysis Z :=
  snd (construct "rgba.exr" (VInt 2) three_actions).

(** A canvas whose correlate colour space is one the cycle leaves out. *)
Definition canvas_aces : Analysis Z :=
  snd (construct_with "rgba.exr" (VInt 1) "aces" "layout_1" one_action).

(** A canvas on the greyscale image. *)
Definition canvas_grey : Analysis Z :=
  snd (construct "grey.exr" (VInt 1) one_action).


Definition canvas_fit : Analysis Z :=
  snd (construct "rgba.exr" (VInt 1)
         (settings_with {["fit_image" := fit_image]})).

Definition canvas_clear : Analysis Z :=
  snd (construct "rgba.exr" (VInt 1) (settings_with {["clear" := clear]})).

Definition canvas_cycle : Analysis Z :=
  snd (construct "rgba.exr" (VInt 1)
         (settings_with {["cycle" := cycle_correlate_g]})).

(** The preset that [layout_1] becomes. *)
Definition preset_1 : LayoutPreset :=
  {| layout_name := "layout_1";
     layout_description := "Gamut and image side by side.";
     views := view_preset_of <$> setting_views layout_1 |}.

Definition control_g : KeyEvent :=
  {| event_key_name := "G"; event_modifier_names := ["Control"] |}.



End Example.

(** ** Further predicates *)

(** The order [sorted] puts strings in. *)
Definition string_le (s1 s2 : string) : Prop := String.leb s1 s2 = true.

(** [None], or a string that passes the test of the field. *)
Definition None_or_name (test : string → bool) (v : value) : bool :=
  match v with
  | VNone => true
  | VStr s | VUnicode s => test s
  | _ => false
  end.

(** [None] or a [bool]. *)
Definition None_or_bool (v : value) : bool :=
  match v with VNone | VBool _ => true | _ => false end.

(** [s in RGB_COLOURSPACES] *)
Definition in_RGB_COLOURSPACES {sample} (E : Env sample) (s : string) : bool :=
  bool_decide (is_Some (getitem (RGB_COLOURSPACES E) s)).

(** [s in REFERENCE_COLOURSPACES] *)
Definition in_REFERENCE_COLOURSPACES {sample} (E : Env sample) (s : string)
  : bool :=
  bool_decide (s ∈ iter (REFERENCE_COLOURSPACES E)).

(** A setter that accepts the values [accepts] holds of and assigns with
    [assign]: it either makes the one assignment or raises with the
    object as it was. *)
Definition validates {sample} (setter : value → M sample unit)
    (accepts : value → bool)
    (assign : value → Analysis sample → Analysis sample) : Prop :=
  ∀ v self,
    if accepts v then setter v self = (inr tt, assign v self)
    else ∃ e, setter v self = (inl e, self).

(** The preset a layout of the settings becomes. *)
Definition preset_of (l : layout_setting) : LayoutPreset :=
  {| layout_name := setting_layout_name l;
     layout_description := setting_layout_description l;
     views := view_preset_of <$> setting_views l |}.

(** The table of presets built from the layouts of the settings, in
    order. *)
Definition presets_of (layouts : list layout_setting) : dict LayoutPreset :=
  foldl (λ acc l, <[setting_layout_name l := preset_of l]> acc) ∅ layouts.

(** What the arguments of a constructor call that returns satisfy. *)
Definition constructible {sample} (E : Env sample)
    (p ics oecf lin res ref cor : value) (settings' : option Settings)
    (lay : value) : Prop :=
  (∃ path, text p = Some path ∧ os_path_exists E path = true) ∧
  None_or_name (in_RGB_COLOURSPACES E) ics = true ∧
  None_or_name (in_RGB_COLOURSPACES E) oecf = true ∧
  None_or_name (in_RGB_COLOURSPACES E) cor = true ∧
  None_or_bool lin = true ∧
  (truthy lin = true ∨ oecf ≠ VNone) ∧
  (res = VNone ∨ ∃ z, res = VInt z ∧ z ≠ 0%Z) ∧
  (∃ l r, REFERENCE_COLOURSPACES E = PyTuple l ∧ text ref = Some r ∧ r ∈ l) ∧
  ∃ s, settings' = Some s ∧
       is_Some (settings_actions s) ∧
       ∃ name lp, text lay = Some name ∧
                  presets_of (settings_layouts s) !! name = Some lp ∧
                  Forall (λ q, hasattr E (view q) = true) (values (views lp)).

(** What a call of [cycle_correlate_colourspace_action] leaves alone,
    whether it returns or raises. *)
Definition correlate_cycle_frame {sample} (self self' : Analysis sample)
  : Prop :=
  image self' = image self ∧
  reference_colourspace self' = reference_colourspace self ∧
  input_colourspace self' = input_colourspace self ∧
  input_oecf self' = input_oecf self ∧
  input_linear self' = input_linear self ∧
  input_resample self' = input_resample self ∧
  actions self' = actions self ∧
  diagram_view self' = diagram_view self ∧
  console_view self' = console_view self ∧
  __reference_colourspaces_cycle self' = __reference_colourspaces_cycle self.

(** The same for [cycle_reference_colourspace_action]. *)
Definition reference_cycle_frame {sample} (self self' : Analysis sample)
  : Prop :=
  image self' = image self ∧
  correlate_colourspace self' = correlate_colourspace self ∧
  input_colourspace self' = input_colourspace self ∧
  input_oecf self' = input_oecf self ∧
  input_linear self' = input_linear self ∧
  input_resample self' = input_resample self ∧
  actions self' = actions self ∧
  image_view self' = image_view self ∧
  diagram_view self' = diagram_view self ∧
  console_view self' = console_view self ∧
  __RGB_colourspaces_cycle self' = __RGB_colourspaces_cycle self.

(** What no key press changes: the image, the input fields, the settings,
    the layout and its presets, the action registry, the grid, and the
    diagram view, which is not in the [__views] tuple. *)
Definition key_press_frame {sample} (self self' : Analysis sample) : Prop :=
  image self' = image self ∧
  image_path self' = image_path self ∧
  input_colourspace self' = input_colourspace self ∧
  input_oecf self' = input_oecf self ∧
  input_linear self' = input_linear self ∧
  input_resample self' = input_resample self ∧
  settings self' = settings self ∧
  layout self' = layout self ∧
  __layout_presets self' = __layout_presets self ∧
  actions self' = actions self ∧
  __grid self' = __grid self ∧
  __views self' = __views self ∧
  diagram_view self' = diagram_view self.

(** [self'] is [self] but for its four views and the record of calls. *)
Definition differ_in_views {sample} (self self' : Analysis sample) : Prop :=
  ∃ c g i d t,
    self' = assign_console_view c (assign_gamut_view g (assign_image_view i
              (assign_diagram_view d (assign_trace t self)))).

(** ** Further concrete objects *)

Module Example2.
Import Example.

(** A registry that holds nothing but names the correlate cycle leaves
    out. *)
Definition aliases : list string := ["aces"; "prophoto"].

Definition alias_colourspaces : mapping (RGB_Colourspace Z) :=
  Mapping aliases
    (λ k, if bool_decide (k ∈ aliases) then Some identity_colourspace
          else None).

Definition alias_env : Env Z :=
  {| RGB_COLOURSPACES := alias_colourspaces;
     REFERENCE_COLOURSPACES := PyTuple reference_colourspaces;
     os_path_exists := os_path_exists env;
     read_image := read_image env;
     np_random_random := [];
     json_load_SETTINGS_FILE := inr one_action;
     view_method := methods_of;
     SceneCanvas_attribute := SceneCanvas_attribute env;
     add_widget_other := add_widget_other env |}.

Definition alias_canvas : Analysis Z :=
  snd (__init__ alias_env (VStr "rgba.exr") (VStr "aces") (VStr "aces")
         (VBool true) (VInt 1) (VStr "CIE xyY") (VStr "prophoto")
         (Some one_action) (VStr "layout_1") (blank one_action)).


Definition control_shift_g : KeyEvent :=
  {| event_key_name := "G"; event_modifier_names := ["Control"; "Shift"] |}.

Definition shift_control_g : KeyEvent :=
  {| event_key_name := "G"; event_modifier_names := ["Shift"; "Control"] |}.

Definition plain_z : KeyEvent :=
  {| event_key_name := "Z"; event_modifier_names := [] |}.

End Example2.

(** * Facts *)

(** Running a method on an object: unfold the monad and compute. *)
Ltac run :=
  unfold lift, py_assert;
  unfold mbind, mret, M_bind, M_ret, get, modify, raise;
  cbn -[next resample].

Ltac run_in H :=
  unfold lift, py_assert in H;
  unfold mbind, mret, M_bind, M_ret, get, modify, raise in H;
  cbn -[next resample] in H.

(** A setter that returns has made its assignment. *)
Ltac setter_inr :=
  let H := fresh in
  intros H; run; run_in H;
  repeat (case_match; run_in H; try discriminate);
  congruence.

Section DictFacts.
Context {V : Type}.
Implicit Types (d : dict V) (l : list (string * V)) (k : string) (v : V).

Lemma last_assigned_app k l1 l2 :
  last_assigned k (l1 ++ l2)
  = match last_assigned k l2 with
    | Some w => Some w
    | None => last_assigned k l1
    end.
Proof.
  induction l1 as [|[k' v'] l1 IH]; cbn.
  - by destruct (last_assigned k l2).
  - rewrite IH. by destruct (last_assigned k l2).
Qed.

Lemma last_assigned_None k l : last_assigned k l = None ↔ k ∉ l.*1.
Proof.
  induction l as [|[k' v'] l IH]; cbn.
  - split; [set_solver|done].
  - rewrite not_elem_of_cons, <- IH.
    destruct (last_assigned k l); [by split; [|intros []]|].
    case_decide; naive_solver.
Qed.

Lemma last_assigned_elem_of k v l : last_assigned k l = Some v → (k, v) ∈ l.
Proof.
  induction l as [|[k' v'] l IH]; cbn; [done|].
  destruct (last_assigned k l) as [w|].
  - intros [= ->]. right. by apply IH.
  - case_decide; [|done]. intros [= ->]. subst. by left.
Qed.

Lemma last_assigned_NoDup k v l :
  NoDup l.*1 → (k, v) ∈ l → last_assigned k l = Some v.
Proof.
  induction l as [|[k' v'] l IH]; cbn; [by intros _ ?%elem_of_nil|].
  intros [Hk' Hnd]%NoDup_cons [[= -> ->]|Hin]%elem_of_cons.
  - apply last_assigned_None in Hk' as ->. by rewrite decide_True.
  - by rewrite (IH Hnd Hin).
Qed.

Lemma dict_lookup_empty k : (∅ : dict V) !! k = None.
Proof. done. Qed.

Lemma dict_lookup_insert_eq d k v : <[k := v]> d !! k = Some v.
Proof.
  unfold lookup, dict_lookup, insert, dict_insert. cbn.
  rewrite last_assigned_app. cbn. by rewrite decide_True.
Qed.

Lemma dict_lookup_insert_ne d k k' v : k ≠ k' → <[k := v]> d !! k' = d !! k'.
Proof.
  intros Hne. unfold lookup, dict_lookup, insert, dict_insert. cbn.
  rewrite last_assigned_app. cbn. by rewrite decide_False.
Qed.

Lemma dict_lookup_singleton k v : ({[k := v]} : dict V) !! k = Some v.
Proof. unfold lookup, dict_lookup. cbn. by rewrite decide_True. Qed.

Lemma elem_of_first_occurrences (x : string) ks :
  x ∈ first_occurrences ks ↔ x ∈ ks.
Proof.
  induction ks as [|y ks IH]; cbn; [done|].
  rewrite !elem_of_cons, list_elem_of_filter, IH.
  destruct (decide (x = y)); naive_solver.
Qed.

Lemma NoDup_first_occurrences ks : NoDup (first_occurrences ks).
Proof.
  induction ks as [|y ks IH]; cbn; [constructor|].
  apply NoDup_cons. split.
  - rewrite list_elem_of_filter. naive_solver.
  - by apply NoDup_filter.
Qed.

Lemma filter_all {A} (P : A → Prop) `{!∀ x, Decision (P x)} (xs : list A) :
  Forall P xs → filter P xs = xs.
Proof.
  induction 1 as [|x xs Hx _ IH]; [done|].
  by rewrite filter_cons_True, IH.
Qed.

Lemma first_occurrences_NoDup ks : NoDup ks → first_occurrences ks = ks.
Proof.
  induction ks as [|y ks IH]; cbn; [done|].
  intros [Hy Hnd]%NoDup_cons. rewrite IH by done. f_equal.
  apply filter_all. apply Forall_forall. by intros x Hx ->.
Qed.

Lemma omap_lookup_keys l0 ks :
  (∀ k, k ∈ ks → is_Some (last_assigned k l0)) →
  (omap (λ k, pair k <$> last_assigned k l0) ks).*1 = ks.
Proof.
  induction ks as [|k ks IH]; intros Hks; [done|]. cbn.
  destruct (Hks k) as [v ->]; [by left|]. cbn. f_equal.
  apply IH. intros k' Hk'. apply Hks. by right.
Qed.

(** The keys of the items are the keys in their order. *)
Lemma items_keys d : (items d).*1 = key_order d.
Proof.
  apply omap_lookup_keys. intros k Hk.
  unfold key_order in Hk. rewrite elem_of_first_occurrences in Hk.
  destruct (last_assigned k (assignments d)) eqn:Hl; [done|].
  apply last_assigned_None in Hl. by destruct Hl.
Qed.

Lemma NoDup_items d : NoDup (items d).*1.
Proof. rewrite items_keys. apply NoDup_first_occurrences. Qed.

(** The items are the keys with their values. *)
Lemma elem_of_items d k v : (k, v) ∈ items d ↔ d !! k = Some v.
Proof.
  unfold items. rewrite list_elem_of_omap. split.
  - intros (k' & _ & Hv). destruct (d !! k') eqn:Hk'; [|done].
    cbn in Hv. by simplify_eq.
  - intros Hv. exists k. rewrite Hv. split; [|done].
    apply elem_of_first_occurrences.
    apply last_assigned_elem_of in Hv.
    apply list_elem_of_fmap. by exists (k, v).
Qed.

Lemma elem_of_values d v : v ∈ values d ↔ ∃ k, d !! k = Some v.
Proof.
  unfold values. rewrite list_elem_of_fmap. split.
  - intros ([k v'] & -> & Hin). exists k. by apply elem_of_items.
  - intros [k Hk]. exists (k, v). split; [done|]. by apply elem_of_items.
Qed.

Lemma omap_lookup_items l0 l :
  NoDup l.*1 → (∀ k v, (k, v) ∈ l → last_assigned k l0 = Some v) →
  omap (λ k, pair k <$> last_assigned k l0) l.*1 = l.
Proof.
  induction l as [|[k v] l IH]; intros Hnd Hl; [done|]. cbn.
  rewrite (Hl k v) by (by left). cbn. f_equal.
  apply IH; [by apply NoDup_cons in Hnd as [_ ?]|].
  intros k' v' Hin. apply Hl. by right.
Qed.

(** A list of items with distinct keys is the dictionary it builds. *)
Lemma items_NoDup l : NoDup l.*1 → items (Dict l) = l.
Proof.
  intros Hnd. unfold items, key_order. cbn.
  rewrite first_occurrences_NoDup by done.
  apply omap_lookup_items; [done|].
  intros k v. by apply last_assigned_NoDup.
Qed.


End DictFacts.

Lemma foldl_insert_dict {V W} (f : V → W) (l : list (string * V))
    (acc : dict W) :
  foldl (λ acc x, <[x.1 := f x.2]> acc) acc l
  = Dict (assignments acc ++ (prod_map id f <$> l)).
Proof.
  revert acc. induction l as [|[k v] l IH]; intros acc; cbn.
  - rewrite app_nil_r. by destruct acc.
  - rewrite IH. unfold insert, dict_insert. cbn. by rewrite <- app_assoc.
Qed.

(** Assigning the converted items of a dictionary one by one to an empty
    one. *)
Lemma foldl_insert_fmap {V W} (f : V → W) (d : dict V) :
  foldl (λ acc x, <[x.1 := f x.2]> acc) ∅ (items d) = f <$> d.
Proof. by rewrite foldl_insert_dict. Qed.

Lemma items_fmap {V W} (f : V → W) (d : dict V) :
  items (f <$> d) = prod_map id f <$> items d.
Proof.
  change (f <$> d) with (Dict (prod_map id f <$> items d)).
  apply items_NoDup. rewrite <- list_fmap_compose.
  rewrite (list_fmap_ext _ fst (items d)) by (by intros ? []).
  apply NoDup_items.
Qed.

Lemma dict_lookup_fmap {V W} (f : V → W) (d : dict V) (k : string) : (f <$> d) !! k = f <$> d !! k.
Proof.
  assert (Hnd : NoDup (prod_map id f <$> items d).*1).
  { rewrite <- list_fmap_compose.
    rewrite (list_fmap_ext _ fst (items d)) by (by intros ? []).
    apply NoDup_items. }
  change ((f <$> d) !! k)
    with (last_assigned k (prod_map id f <$> items d)).
  destruct (d !! k) as [v|] eqn:Hk; cbn.
  - apply (last_assigned_NoDup _ _ _ Hnd).
    apply list_elem_of_fmap. exists (k, v). split; [done|].
    by apply elem_of_items.
  - apply last_assigned_None. intros Hin.
    apply list_elem_of_fmap in Hin as ([k' w] & -> & Hin).
    apply list_elem_of_fmap in Hin as ([k'' v] & [= -> ->] & Hin).
    apply elem_of_items in Hin. cbn in Hk. congruence.
Qed.

Section CycleFacts.
Context {A : Type}.
Implicit Types (l : list A) (c : cycle A).

Lemma new_cycle_at_position l : at_position l 0 (new_cycle l).
Proof. split; [lia|]. split; [by rewrite drop_0|done]. Qed.

Lemma next_at_position l j c x :
  at_position l j c → l !! (j mod length l) = Some x →
  ∃ c', next c = inr (x, c') ∧ at_position l (S (j mod length l)) c'.
Proof.
  intros (Hj & Hrest & Hsaved) Hx.
  assert (Hn : 0 < length l) by (apply lookup_lt_Some in Hx; lia).
  destruct (decide (j < length l)) as [Hlt|Hge].
  - rewrite Nat.mod_small in Hx |- * by done.
    unfold next. rewrite Hrest, (drop_S _ _ _ Hx).
    eexists; split; [reflexivity|].
    split; [lia|]. split; [done|]. simpl.
    destruct (cycle_first_pass c); [|done].
    by rewrite Hsaved, (take_S_r _ _ _ Hx).
  - assert (j = length l) as -> by lia.
    rewrite Nat.Div0.mod_same in Hx |- *.
    unfold next. rewrite Hrest, drop_all.
    assert (cycle_saved c = l) as ->.
    { rewrite Hsaved. destruct (cycle_first_pass c); [|done].
      by rewrite firstn_all. }
    destruct l as [|y r]; [done|]. simpl in Hx. injection Hx as ->.
    eexists; split; [reflexivity|].
    split; [simpl; lia|]. by split.
Qed.

Lemma succ_mod_mod j k n : j mod n = k mod n → S (j mod n) mod n = S k mod n.
Proof.
  intros ->. destruct n; [done|].
  change (S (k mod S n)) with (1 + k mod S n). change (S k) with (1 + k).
  by rewrite Nat.Div0.add_mod_idemp_r.
Qed.
End CycleFacts.

Section DequeFacts.
Context {A : Type}.
Implicit Types (l : list A).

Lemma rotate_left_iter l k :
  k ≤ length l → Nat.iter k rotate_left_1 l = drop k l ++ take k l.
Proof.
  induction k as [|k IH]; intros Hk.
  - simpl. by rewrite drop_0, app_nil_r.
  - simpl. rewrite IH by lia.
    destruct (lookup_lt_is_Some_2 l k) as [x Hx]; [lia|].
    rewrite (drop_S _ _ _ Hx), (take_S_r _ _ _ Hx). simpl.
    by rewrite <- app_assoc.
Qed.

Lemma rotate_past l (i : nat) :
  i < length l →
  rotate (- Z.of_nat i - 1) l = drop (S i) l ++ take (S i) l.
Proof.
  intros Hi. unfold rotate.
  destruct (0 <=? - Z.of_nat i - 1)%Z eqn:Hs; [lia|].
  replace (Z.to_nat (- (- Z.of_nat i - 1))) with (S i) by lia.
  apply rotate_left_iter. lia.
Qed.
End DequeFacts.

Section CorrelateCycle.
Context {sample : Type} (E : Env sample).
Implicit Types (self : Analysis sample).

Lemma cycle_correlate_step l k self :
  l ≠ [] → correlate_ready l k self →
  ∃ x self', l !! (k mod length l) = Some x ∧
    cycle_correlate_colourspace_action self = (inr true, self') ∧
    __correlate_colourspace self' = VStr x ∧
    correlate_ready l (S k) self'.
Proof.
  intros Hl (c & j & Hc & Hpos & Hjk & [g Hg] & [i Hi]).
  assert (Hn : 0 < length l) by (destruct l; simpl; [done|lia]).
  destruct (lookup_lt_is_Some_2 l (k mod length l)) as [x Hx].
  { by apply Nat.mod_upper_bound, Nat.neq_0_lt_0. }
  destruct (next_at_position l j c x Hpos) as (c' & Hnext & Hpos').
  { by rewrite Hjk. }
  exists x. destruct self; simpl in *. subst.
  unfold cycle_correlate_colourspace_action, next_of, setattr_view.
  run. rewrite Hnext. run.
  eexists; split; [done|]. split; [reflexivity|]. split; [done|].
  exists c', (S (j mod length l)); cbn.
  split; [done|]. split; [done|]. split; [by apply succ_mod_mod|].
  split; eauto.
Qed.

Lemma times_cycle_correlate l k m self :
  l ≠ [] → correlate_ready l k self →
  ∃ self', times m (cycle_correlate_colourspace_action) self = (inr tt, self') ∧
    correlate_ready l (k + m) self' ∧
    (0 < m → ∃ x, l !! ((k + m - 1) mod length l) = Some x ∧
                  __correlate_colourspace self' = VStr x).
Proof.
  intros Hl. revert k self. induction m as [|m IH]; intros k self Hr.
  - exists self. split; [done|]. split; [by rewrite Nat.add_0_r|lia].
  - destruct (cycle_correlate_step l k self Hl Hr) as (x & s1 & Hx & Hact & Hcor & Hr1).
    destruct (IH (S k) s1 Hr1) as (s2 & Htimes & Hr2 & Hval).
    exists s2. split.
    { cbn. unfold mbind, M_bind. rewrite Hact. exact Htimes. }
    split; [by replace (k + S m) with (S k + m) by lia|].
    intros _. destruct m as [|m].
    + cbn in Htimes. injection Htimes as <-.
      exists x. replace (k + 1 - 1) with k by lia. done.
    + destruct Hval as (y & Hy & Hcy); [lia|].
      exists y. by replace (k + S (S m) - 1) with (S k + S m - 1) by lia.
Qed.
End CorrelateCycle.

Section MonadFacts.
Context {sample : Type} (E : Env sample).
Implicit Types (self : Analysis sample).

Lemma bind_inr {A B} (m : M sample A) (f : A → M sample B) self r self' :
  (m ≫= f) self = (inr r, self') →
  ∃ x s1, m self = (inr x, s1) ∧ f x s1 = (inr r, self').
Proof.
  unfold mbind, M_bind. destruct (m self) as [[e|x] s1]; [done|]. eauto.
Qed.

Lemma modify_inr (g : Analysis sample → Analysis sample) self (x : unit) self' :
  modify g self = (inr x, self') → self' = g self.
Proof. unfold modify. congruence. Qed.

Lemma get_inr self x self' :
  get self = (inr x, self') → x = self ∧ self' = self.
Proof. unfold get. intros [= -> ->]. done. Qed.

Lemma ret_inr {A} (y : A) self x self' :
  (mret y : M sample A) self = (inr x, self') → x = y ∧ self' = self.
Proof. unfold mret, M_ret. by intros [= -> ->]. Qed.

Lemma lift_inr {A} (r : exn + A) self x self' :
  lift r self = (inr x, self') → r = inr x ∧ self' = self.
Proof. destruct r; unfold lift; run; intros [=]; subst; done. Qed.

Lemma for_each_modify {A} (l : list A) (g : A → Analysis sample → Analysis sample) self :
  for_each l (λ x, modify (g x)) self = (inr tt, foldl (λ s x, g x s) self l).
Proof.
  revert self. induction l as [|x l IH]; intros self; [done|].
  cbn. unfold mbind, M_bind. cbn. apply IH.
Qed.

Lemma for_each_ext {A} (l : list A) (f g : A → M sample unit) :
  (∀ x, f x = g x) → for_each l f = for_each l g.
Proof. intros Hfg. induction l as [|x l IH]; [done|]. cbn. by rewrite Hfg, IH. Qed.

Lemma foldl_assign_layout_presets {A}
    (h : A → dict LayoutPreset → dict LayoutPreset) l self :
  foldl (λ s x, assign_layout_presets (h x (__layout_presets s)) s) self l
  = assign_layout_presets
      (foldl (λ acc x, h x acc) (__layout_presets self) l) self.
Proof.
  revert self. induction l as [|x l IH]; intros self.
  - by destruct self.
  - cbn. rewrite IH. by destruct self.
Qed.

Lemma foldl_assign_actions {A} (h : A → dict Action → dict Action) l self :
  foldl (λ s x, assign_actions (h x (__actions s)) s) self l
  = assign_actions (foldl (λ acc x, h x acc) (__actions self) l) self.
Proof.
  revert self. induction l as [|x l IH]; intros self.
  - by destruct self.
  - cbn. rewrite IH. by destruct self.
Qed.

Lemma for_each_assign_layout_presets {A}
    (h : A → dict LayoutPreset → dict LayoutPreset) l self :
  for_each l
    (λ x, modify (λ s, assign_layout_presets (h x (__layout_presets s)) s))
    self
  = (inr tt, assign_layout_presets
               (foldl (λ acc x, h x acc) (__layout_presets self) l) self).
Proof.
  rewrite (for_each_modify l
             (λ x s, assign_layout_presets (h x (__layout_presets s)) s)).
  by rewrite foldl_assign_layout_presets.
Qed.

Lemma for_each_assign_actions {A} (h : A → dict Action → dict Action) l self :
  for_each l (λ x, modify (λ s, assign_actions (h x (__actions s)) s)) self
  = (inr tt, assign_actions (foldl (λ acc x, h x acc) (__actions self) l) self).
Proof.
  rewrite (for_each_modify l (λ x s, assign_actions (h x (__actions s)) s)).
  by rewrite foldl_assign_actions.
Qed.

Lemma create_layout_presets_run self :
  ∃ presets,
    __create_layout_presets self = (inr tt, assign_layout_presets presets self).
Proof.
  unfold __create_layout_presets. run. eexists.
  apply (for_each_assign_layout_presets
           (λ l acc, <[setting_layout_name l := _]> acc)).
Qed.

Lemma create_actions_run self d :
  settings_actions (__settings self) = Some d →
  __create_actions self = (inr tt, assign_actions (action_of <$> d) self).
Proof.
  intros Hd. unfold __create_actions. run.
  replace (settings_actions (__settings (assign_actions ∅ self)))
    with (Some d) by (by destruct self).
  rewrite (for_each_ext _ _
    (λ x, modify (λ s, assign_actions
                         (<[x.1 := action_of x.2]> (__actions s)) s)))
    by (by intros [name a]).
  rewrite (for_each_assign_actions (λ x acc, <[x.1 := action_of x.2]> acc)).
  replace (__actions (assign_actions ∅ self)) with (∅ : dict Action)
    by (by destruct self).
  rewrite (foldl_insert_fmap action_of). by destruct self.
Qed.

Lemma create_actions_inr self x self' :
  __create_actions self = (inr x, self') →
  ∃ d, settings_actions (__settings self) = Some d ∧
       self' = assign_actions (action_of <$> d) self.
Proof.
  destruct (settings_actions (__settings self)) as [d|] eqn:Hd.
  - rewrite (create_actions_run _ d Hd). intros [= <-]. eauto.
  - unfold __create_actions. run.
    replace (settings_actions (__settings (assign_actions ∅ self)))
      with (@None (dict action_setting)) by (by destruct self).
    done.
Qed.
End MonadFacts.

Section MethodFacts.
Context {sample : Type} (E : Env sample).
Implicit Types (self : Analysis sample).

Lemma image_path_setter_inr v self x self' :
  image_path_setter E v self = (inr x, self') → self' = assign_image_path v self.
Proof. unfold image_path_setter. setter_inr. Qed.

Lemma input_colourspace_setter_inr v self x self' :
  input_colourspace_setter E v self = (inr x, self') →
  self' = assign_input_colourspace v self.
Proof. unfold input_colourspace_setter. setter_inr. Qed.

Lemma input_oecf_setter_inr v self x self' :
  input_oecf_setter E v self = (inr x, self') → self' = assign_input_oecf v self.
Proof. unfold input_oecf_setter. setter_inr. Qed.

Lemma input_linear_setter_inr v self x self' :
  input_linear_setter v self = (inr x, self') → self' = assign_input_linear v self.
Proof. unfold input_linear_setter. setter_inr. Qed.

Lemma input_resample_setter_inr v self x self' :
  input_resample_setter v self = (inr x, self') →
  self' = assign_input_resample v self.
Proof. unfold input_resample_setter. setter_inr. Qed.

Lemma reference_colourspace_setter_inr v self x self' :
  reference_colourspace_setter E v self = (inr x, self') →
  self' = assign_reference_colourspace v self.
Proof. unfold reference_colourspace_setter. setter_inr. Qed.

Lemma correlate_colourspace_setter_inr v self x self' :
  correlate_colourspace_setter E v self = (inr x, self') →
  self' = assign_correlate_colourspace v self.
Proof. unfold correlate_colourspace_setter. setter_inr. Qed.

Lemma layout_setter_inr v self x self' :
  layout_setter v self = (inr x, self') → self' = assign_layout v self.
Proof. unfold layout_setter. setter_inr. Qed.

Lemma image_setter_inr v self x self' :
  image_setter v self = (inr x, self') → self' = assign_image v self.
Proof. unfold image_setter. setter_inr. Qed.

Lemma create_image_inr self x self' :
  __create_image E self = (inr x, self') →
  ∃ im, self' = assign_image (Some im) self.
Proof.
  unfold __create_image. intros H. run_in H.
  repeat (case_match; run_in H; try discriminate); simplify_eq; eauto.
Qed.

Lemma grid_assign_grid x self : __grid (assign_grid x self) = x.
Proof. by destruct self. Qed.

Lemma assign_grid_twice x y self :
  assign_grid x (assign_grid y self) = assign_grid x self.
Proof. by destruct self. Qed.

Lemma assign_grid_same self g : __grid self = Some g → assign_grid (Some g) self = self.
Proof. destruct self; cbn. by intros ->. Qed.

Lemma views_built_assign_grid x self :
  views_built self → views_built (assign_grid x self).
Proof. by destruct self. Qed.

(** [getattr] raises exactly when [hasattr] is false. *)
Lemma getattr_hasattr name self :
  if hasattr E name then ∃ w, getattr E name self = inr w
  else getattr E name self
       = inl (AttributeError
                ("'Analysis' object has no attribute '" +:+ name +:+ "'")).
Proof.
  unfold hasattr, getattr.
  destruct (attribute_of name ≫= _) as [attribute|]; cbn; [eauto|].
  destruct (_ || _); eauto.
Qed.

(** The four view properties give the views. *)
Lemma getattr_view name k self :
  names_widget name (AView k) →
  getattr E name self = inr (view_object k self).
Proof.
  intros [[-> [= ->]]|[[-> [= ->]]|[[-> [= ->]]|[-> [= ->]]]]]; reflexivity.
Qed.

Lemma names_widget_view name w : names_widget name w → ∃ k, w = AView k.
Proof. intros [[_ ->]|[[_ ->]|[[_ ->]|[_ ->]]]]; eauto. Qed.

Lemma view_object_built k self :
  views_built self → view_object k self = AView k.
Proof.
  intros ([? Hc] & [? Hg] & [? Hi] & [? Hd]). unfold view_object.
  unfold console_view, gamut_view, image_view, diagram_view in *.
  destruct k; cbn; by rewrite ?Hc, ?Hg, ?Hi, ?Hd.
Qed.

Lemma place_run p w self g :
  names_widget (view p) w → views_built self → __grid self = Some g →
  place E p self = (inr tt, assign_grid (Some (g ++ [placement_of w p])) self).
Proof.
  intros Hw Hbuilt Hg. destruct (names_widget_view _ _ Hw) as [k ->].
  unfold place, add_widget. run.
  rewrite (getattr_view _ k self Hw), (view_object_built k self Hbuilt). run.
  by rewrite Hg.
Qed.


(** Whatever it is handed, a placement only adds a call to the grid. *)
Lemma place_grid p self g :
  __grid self = Some g →
  (∃ e, place E p self = (inl e, self)) ∨
  ∃ r w, place E p self
         = (r, assign_grid (Some (g ++ [placement_of w p])) self) ∧
         getattr E (view p) self = inr w.
Proof.
  intros Hg. unfold place, add_widget. run.
  destruct (getattr E (view p) self) as [e|w]; run; [eauto|].
  rewrite Hg. run. right.
  destruct w; run; try (by eexists _, _);
    destruct (add_widget_other E _); run; by eexists _, _.
Qed.

Lemma for_each_place l self g :
  __grid self = Some g → views_built self →
  Forall (λ p, ∃ w, names_widget (view p) w) l →
  ∃ g', for_each l (place E) self = (inr tt, assign_grid (Some (g ++ g')) self) ∧
        Forall2 placed l g'.
Proof.
  revert self g. induction l as [|p l IH]; intros self g Hg Hbuilt Hall.
  - exists []. split; [|constructor]. rewrite app_nil_r. cbn.
    by rewrite assign_grid_same.
  - inversion Hall as [|?? [w Hw] Hall']; subst.
    destruct (IH (assign_grid (Some (g ++ [placement_of w p])) self)
                (g ++ [placement_of w p]))
      as (g' & Hrun & Hplaced);
      [apply grid_assign_grid|by apply views_built_assign_grid|done|].
    eexists (_ :: g'). split.
    + cbn. unfold mbind, M_bind.
      rewrite (place_run p w self g Hw Hbuilt Hg), Hrun.
      by rewrite <- app_assoc, assign_grid_twice.
    + constructor; [|done]. by repeat split.
Qed.

Lemma for_each_place_grid l self g r self' :
  __grid self = Some g →
  for_each l (place E) self = (r, self') →
  ∃ g', self' = assign_grid (Some (g ++ g')) self.
Proof.
  revert self g. induction l as [|p l IH]; intros self g Hg Hrun.
  - cbn in Hrun. injection Hrun as <- <-. exists [].
    by rewrite app_nil_r, assign_grid_same.
  - cbn in Hrun. unfold mbind, M_bind in Hrun.
    destruct (place_grid p self g Hg) as [[e He]|(r1 & w & Hp & _)].
    + rewrite He in Hrun. injection Hrun as <- <-. exists [].
      by rewrite app_nil_r, assign_grid_same.
    + rewrite Hp in Hrun. destruct r1 as [e|[]].
      * injection Hrun as <- <-. by eexists [_].
      * destruct (IH _ _ (grid_assign_grid _ _) Hrun) as [g' ->].
        exists (placement_of w p :: g').
        by rewrite assign_grid_twice, <- app_assoc.
Qed.

Lemma layout_views_inr self x self' :
  __layout_views E self = (inr x, self') →
  ∃ g, self' = assign_grid (Some g) self.
Proof.
  unfold __layout_views. intros H. run_in H.
  destruct (get_layout (assign_grid (Some []) self)) as [l|]; [|done].
  destruct (for_each_place_grid _ _ [] _ _ (grid_assign_grid _ _) H) as [g ->].
  exists g. apply assign_grid_twice.
Qed.
End MethodFacts.

Section Constructor.
Context {sample : Type} (E : Env sample).
Implicit Types (self : Analysis sample).

Lemma index_inr c v i :
  index c v = inr i →
  ∃ l, c = PyTuple l ∧ (text v ≫= λ s, list_index s l) = Some i.
Proof.
  unfold index. destruct c as [l|l]; [|done].
  destruct (text v ≫= _) eqn:Hi; [|done]. intros [= ->]. eauto.
Qed.

Lemma create_layout_presets_inr self x self' :
  __create_layout_presets self = (inr x, self') →
  ∃ presets, self' = assign_layout_presets presets self.
Proof.
  destruct (create_layout_presets_run self) as [presets ->].
  intros [= <-]. eauto.
Qed.

Lemma create_views_inr self x self' :
  __create_views self = (inr x, self') →
  self' = snd (__create_views self).
Proof. by intros ->. Qed.

(** The object a successful constructor call leaves behind. *)
Lemma init_success p ics oecf lin res ref cor s lay s0 self :
  __init__ E p ics oecf lin res ref cor (Some s) lay (blank s0)
  = (inr tt, self) →
  ∃ im presets g i l d,
    REFERENCE_COLOURSPACES E = PyTuple l ∧
    (text ref ≫= λ r, list_index r l) = Some i ∧
    settings_actions s = Some d ∧
    let bg := views_background_colour (settings_canvas s) in
    let bd := views_border_colour (settings_canvas s) in
    self =
    Build_Analysis p (Some im) ics oecf lin res ref cor s lay presets
      (action_of <$> d)
      (Some (Build_View ConsoleView None VNone VNone VNone VNone bg bd))
      (Some (Build_View GamutView (Some im) VNone ics ref cor bg bd))
      (Some (Build_View ImageView (Some im) oecf ics VNone cor bg bd))
      (Some (Build_View DiagramView (Some im) oecf ics VNone cor bg bd))
      (Some [ConsoleView; GamutView; ImageView]) (Some g)
      (Some (new_cycle (RGB_candidates E)))
      (Some (new_cycle (rotate (- Z.of_nat i - 1) l))) []
      (Some {| scene_title := "Colour Analysis - " +:+ str p;
               scene_size := canvas_size (settings_canvas s);
               scene_bgcolor := canvas_background_colour (settings_canvas s) |})
      true.
Proof.
  unfold __init__. intros H.
  repeat
    (let H1 := fresh "H" in
     apply bind_inr in H as (? & ? & H1 & H);
     first
       [ apply modify_inr in H1
       | apply image_path_setter_inr in H1
       | apply image_setter_inr in H1
       | apply input_colourspace_setter_inr in H1
       | apply input_oecf_setter_inr in H1
       | apply input_linear_setter_inr in H1
       | apply input_resample_setter_inr in H1
       | apply reference_colourspace_setter_inr in H1
       | apply correlate_colourspace_setter_inr in H1
       | apply layout_setter_inr in H1
       | apply get_inr in H1 as [? ?]
       | apply ret_inr in H1 as [? ?]
       | apply lift_inr in H1 as [[= <-] ?]
       | apply lift_inr in H1 as [Hindex ?]
       | apply create_layout_presets_inr in H1 as (? & ?)
       | apply create_views_inr in H1
       | apply create_actions_inr in H1 as (? & ? & ?)
       | apply create_image_inr in H1 as (? & ?)
       | apply layout_views_inr in H1 as (? & ?)
       | idtac ];
     subst; cbn in * |-).
  apply modify_inr in H. subst self.
  apply index_inr in Hindex as (l & Hl & Hi).
  rewrite Hl in *. cbn in *.
  eexists _, _, _, _, _, _. split; [done|]. split; [exact Hi|].
  split; [eassumption|]. reflexivity.
Qed.
End Constructor.

Lemma periodic_window {B} (v : nat → B) N k :
  (∀ i, v (i + N) = v i) → map v (seq k N) ≡ₚ map v (seq 0 N).
Proof.
  intros Hper. induction k as [|k IH]; [done|].
  rewrite <- IH. apply (Permutation_cons_inv (a := v k)).
  change (v k :: map v (seq (S k) N)) with (map v (seq k (S N))).
  rewrite seq_S, map_app. cbn. rewrite Hper.
  symmetry. apply Permutation_cons_append.
Qed.

Lemma first_window {A B} (v : nat → B) (f : A → B) (l : list A) :
  (∀ i x, l !! i = Some x → v i = f x) → map v (seq 0 (length l)) = f <$> l.
Proof.
  intros Hv. apply list_eq. intros i.
  change (map v ?l) with (v <$> l). rewrite !list_lookup_fmap.
  destruct (l !! i) as [x|] eqn:Hi.
  - rewrite lookup_seq_lt by (by eapply lookup_lt_Some). cbn.
    by rewrite (Hv i x).
  - rewrite lookup_seq_ge; [done|]. by apply lookup_ge_None.
Qed.

Section CorrelateClaim.
Context {sample : Type} (E : Env sample).
Implicit Types (self : Analysis sample).

Lemma init_correlate_ready p ics oecf lin res ref cor s lay s0 self :
  __init__ E p ics oecf lin res ref cor (Some s) lay (blank s0)
  = (inr tt, self) →
  correlate_ready (RGB_candidates E) 0 self.
Proof.
  intros H. apply init_success in H as (im & ? & ? & ? & ? & ? & _ & _ & _ & ->).
  exists (new_cycle (RGB_candidates E)), 0. cbn.
  split; [done|]. split; [apply new_cycle_at_position|]. eauto.
Qed.

Lemma correlate_after_ready l self k :
  l ≠ [] → correlate_ready l 0 self →
  fst (times k cycle_correlate_colourspace_action self) = inr tt ∧
  (0 < k → ∃ x, l !! ((k - 1) mod length l) = Some x ∧
                correlate_after k self = VStr x).
Proof.
  intros Hl Hr.
  destruct (times_cycle_correlate l 0 k self Hl Hr) as (s1 & Hrun & _ & Hval).
  unfold correlate_after, correlate_colourspace. rewrite Hrun. split; [done|].
  intros Hk. destruct (Hval Hk) as (x & Hx & Hc). eauto.
Qed.

(** C1 (amended).  On a constructed canvas with [N ≥ 1] eligible
    candidates, [cycle_correlate_colourspace_action] never fails, every
    call sets [correlate_colourspace] to an eligible candidate, the value
    after [k + N] calls is the value after [k] calls for every [k ≥ 1],
    and any [N] consecutive calls visit every eligible candidate exactly
    once: a total, wrap-around cycle of period [N] over the candidates. *)
Theorem correlate_cycle_period p ics oecf lin res ref cor s lay s0 self :
  __init__ E p ics oecf lin res ref cor (Some s) lay (blank s0)
  = (inr tt, self) →
  RGB_candidates E ≠ [] →
  let N := length (RGB_candidates E) in
  (∀ k, fst (times k cycle_correlate_colourspace_action self) = inr tt) ∧
  (∀ k, 0 < k → ∃ c, c ∈ RGB_candidates E ∧ correlate_after k self = VStr c) ∧
  (∀ k, 0 < k → correlate_after (k + N) self = correlate_after k self) ∧
  (∀ k, map (λ i, correlate_after i self) (seq (S k) N)
        ≡ₚ VStr <$> RGB_candidates E).
Proof.
  intros Hinit Hne N.
  pose proof (init_correlate_ready _ _ _ _ _ _ _ _ _ _ _ Hinit) as Hr.
  assert (HN : 0 < N) by (subst N; destruct (RGB_candidates E); simpl; [done|lia]).
  assert (Hper : ∀ k, 0 < k → correlate_after (k + N) self = correlate_after k self).
  { intros k Hk.
    destruct (correlate_after_ready _ self (k + N) Hne Hr) as [_ H1].
    destruct (correlate_after_ready _ self k Hne Hr) as [_ H2].
    destruct H1 as (x & Hx & ->); [lia|]. destruct H2 as (y & Hy & ->); [lia|].
    replace (k + N - 1) with (k - 1 + 1 * N) in Hx by lia.
    rewrite Nat.Div0.mod_add in Hx. congruence. }
  split; [|split; [|split]].
  - intros k. by apply (correlate_after_ready _ self k Hne Hr).
  - intros k Hk.
    destruct (correlate_after_ready _ self k Hne Hr) as [_ (x & Hx & ->)]; [done|].
    exists x. split; [|done]. by eapply list_elem_of_lookup_2.
  - done.
  - intros k. rewrite <- seq_shift, map_map.
    rewrite (periodic_window (λ i, correlate_after (S i) self)).
    + subst N. rewrite (first_window _ VStr (RGB_candidates E)); [done|].
      intros i x Hi.
      destruct (correlate_after_ready _ self (S i) Hne Hr) as [_ (y & Hy & ->)]; [lia|].
      replace (S i - 1) with i in Hy by lia.
      rewrite Nat.mod_small in Hy by (by eapply lookup_lt_Some). congruence.
    + intros i. replace (S (i + N)) with (S i + N) by lia. apply Hper. lia.
Qed.
End CorrelateClaim.

Lemma list_index_lookup s l i : list_index s l = Some i → l !! i = Some s.
Proof.
  revert i. induction l as [|x l IH]; intros i; [done|]. cbn.
  destruct (String.eqb x s) eqn:Heq.
  - apply String.eqb_eq in Heq as ->. by intros [= <-].
  - destruct (list_index s l) as [j|]; [|done]. intros [= <-]. by apply IH.
Qed.

Section RotationFacts.
Context {A : Type}.
Implicit Types (l : list A).

(** The deque rotated past position [i]: what follows [i], what
    precedes it, and the element at [i] last. *)
Lemma rotate_past_split l i x :
  l !! i = Some x →
  rotate (- Z.of_nat i - 1) l = (drop (S i) l ++ take i l) ++ [x].
Proof.
  intros Hi. rewrite rotate_past by (by eapply lookup_lt_Some).
  by rewrite (take_S_r _ _ _ Hi), app_assoc.
Qed.

Lemma rotate_past_length l i :
  i < length l → length (rotate (- Z.of_nat i - 1) l) = length l.
Proof.
  intros Hi. rewrite rotate_past by done.
  rewrite length_app, length_drop, length_take. lia.
Qed.

Lemma rotate_past_head l i :
  i < length l →
  rotate (- Z.of_nat i - 1) l !! 0 = l !! (S i mod length l).
Proof.
  intros Hi. rewrite rotate_past by done.
  destruct (decide (S i < length l)) as [Hlt|Hge].
  - rewrite Nat.mod_small by done.
    rewrite lookup_app_l by (rewrite length_drop; lia).
    rewrite lookup_drop. f_equal. lia.
  - assert (S i = length l) as -> by lia.
    rewrite Nat.Div0.mod_same, drop_all, firstn_all. done.
Qed.

(** The deque rotated past position [i] starts at position [i + 1]. *)
Lemma rotate_past_lookup l i j :
  i < length l → j < length l →
  rotate (- Z.of_nat i - 1) l !! j = l !! ((S i + j) mod length l).
Proof.
  intros Hi Hj. rewrite rotate_past by done.
  destruct (decide (S i + j < length l)) as [Hlt|Hge].
  - rewrite Nat.mod_small by done.
    rewrite lookup_app_l by (rewrite length_drop; lia).
    by rewrite lookup_drop.
  - rewrite lookup_app_r by (rewrite length_drop; lia).
    rewrite length_drop, lookup_take_lt by lia. f_equal.
    replace (S i + j) with ((S i + j - length l) + 1 * length l) by lia.
    rewrite Nat.Div0.mod_add, Nat.mod_small by lia. lia.
Qed.

Lemma others_after_rotation l i x :
  NoDup l → l !! i = Some x →
  NoDup (drop (S i) l ++ take i l) ∧
  ∀ y, y ∈ drop (S i) l ++ take i l ↔ y ∈ l ∧ y ≠ x.
Proof.
  intros Hnd Hi. rewrite <- (take_drop_middle l i x Hi) in Hnd.
  apply NoDup_app in Hnd as (Hnd1 & Hdisj & Hnd2).
  apply NoDup_cons in Hnd2 as [Hx Hnd2].
  split.
  - apply NoDup_app. split; [done|]. split; [|done].
    intros y Hy1 Hy2. apply (Hdisj y Hy2). by right.
  - intros y. rewrite <- (take_drop_middle l i x Hi) at 3.
    rewrite !elem_of_app, elem_of_cons. split.
    + intros [Hy|Hy].
      * split; [auto|]. by intros ->.
      * split; [auto|]. intros ->. apply (Hdisj x Hy). by left.
    + intros [[Hy|[->|Hy]] Hne]; [auto|done|auto].
Qed.
End RotationFacts.

Section ReferenceCycle.
Context {sample : Type} (E : Env sample).
Implicit Types (self : Analysis sample).

Lemma cycle_reference_step l k self :
  l ≠ [] → reference_ready l k self →
  ∃ x self', l !! (k mod length l) = Some x ∧
    cycle_reference_colourspace_action self = (inr true, self') ∧
    __reference_colourspace self' = VStr x ∧
    reference_ready l (S k) self'.
Proof.
  intros Hl (c & j & Hc & Hpos & Hjk & [g Hg]).
  assert (Hn : 0 < length l) by (destruct l; simpl; [done|lia]).
  destruct (lookup_lt_is_Some_2 l (k mod length l)) as [x Hx].
  { by apply Nat.mod_upper_bound, Nat.neq_0_lt_0. }
  destruct (next_at_position l j c x Hpos) as (c' & Hnext & Hpos').
  { by rewrite Hjk. }
  exists x. destruct self; simpl in *. subst.
  unfold cycle_reference_colourspace_action, next_of, setattr_view.
  run. rewrite Hnext. run.
  eexists; split; [done|]. split; [reflexivity|]. split; [done|].
  exists c', (S (j mod length l)); cbn.
  split; [done|]. split; [done|]. split; [by apply succ_mod_mod|]. eauto.
Qed.

Lemma times_cycle_reference l k m self :
  l ≠ [] → reference_ready l k self →
  ∃ self', times m cycle_reference_colourspace_action self = (inr tt, self') ∧
    reference_ready l (k + m) self' ∧
    (0 < m → ∃ x, l !! ((k + m - 1) mod length l) = Some x ∧
                  __reference_colourspace self' = VStr x).
Proof.
  intros Hl. revert k self. induction m as [|m IH]; intros k self Hr.
  - exists self. split; [done|]. split; [by rewrite Nat.add_0_r|lia].
  - destruct (cycle_reference_step l k self Hl Hr) as (x & s1 & Hx & Hact & Hcor & Hr1).
    destruct (IH (S k) s1 Hr1) as (s2 & Htimes & Hr2 & Hval).
    exists s2. split.
    { cbn. unfold mbind, M_bind. rewrite Hact. exact Htimes. }
    split; [by replace (k + S m) with (S k + m) by lia|].
    intros _. destruct m as [|m].
    + cbn in Htimes. injection Htimes as <-.
      exists x. replace (k + 1 - 1) with k by lia. done.
    + destruct Hval as (y & Hy & Hcy); [lia|].
      exists y. by replace (k + S (S m) - 1) with (S k + S m - 1) by lia.
Qed.

Lemma reference_after_ready l self k :
  l ≠ [] → reference_ready l 0 self →
  fst (times k cycle_reference_colourspace_action self) = inr tt ∧
  (0 < k → ∃ x, l !! ((k - 1) mod length l) = Some x ∧
                reference_after k self = VStr x).
Proof.
  intros Hl Hr.
  destruct (times_cycle_reference l 0 k self Hl Hr) as (s1 & Hrun & _ & Hval).
  unfold reference_after, reference_colourspace. rewrite Hrun. split; [done|].
  intros Hk. destruct (Hval Hk) as (x & Hx & Hc). eauto.
Qed.

(** C2.  On a canvas constructed with reference colour space [R], where
    the registry of [N] distinct names holds [R] at position [i]: the
    first call of [cycle_reference_colourspace_action] yields the name
    following [R] in the registry (wrapping round), the calls [1 .. N-1]
    visit every other name exactly once, and the [N]-th call returns the
    field to [R]. *)
Theorem reference_cycle_visits p ics oecf lin res ref cor s lay s0 self :
  __init__ E p ics oecf lin res ref cor (Some s) lay (blank s0)
  = (inr tt, self) →
  NoDup (iter (REFERENCE_COLOURSPACES E)) →
  let registry := iter (REFERENCE_COLOURSPACES E) in
  let N := length registry in
  ∃ r i,
    text ref = Some r ∧ registry !! i = Some r ∧
    (∀ k, fst (times k cycle_reference_colourspace_action self) = inr tt) ∧
    (∃ following, registry !! (S i mod N) = Some following ∧
                  reference_after 1 self = VStr following) ∧
    (let visited := map (λ k, reference_after k self) (seq 1 (N - 1)) in
     NoDup visited ∧ ∀ x, VStr x ∈ visited ↔ x ∈ registry ∧ x ≠ r) ∧
    reference_after N self = VStr r.
Proof.
  intros Hinit Hnd registry N.
  apply init_success in Hinit
    as (im & presets & g & i & l & items & HR & Hi & _ & ->).
  subst registry N. rewrite HR in *. cbn [iter] in *.
  destruct (text ref) as [r|] eqn:Hr; [|done]. cbn in Hi.
  apply list_index_lookup in Hi.
  pose proof (lookup_lt_Some _ _ _ Hi) as Hlt.
  set (d := rotate (- Z.of_nat i - 1) l).
  assert (Hlen : length d = length l) by (by apply rotate_past_length).
  assert (Hd : d = (drop (S i) l ++ take i l) ++ [r]) by (by apply rotate_past_split).
  assert (Hne : d ≠ []) by (intros Hnil; rewrite Hnil in Hlen; cbn in Hlen; lia).
  match goal with |- context [times _ _ ?st] => set (self := st) end.
  assert (Hready : reference_ready d 0 self).
  { exists (new_cycle d), 0. split; [done|].
    split; [apply new_cycle_at_position|]. split; [done|]. cbn. eauto. }
  exists r, i. split; [done|]. split; [done|]. split; [|split; [|split]].
  - intros k. by apply (reference_after_ready d self k).
  - destruct (reference_after_ready d self 1 Hne Hready) as [_ (x & Hx & ->)]; [lia|].
    exists x. split; [|done].
    rewrite Hlen in Hx. cbn in Hx. rewrite Nat.Div0.mod_0_l in Hx.
    by rewrite <- rotate_past_head.
  - cbn zeta. destruct (others_after_rotation l i r Hnd Hi) as [Hnd' Hmem].
    assert (Hvis : map (λ k, reference_after k self) (seq 1 (length l - 1))
                   = VStr <$> (drop (S i) l ++ take i l)).
    { rewrite <- seq_shift, map_map.
      replace (length l - 1) with (length (drop (S i) l ++ take i l)).
      2:{ rewrite length_app, length_drop, length_take. lia. }
      apply first_window. intros j x Hj.
      destruct (reference_after_ready d self (S j) Hne Hready) as [_ (y & Hy & ->)]; [lia|].
      f_equal. replace (S j - 1) with j in Hy by lia.
      pose proof (lookup_lt_Some _ _ _ Hj) as Hjlt.
      rewrite Nat.mod_small in Hy.
      - rewrite Hd, lookup_app_l in Hy by done. congruence.
      - rewrite Hd, length_app. cbn. lia. }
    rewrite Hvis. split.
    + apply NoDup_fmap_2; [|done]. by intros ?? [=].
    + intros x. rewrite <- Hmem. rewrite list_elem_of_fmap. split.
      * by intros (y & [= ->] & Hy).
      * eauto.
  - destruct (reference_after_ready d self (length l) Hne Hready) as [_ (x & Hx & ->)]; [lia|].
    f_equal. rewrite Hlen in Hx. rewrite Nat.mod_small in Hx by lia.
    rewrite Hd in Hx. rewrite lookup_app_r in Hx.
    + rewrite length_app, length_drop, length_take in Hx.
      replace (length l - 1 - (length l - S i + i `min` length l)) with 0 in Hx by lia.
      cbn in Hx. congruence.
    + rewrite length_app, length_drop, length_take. lia.
Qed.
End ReferenceCycle.

Section DispatchFacts.
Context {sample : Type} (E : Env sample).
Implicit Types (self : Analysis sample) (vs : list view_kind).


Lemma trace_assign_trace t self : trace (assign_trace t self) = t.
Proof. by destruct self. Qed.

Lemma views_assign_trace t self : __views (assign_trace t self) = __views self.
Proof. by destruct self. Qed.

Lemma view_attribute_assign_trace k t self :
  view_attribute k (assign_trace t self) = view_attribute k self.
Proof. by destruct self, k. Qed.

Lemma view_attribute_assign k k' v self :
  view_attribute k' (assign_view_attribute k v self)
  = if decide (k' = k) then v else view_attribute k' self.
Proof. by destruct self, k, k'. Qed.

Lemma trace_assign_view k v self :
  trace (assign_view_attribute k v self) = trace self.
Proof. by destruct self, k. Qed.

Lemma differ_in_views_refl self : differ_in_views self self.
Proof.
  exists (__console_view self), (__gamut_view self), (__image_view self),
    (__diagram_view self), (trace self). by destruct self.
Qed.

Lemma differ_in_views_trans (s1 s2 s3 : Analysis sample) :
  differ_in_views s1 s2 → differ_in_views s2 s3 → differ_in_views s1 s3.
Proof.
  intros (c & g & i & d & t & ->) (c' & g' & i' & d' & t' & ->).
  exists c', g', i', d', t'. by destruct s1.
Qed.

Lemma differ_in_views_assign_trace t self :
  differ_in_views self (assign_trace t self).
Proof.
  exists (__console_view self), (__gamut_view self), (__image_view self),
    (__diagram_view self), t. by destruct self.
Qed.

Lemma differ_in_views_assign_view k v self :
  differ_in_views self (assign_view_attribute k v self).
Proof.
  destruct k;
    [exists v, (__gamut_view self), (__image_view self), (__diagram_view self)
    |exists (__console_view self), v, (__image_view self), (__diagram_view self)
    |exists (__console_view self), (__gamut_view self), v, (__diagram_view self)
    |exists (__console_view self), (__gamut_view self), (__image_view self), v];
    exists (trace self); by destruct self.
Qed.

Lemma differ_in_views_frame self self' :
  differ_in_views self self' →
  diagram_view self' = diagram_view self →
  key_press_frame self self'.
Proof.
  intros (c & g & i & d & t & ->) Hd. by destruct self.
Qed.

Lemma key_press_frame_refl self : key_press_frame self self.
Proof. by repeat split. Qed.

Lemma key_press_frame_trans (s1 s2 s3 : Analysis sample) :
  key_press_frame s1 s2 → key_press_frame s2 s3 → key_press_frame s1 s3.
Proof.
  unfold key_press_frame. intros H12 H23. destruct_and!.
  repeat split; congruence.
Qed.

Lemma key_press_frame_assign_trace t self :
  key_press_frame self (assign_trace t self).
Proof. by destruct self. Qed.


(** The handlers of the canvas leave the record of calls alone and
    change nothing a key press must not change, whether they return or
    raise; the views stay built. *)
Lemma handler_frame method h self :
  getattr_method method = Some h →
  trace (snd (h self)) = trace self ∧
  key_press_frame self (snd (h self)) ∧
  ∀ k, is_Some (view_attribute k self) →
       is_Some (view_attribute k (snd (h self))).
Proof.
  unfold getattr_method. intros Hh.
  repeat case_decide; simplify_eq;
    destruct self as [? ? ? ? ? ? ? ? ? ? ? ? ? gv iv ? ? ? rc fc ? ? ?];
    unfold cycle_correlate_colourspace_action,
      cycle_reference_colourspace_action, next_of, setattr_view; run.
  - destruct rc as [c|]; run; [|by split; [|split; [|intros []]]].
    destruct (next c) as [e|[x c']]; run; [by split; [|split; [|intros []]]|].
    destruct gv; run; [|by split; [|split; [|intros []]]].
    destruct iv; run; by split; [|split; [|intros []]].
  - destruct fc as [c|]; run; [|by split; [|split; [|intros []]]].
    destruct (next c) as [e|[x c']]; run; [by split; [|split; [|intros []]]|].
    destruct gv; run; by split; [|split; [|intros []]].
Qed.


(** One step of the loop over the views. *)
Lemma view_step_run method k self :
  view_step E method k self =
  match view_outcome E method self k with
  | Some (r, v') =>
      (r, assign_view_attribute k (Some v')
            (assign_trace (trace self ++ [(OnView k, method)]) self))
  | None => (inr tt, self)
  end.
Proof.
  unfold view_step, view_outcome, call_view, record_call. run.
  destruct (view_attribute k self) as [v|]; cbn; [|done].
  destruct (view_method E k method) as [h|]; cbn; [|done].
  run. by destruct (h v) as [[e|[]] v'].
Qed.

Lemma view_outcome_assign method k k' v t self :
  k' ≠ k →
  view_outcome E method
    (assign_view_attribute k v (assign_trace t self)) k'
  = view_outcome E method self k'.
Proof.
  intros Hne. unfold view_outcome.
  by rewrite view_attribute_assign, decide_False, view_attribute_assign_trace.
Qed.

Lemma called_ext {A} (f g : view_kind → option ((exn + unit) * A)) vs :
  (∀ k, k ∈ vs → f k = g k) →
  called f vs = called g vs ∧ result_of f vs = result_of g vs.
Proof.
  induction vs as [|k vs IH]; intros Hfg; [done|]. cbn.
  rewrite <- (Hfg k) by (by left).
  destruct IH as [-> ->]; [by intros k' ?; apply Hfg; right|]. done.
Qed.

Lemma called_subseteq {A} (f : view_kind → option ((exn + unit) * A)) vs :
  called f vs ⊆ vs.
Proof.
  induction vs as [|k vs IH]; cbn; [done|].
  destruct (f k) as [[[e|[]] x]|]; set_solver.
Qed.


(** The loop over the views: what it returns, the calls it makes and the
    views it leaves. *)
Lemma view_loop_run method vs self :
  NoDup vs →
  let out := view_outcome E method self in
  let r := for_each vs (view_step E method) self in
  fst r = result_of out vs ∧
  trace (snd r) = trace self ++ calls_of method (OnView <$> called out vs) ∧
  ∀ k, view_attribute k (snd r)
       = if decide (k ∈ called out vs) then snd <$> out k
         else view_attribute k self.
Proof.
  revert self. induction vs as [|k vs IH]; intros self Hnd; cbn zeta.
  - cbn. rewrite app_nil_r. split; [done|]. split; [done|]. intros k.
    by rewrite decide_False by set_solver.
  - apply NoDup_cons in Hnd as [Hk Hnd]. cbn [for_each called result_of].
    unfold mbind, M_bind. rewrite view_step_run.
    destruct (view_outcome E method self k) as [[[e|[]] v']|] eqn:Hout.
    + cbn. split; [done|]. split; [by rewrite trace_assign_view,
        trace_assign_trace|].
      intros k'. rewrite view_attribute_assign, view_attribute_assign_trace.
      destruct (decide (k' = k)) as [->|Hne].
      * rewrite decide_True by set_solver. by rewrite Hout.
      * by rewrite decide_False by set_solver.
    + match goal with |- context [for_each vs _ ?st] => set (s1 := st) end.
      destruct (IH s1 Hnd) as (Hr & Ht & Hv). cbn zeta in Hr, Ht, Hv.
      destruct (called_ext (view_outcome E method s1)
                  (view_outcome E method self) vs) as [Hc Hres].
      { intros k' Hk'. apply view_outcome_assign. by intros ->. }
      rewrite Hc in Ht, Hv. rewrite Hres in Hr.
      split; [done|]. split.
      { rewrite Ht. subst s1. rewrite trace_assign_view, trace_assign_trace.
        by rewrite <- app_assoc. }
      intros k'. rewrite Hv. subst s1.
      rewrite view_attribute_assign, view_attribute_assign_trace.
      pose proof (called_subseteq (view_outcome E method self) vs) as Hsub.
      destruct (decide (k' = k)) as [->|Hne].
      * rewrite decide_False by set_solver.
        rewrite decide_True by set_solver. by rewrite Hout.
      * rewrite view_outcome_assign by done.
        destruct (decide (k' ∈ called _ vs)).
        -- by rewrite decide_True by set_solver.
        -- by rewrite decide_False by set_solver.
    + apply (IH self Hnd).
Qed.

(** What the loop over the views leaves alone. *)
Lemma view_loop_frame method vs self :
  let r := for_each vs (view_step E method) self in
  differ_in_views self (snd r) ∧
  (∀ k, k ∉ vs → view_attribute k (snd r) = view_attribute k self) ∧
  ∃ ks, trace (snd r) = trace self ++ calls_of method (OnView <$> ks) ∧
        ks ⊆ vs.
Proof.
  revert self. induction vs as [|k vs IH]; intros self; cbn zeta.
  - cbn. split; [apply differ_in_views_refl|]. split; [done|].
    exists []. by rewrite app_nil_r.
  - cbn [for_each]. unfold mbind, M_bind. rewrite view_step_run.
    destruct (view_outcome E method self k) as [[[e|[]] v']|] eqn:Hout.
    + cbn. split.
      { eapply differ_in_views_trans; [apply differ_in_views_assign_trace|].
        apply differ_in_views_assign_view. }
      split.
      { intros k' Hk'.
        rewrite view_attribute_assign, view_attribute_assign_trace.
        by rewrite decide_False by set_solver. }
      exists [k]. split; [|set_solver].
      by rewrite trace_assign_view, trace_assign_trace.
    + match goal with |- context [for_each vs _ ?st] => set (s1 := st) end.
      destruct (IH s1) as (Hd & Hv & ks & Ht & Hks). cbn zeta in Hd, Hv, Ht.
      split.
      { eapply differ_in_views_trans; [|exact Hd]. subst s1.
        eapply differ_in_views_trans; [apply differ_in_views_assign_trace|].
        apply differ_in_views_assign_view. }
      split.
      { intros k' Hk'. rewrite Hv by set_solver. subst s1.
        rewrite view_attribute_assign, view_attribute_assign_trace.
        by rewrite decide_False by set_solver. }
      exists (k :: ks). split; [|set_solver].
      rewrite Ht. subst s1. rewrite trace_assign_view, trace_assign_trace.
      by rewrite <- app_assoc.
    + destruct (IH self) as (Hd & Hv & ks & Ht & Hks).
      split; [done|]. split; [intros k' Hk'; apply Hv; set_solver|].
      exists ks. split; [done|set_solver].
Qed.

(** A dispatch, step by step: the handler of the canvas, if any, and then,
    if it returned, the loop over the views. *)
Lemma dispatch_run a vs self :
  __views self = Some vs →
  let method := action_method a in
  dispatch E a self =
  match getattr_method method with
  | Some h =>
      match h (assign_trace (trace self ++ [(Canvas, method)]) self) with
      | (inl e, s1) => (inl e, s1)
      | (inr _, s1) => for_each vs (view_step E method) s1
      end
  | None => for_each vs (view_step E method) self
  end.
Proof.
  intros Hvs method. unfold dispatch. fold method.
  destruct (getattr_method method) as [h|] eqn:Hh.
  - unfold mbind, M_bind, record_call, modify, get.
    pose proof (handler_frame method h
      (assign_trace (trace self ++ [(Canvas, method)]) self) Hh)
      as (_ & Hframe & _).
    destruct (h _) as [[e|b] s1]; cbn in Hframe |- *; [done|].
    destruct Hframe as (_ & _ & _ & _ & _ & _ & _ & _ & _ & _ & _ & Hv & _).
    by rewrite Hv, views_assign_trace, Hvs.
  - unfold mbind, M_bind, mret, M_ret, get. by rewrite Hvs.
Qed.

(** What a dispatch leaves alone on a canvas whose tuple of views does
    not hold the diagram view, and whom it calls. *)
Lemma dispatch_invariant a vs self :
  __views self = Some vs → DiagramView ∉ vs →
  let r := dispatch E a self in
  key_press_frame self (snd r) ∧
  ∃ rs, trace (snd r) = trace self ++ calls_of (action_method a) rs ∧
        ∀ k, OnView k ∈ rs → k ∈ vs.
Proof.
  intros Hvs Hdv. cbn zeta. rewrite (dispatch_run a vs self Hvs).
  set (method := action_method a).
  assert (Hloop : ∀ s1,
    let r := for_each vs (view_step E method) s1 in
    key_press_frame s1 (snd r) ∧
    ∃ ks, trace (snd r) = trace s1 ++ calls_of method (OnView <$> ks) ∧
          ks ⊆ vs).
  { intros s1. destruct (view_loop_frame method vs s1) as (Hd & Hv & Hks).
    split; [|done]. apply differ_in_views_frame; [done|].
    apply (Hv DiagramView Hdv). }
  destruct (getattr_method method) as [h|] eqn:Hh.
  - pose proof (handler_frame method h
      (assign_trace (trace self ++ [(Canvas, method)]) self) Hh)
      as (Ht & Hframe & _).
    destruct (h _) as [[e|b] s1]; cbn in Ht, Hframe |- *.
    + split.
      { eapply key_press_frame_trans; [apply key_press_frame_assign_trace|].
        exact Hframe. }
      exists [Canvas]. rewrite Ht, trace_assign_trace.
      split; [done|]. set_solver.
    + destruct (Hloop s1) as (Hf & ks & Hks & Hsub). split.
      { eapply key_press_frame_trans; [apply key_press_frame_assign_trace|].
        eapply key_press_frame_trans; [exact Hframe|exact Hf]. }
      exists (Canvas :: (OnView <$> ks)).
      rewrite Hks, Ht, trace_assign_trace, <- app_assoc. split; [done|].
      intros k [[=]|Hk]%elem_of_cons.
      apply list_elem_of_fmap in Hk as (k' & [= ->] & Hk'). by apply Hsub.
  - destruct (Hloop self) as (Hf & ks & Hks & Hsub). split; [done|].
    exists (OnView <$> ks). split; [done|].
    intros k Hk. apply list_elem_of_fmap in Hk as (k' & [= ->] & Hk').
    by apply Hsub.
Qed.











End DispatchFacts.

Section Dispatch.
Context {sample : Type} (E : Env sample).
Implicit Types (self : Analysis sample).


(** An action that no chord can match may be left out of the loop. *)
Lemma dispatch_all_skip key' modifiers' (a : Action) registered self :
  chord_matches key' modifiers' a = false →
  dispatch_all E key' modifiers' registered self =
  dispatch_all E key' modifiers' (filter (λ b, b ≠ a) registered) self.
Proof.
  intros Ha. revert self.
  induction registered as [|b registered IH]; intros self; [done|].
  rewrite filter_cons. destruct (decide (b ≠ a)) as [Hne|Heq].
  - unfold dispatch_all in *. cbn. unfold mbind, M_bind.
    destruct (if chord_matches _ _ b then _ else _) as [[e|[]] s1]; [done|].
    apply IH.
  - assert (b = a) as -> by (by destruct (decide (b = a))).
    rewrite <- IH. unfold dispatch_all. cbn. by rewrite Ha.
Qed.

(** C10.  An action whose settings entry has no [sequence] is registered
    with the key [None] and no modifiers; no key event matches it, and
    every key press behaves as if the action were not registered. *)
Theorem unbound_action_never_dispatched p ics oecf lin res ref cor s lay s0
    self entries name a :
  __init__ E p ics oecf lin res ref cor (Some s) lay (blank s0)
  = (inr tt, self) →
  settings_actions s = Some entries →
  entries !! name = Some a →
  setting_sequence a = None →
  actions self !! name =
    Some {| action_name := setting_name a;
            action_description := setting_description a;
            sequence := {| modifiers := []; key := None |} |} ∧
  (∀ ev, chord_matches (lower (event_key_name ev))
           (sorted (lower <$> event_modifier_names ev)) (action_of a) = false) ∧
  (∀ ev, on_key_press E ev self =
         dispatch_all E (lower (event_key_name ev))
           (sorted (lower <$> event_modifier_names ev))
           (filter (λ b, b ≠ action_of a) (values (actions self)))
           self).
Proof.
  intros Hinit Hentries Ha Hseq.
  apply init_success in Hinit
    as (im & presets & g & i & l & d & _ & _ & Hd & Hself).
  cbn zeta in Hself. assert (d = entries) as -> by congruence.
  assert (Hnever : ∀ key' modifiers',
             chord_matches key' modifiers' (action_of a) = false).
  { intros key' modifiers'. unfold chord_matches, action_of, sequence_of.
    rewrite Hseq. done. }
  split; [|split].
  - subst self. unfold actions. cbn. rewrite dict_lookup_fmap, Ha. cbn.
    unfold action_of, sequence_of. by rewrite Hseq.
  - intros ev. apply Hnever.
  - intros ev. unfold on_key_press.
    change ((get ≫= ?f) self) with (f self self). cbv beta.
    by apply dispatch_all_skip.
Qed.

(** A whole key press on a canvas whose tuple of views does not hold the
    diagram view: what it leaves alone, and whom it calls. *)
Lemma dispatch_all_invariant key' modifiers' registered vs self :
  __views self = Some vs → DiagramView ∉ vs →
  let r := dispatch_all E key' modifiers' registered self in
  key_press_frame self (snd r) ∧
  ∃ calls, trace (snd r) = trace self ++ calls ∧
           ∀ v method, (OnView v, method) ∈ calls → v ∈ vs.
Proof.
  intros Hvs Hdv. revert self Hvs.
  induction registered as [|a registered IH]; intros self Hvs.
  - cbn. split; [apply key_press_frame_refl|].
    exists []. split; [by rewrite app_nil_r|set_solver].
  - unfold dispatch_all in *. cbn [for_each]. unfold mbind, M_bind.
    destruct (chord_matches key' modifiers' a).
    + destruct (dispatch_invariant E a vs self Hvs Hdv)
        as (Hf & rs & Ht & Hrs). cbn zeta in Hf, Ht.
      assert (Hcalls : ∀ v method,
                (OnView v, method) ∈ calls_of (action_method a) rs → v ∈ vs).
      { intros v method Hin.
        apply list_elem_of_fmap in Hin as (c & [= <- _] & Hc). by apply Hrs. }
      destruct (dispatch E a self) as [[e|[]] s1]; cbn in Hf, Ht |- *.
      * split; [done|]. eauto.
      * destruct (IH s1) as [Hf' (calls & Ht' & Hcalls')].
        { destruct Hf as (_ & _ & _ & _ & _ & _ & _ & _ & _ & _ & _ & Hv & _).
          by rewrite Hv. }
        cbn zeta in Hf', Ht'. split.
        { eapply key_press_frame_trans; [exact Hf|exact Hf']. }
        eexists. split; [rewrite Ht', Ht, <- app_assoc; reflexivity|].
        intros v method. rewrite elem_of_app. intros [Hc|Hc]; eauto.
    + apply (IH self Hvs).
Qed.

(** No key press ever reaches the diagram view of a constructed canvas. *)
Lemma diagram_view_never_called p ics oecf lin res ref cor s lay s0 self ev
    method :
  __init__ E p ics oecf lin res ref cor (Some s) lay (blank s0)
  = (inr tt, self) →
  (OnView DiagramView, method) ∉ trace (snd (on_key_press E ev self)).
Proof.
  intros Hinit.
  apply init_success in Hinit
    as (im & presets & g & i & l & d & _ & _ & _ & Hself).
  cbn zeta in Hself.
  assert (Hviews : __views self = Some [ConsoleView; GamutView; ImageView])
    by (by subst self).
  assert (Htrace : trace self = []) by (by subst self).
  unfold on_key_press. change ((get ≫= ?f) self) with (f self self). cbv beta.
  destruct (dispatch_all_invariant (lower (event_key_name ev))
              (sorted (lower <$> event_modifier_names ev))
              (values (__actions self)) _ self Hviews)
    as [_ (calls & Ht & Hcalls)]; [set_solver|].
  cbn zeta in Ht. rewrite Ht, Htrace. cbn [app].
  intros Hin. apply Hcalls in Hin. set_solver.
Qed.
End Dispatch.

Section StrideFacts.
Context {A : Type}.
Implicit Types (l : list A).

Lemma stride_from_length n k l :
  k < n → length (stride_from n k l) = (length l + n - 1 - k) / n.
Proof.
  revert k. induction l as [|x l IH]; intros k Hk.
  - cbn. symmetry. apply Nat.div_small. lia.
  - cbn [stride_from length]. destruct k as [|k].
    + cbn [length]. rewrite IH by lia.
      replace (length l + n - 1 - (n - 1)) with (length l) by lia.
      replace (S (length l) + n - 1 - 0) with (length l + 1 * n) by lia.
      rewrite Nat.div_add by lia. lia.
    + rewrite IH by lia. f_equal. lia.
Qed.

Lemma stride_length n l : 0 < n → length (stride n l) = (length l + n - 1) / n.
Proof.
  intros Hn. unfold stride. rewrite stride_from_length by done. f_equal. lia.
Qed.

Lemma stride_from_lookup n k l i :
  0 < n → stride_from n k l !! i = l !! (k + i * n).
Proof.
  intros Hn. revert k i. induction l as [|x l IH]; intros k i; [done|].
  cbn [stride_from]. destruct k as [|k].
  - destruct i as [|i]; [done|]. cbn [lookup list_lookup].
    rewrite IH. replace (0 + S i * n) with (S (n - 1 + i * n)) by lia. done.
  - rewrite IH. done.
Qed.

Lemma stride_lookup n l i : 0 < n → stride n l !! i = l !! (i * n).
Proof. intros Hn. unfold stride. by rewrite stride_from_lookup. Qed.

Lemma stride_from_Forall (P : A → Prop) n k l :
  Forall P l → Forall P (stride_from n k l).
Proof.
  intros HP. revert k. induction HP as [|x l Hx HP IH]; intros k; [constructor|].
  cbn. destruct k; [constructor|]; auto.
Qed.

Lemma stride_1 l : stride 1 l = l.
Proof. unfold stride. induction l as [|x l IH]; [done|]. cbn. by f_equal. Qed.

Lemma lookup_map {B} (f : A → B) l i : map f l !! i = f <$> l !! i.
Proof. revert i. induction l as [|x l IH]; intros [|i]; cbn; auto. Qed.

Lemma stride_from_map {B} (f : A → B) n k l :
  stride_from n k (map f l) = map f (stride_from n k l).
Proof.
  revert k. induction l as [|x l IH]; intros k; [done|].
  cbn. destruct k; cbn; by rewrite IH.
Qed.

Lemma map_result_inr {B} (f : A → exn + B) (g : A → B) l :
  (∀ x, f x = inr (g x)) → map_result f l = inr (map g l).
Proof.
  intros Hf. induction l as [|x l IH]; [done|]. cbn. by rewrite Hf, IH.
Qed.
End StrideFacts.

Section ShapeFacts.
Context {sample : Type}.
Implicit Types (image : ndarray sample).

Lemma has_shape_map (f : sample → sample) image h w c :
  has_shape image h w c → has_shape (map (map (map f)) image) h w c.
Proof.
  intros [Hh Hrows]. split; [by rewrite length_map|].
  apply Forall_map. eapply Forall_impl; [exact Hrows|].
  intros r [Hw Hpx]. cbn. split; [by rewrite length_map|].
  apply Forall_map. eapply Forall_impl; [exact Hpx|].
  intros px Hc. cbn. by rewrite length_map.
Qed.

Lemma has_shape_first_three_channels image h w c :
  has_shape image h w c →
  has_shape (first_three_channels image) h w (c `min` 3).
Proof.
  intros [Hh Hrows]. split; [by unfold first_three_channels; rewrite length_map|].
  apply Forall_map. eapply Forall_impl; [exact Hrows|].
  intros r [Hw Hpx]. cbn. split; [by rewrite length_map|].
  apply Forall_map. eapply Forall_impl; [exact Hpx|].
  intros px Hc. cbn. rewrite length_take, Hc. apply Nat.min_comm.
Qed.

Lemma has_shape_rev image h w c :
  has_shape image h w c → has_shape (map (@rev _) (rev image)) h w c.
Proof.
  intros [Hh Hrows]. split; [by rewrite length_map, length_rev|].
  apply Forall_map, Forall_rev. eapply Forall_impl; [exact Hrows|].
  intros r [Hw Hpx]. cbn. split; [by rewrite length_rev|]. by apply Forall_rev.
Qed.

Lemma has_shape_stride n image h w c :
  0 < n → has_shape image h w c →
  has_shape (map (stride n) (stride n image)) ((h + n - 1) / n) ((w + n - 1) / n) c.
Proof.
  intros Hn [Hh Hrows]. split; [by rewrite length_map, stride_length, Hh|].
  apply Forall_map, stride_from_Forall. eapply Forall_impl; [exact Hrows|].
  intros r [Hw Hpx]. cbn. split; [by rewrite stride_length, Hw|].
  by apply stride_from_Forall.
Qed.

Lemma pixel_at_stride n image i j :
  0 < n →
  pixel_at (map (stride n) (stride n image)) i j = pixel_at image (i * n) (j * n).
Proof.
  intros Hn. unfold pixel_at.
  unfold ndarray in *. rewrite lookup_map, stride_lookup by done.
  destruct (image !! (i * n)) as [r|]; [|done]. cbn. by apply stride_lookup.
Qed.

(** A positive step keeps every [n]-th row and column. *)
Lemma resample_positive (n : nat) image :
  0 < n →
  resample (Some (Z.of_nat n)) image = inr (map (stride n) (stride n image)).
Proof.
  intros Hn. unfold resample, slice_step.
  destruct (Z.of_nat n =? 0)%Z eqn:H0; [lia|].
  destruct (0 <? Z.of_nat n)%Z eqn:Hpos; [|lia].
  rewrite Nat2Z.id.
  apply (map_result_inr _ (stride n)). intros r.
  by rewrite ?H0, ?Hpos, ?Nat2Z.id.
Qed.

(** A negative step does the same from the far end. *)
Lemma resample_negative (n : nat) image :
  0 < n →
  resample (Some (- Z.of_nat n)%Z) image
  = inr (map (stride n) (stride n (map (@rev _) (rev image)))).
Proof.
  intros Hn. unfold resample, slice_step.
  destruct (- Z.of_nat n =? 0)%Z eqn:H0; [lia|].
  destruct (0 <? - Z.of_nat n)%Z eqn:Hpos; [lia|].
  rewrite Z.opp_involutive, Nat2Z.id.
  rewrite (map_result_inr _ (λ r, stride n (rev r))).
  2:{ intros r. by rewrite ?H0, ?Hpos, ?Z.opp_involutive, ?Nat2Z.id. }
  f_equal. unfold stride, ndarray in *. by rewrite stride_from_map, map_map.
Qed.

Lemma resample_shape step image h w c :
  step ≠ Some 0%Z → has_shape image h w c →
  ∃ image' h' w', resample step image = inr image' ∧ has_shape image' h' w' c.
Proof.
  intros Hstep Hshape. destruct step as [z|].
  - destruct (Z.lt_trichotomy z 0) as [Hneg|[->|Hpos]]; [|done|].
    + replace z with (- Z.of_nat (Z.to_nat (- z)))%Z by lia.
      rewrite resample_negative by lia.
      eexists _, _, _. split; [done|].
      apply has_shape_stride; [lia|]. by apply has_shape_rev.
    + replace z with (Z.of_nat (Z.to_nat z)) by lia.
      rewrite resample_positive by lia.
      eexists _, _, _. split; [done|]. apply has_shape_stride; [lia|done].
  - exists image, h, w. split; [|done]. unfold resample. cbn.
    by rewrite (map_result_inr _ id), map_id.
Qed.
End ShapeFacts.

Section PipelineAndSetters.
Context {sample : Type} (E : Env sample).
Implicit Types (self : Analysis sample).

Lemma create_image_run self path linear step :
  text (__image_path self) = Some path →
  linearise E (__input_linear self) (__input_oecf self) (read_image E path)
    = inr linear →
  step_of (__input_resample self) = inr step →
  __create_image E self =
  match resample step (first_three_channels linear) with
  | inl e => (inl e, self)
  | inr im => (inr tt, assign_image (Some im) self)
  end.
Proof.
  intros Hpath Hlin Hstep. unfold __create_image. run.
  rewrite Hpath. run. rewrite Hlin. run. rewrite Hstep. run.
  by destruct (resample step _).
Qed.

Lemma linearise_shape input_linear' input_oecf' decoded linear h w c :
  linearise E input_linear' input_oecf' decoded = inr linear →
  has_shape decoded h w c → has_shape linear h w c.
Proof.
  unfold linearise. destruct (negb _).
  - destruct (RGB_COLOURSPACES_getitem E input_oecf'); [done|]. intros [= <-].
    apply has_shape_map.
  - by intros [= <-].
Qed.

(** C8.  The image pipeline with resample factor 1 stores an image of the
    height and width of the decoded one; with factor 2 it stores an image
    of height [(h + 1) / 2] and width [(w + 1) / 2] whose pixel [(i, j)] is
    pixel [(2 i, 2 j)] of the original: every second row and column. *)
Theorem resample_factor_dimensions self path linear h w c :
  text (__image_path self) = Some path →
  linearise E (__input_linear self) (__input_oecf self) (read_image E path)
    = inr linear →
  has_shape (read_image E path) h w c →
  (__input_resample self = VInt 1 →
     __create_image E self =
       (inr tt, assign_image (Some (first_three_channels linear)) self) ∧
     has_shape (first_three_channels linear) h w (c `min` 3)) ∧
  (__input_resample self = VInt 2 →
     ∃ im, __create_image E self = (inr tt, assign_image (Some im) self) ∧
       has_shape im ((h + 1) / 2) ((w + 1) / 2) (c `min` 3) ∧
       ∀ i j, pixel_at im i j =
              pixel_at (first_three_channels linear) (i * 2) (j * 2)).
Proof.
  intros Hpath Hlin Hshape.
  pose proof (has_shape_first_three_channels _ _ _ _
                (linearise_shape _ _ _ _ _ _ _ Hlin Hshape)) as Hrgb.
  split; intros Hres.
  - rewrite (create_image_run self path linear (Some 1%Z) Hpath Hlin)
      by (by rewrite Hres).
    rewrite (resample_positive 1) by lia.
    rewrite (map_ext _ id) by apply stride_1.
    by rewrite map_id, stride_1.
  - rewrite (create_image_run self path linear (Some 2%Z) Hpath Hlin)
      by (by rewrite Hres).
    rewrite (resample_positive 2) by lia.
    eexists. split; [done|]. split.
    + apply (has_shape_stride 2) in Hrgb; [|lia].
      by replace (h + 2 - 1) with (h + 1) in Hrgb by lia;
         replace (w + 2 - 1) with (w + 1) in Hrgb by lia.
    + intros i j. apply pixel_at_stride. lia.
Qed.

(** C9 (amended).  After load the image has [min c 3] channels, where [c]
    is the channel count of the decoded image: exactly 3 when there are at
    least 3, never more.  The [input_resample] setter accepts [None] and
    every [int], of any sign, and rejects a value of any other type
    leaving the field as it was: the field is always [None] or an
    integer. *)
Theorem channel_count_and_resample_field :
  (∀ self path linear step h w c,
     text (__image_path self) = Some path →
     linearise E (__input_linear self) (__input_oecf self) (read_image E path)
       = inr linear →
     has_shape (read_image E path) h w c →
     step_of (__input_resample self) = inr step →
     step ≠ Some 0%Z →
     ∃ im h' w', __create_image E self = (inr tt, assign_image (Some im) self) ∧
                 has_shape im h' w' (c `min` 3)) ∧
  (∀ self (v : value),
     input_resample_setter v self =
     match v with
     | VNone | VInt _ => (inr tt, assign_input_resample v self)
     | _ => (inl (AssertionError (not_type_message "input_resample" v "int")),
             self)
     end).
Proof.
  split.
  - intros self path linear step h w c Hpath Hlin Hshape Hstep Hnz.
    pose proof (has_shape_first_three_channels _ _ _ _
                  (linearise_shape _ _ _ _ _ _ _ Hlin Hshape)) as Hrgb.
    destruct (resample_shape step _ _ _ _ Hnz Hrgb) as (im & h' & w' & Hrun & Him).
    exists im, h', w'. split; [|done].
    by rewrite (create_image_run self path linear step Hpath Hlin Hstep), Hrun.
  - intros self v. by destruct v.
Qed.

(** C7.  Writing to [settings], [actions], [console_view], [gamut_view],
    [image_view] or [diagram_view] raises an error whose message names the
    field, whatever the value written, and leaves the object unchanged. *)
Theorem read_only_fields {T} (v : T) self :
  settings_setter v self
    = (inl (AttributeError (read_only_message "settings")), self) ∧
  actions_setter v self
    = (inl (AttributeError (read_only_message "actions")), self) ∧
  console_view_setter v self
    = (inl (AttributeError (read_only_message "console_view")), self) ∧
  gamut_view_setter v self
    = (inl (AttributeError (read_only_message "gamut_view")), self) ∧
  image_view_setter v self
    = (inl (AttributeError (read_only_message "image_view")), self) ∧
  diagram_view_setter v self
    = (inl (AttributeError (read_only_message "diagram_view")), self).
Proof. repeat split. Qed.

Lemma get_layout_assign_grid g self :
  get_layout (assign_grid g self) = get_layout self.
Proof. by destruct self. Qed.

Lemma view_identifier_names identifier :
  identifier ∈ ["console_view"; "gamut_view"; "image_view"; "diagram_view"] →
  ∃ w, names_widget identifier w.
Proof.
  unfold names_widget. rewrite !elem_of_cons, elem_of_nil.
  intros [->|[->|[->|[->|[]]]]]; eexists; eauto 10.
Qed.

(** C6.  When the active layout name is not in the preset table,
    [__layout_views] fails right after it has created the grid, with
    nothing placed; the error is the one raised on the [None] that
    [dict.get] returns, and names neither the layout nor the table.  When
    the name is in the table, the views are built and every view
    identifier of the layout is one of the four view properties, the grid
    receives one placement per view preset, in the order of the layout:
    the view the identifier names, at the row, column, row span and column
    span of the preset. *)
Theorem layout_application self :
  (get_layout self = None →
   __layout_views E self =
     (inl (AttributeError "'NoneType' object has no attribute 'views'"),
      assign_grid (Some []) self)) ∧
  (∀ l, get_layout self = Some l → views_built self →
     Forall (λ p, view p ∈ ["console_view"; "gamut_view"; "image_view";
                            "diagram_view"]) (values (views l)) →
     ∃ g, __layout_views E self = (inr tt, assign_grid (Some g) self) ∧
          Forall2 placed (values (views l)) g).
Proof.
  split.
  - intros Hnone. unfold __layout_views. run.
    by rewrite get_layout_assign_grid, Hnone.
  - intros l Hl Hbuilt Hall. unfold __layout_views. run.
    rewrite get_layout_assign_grid, Hl.
    destruct (for_each_place E (values (views l))
                (assign_grid (Some []) self) [])
      as (g & Hrun & Hplaced);
      [apply grid_assign_grid|by apply views_built_assign_grid| |].
    { eapply Forall_impl; [exact Hall|].
      intros q. apply view_identifier_names. }
    exists g. split; [|done]. cbn in Hrun. by rewrite Hrun, assign_grid_twice.
Qed.

(** Colour-space setters. *)
Lemma colourspace_setters_accept v self :
  type_in_str_unicode v = true →
  (mapping_contains (RGB_COLOURSPACES E) v = true →
     input_colourspace_setter E v self
       = (inr tt, assign_input_colourspace v self) ∧
     input_oecf_setter E v self = (inr tt, assign_input_oecf v self) ∧
     correlate_colourspace_setter E v self
       = (inr tt, assign_correlate_colourspace v self)) ∧
  (contains (REFERENCE_COLOURSPACES E) v = true →
     reference_colourspace_setter E v self
       = (inr tt, assign_reference_colourspace v self)).
Proof.
  intros Hty.
  assert (is_not_None v = true) as Hnn by (by destruct v).
  unfold input_colourspace_setter, input_oecf_setter,
    correlate_colourspace_setter, reference_colourspace_setter.
  split; intros Hin; run; rewrite Hnn, Hty; run; rewrite Hin; run; done.
Qed.

Lemma colourspace_getters_after_assign v self :
  input_colourspace (assign_input_colourspace v self) = v ∧
  input_oecf (assign_input_oecf v self) = v ∧
  correlate_colourspace (assign_correlate_colourspace v self) = v ∧
  reference_colourspace (assign_reference_colourspace v self) = v.
Proof. by destruct self. Qed.

Lemma RGB_setters_reject v self :
  type_in_str_unicode v = true →
  mapping_contains (RGB_COLOURSPACES E) v = false →
  input_colourspace_setter E v self
    = (inl (AssertionError (not_found_message v
              " colourspace not found in factory RGB colourspaces: "
              (mapping_keys (RGB_COLOURSPACES E)))), self) ∧
  input_oecf_setter E v self
    = (inl (AssertionError (not_found_message v
              " OECF is not associated with any factory RGB colourspaces: "
              (mapping_keys (RGB_COLOURSPACES E)))), self) ∧
  correlate_colourspace_setter E v self
    = (inl (AssertionError (not_found_message v
              " colourspace not found in factory RGB colourspaces: "
              (mapping_keys (RGB_COLOURSPACES E)))), self).
Proof.
  intros Hty Hin.
  assert (is_not_None v = true) as Hnn by (by destruct v).
  unfold input_colourspace_setter, input_oecf_setter,
    correlate_colourspace_setter.
  repeat split; run; rewrite Hnn, Hty; run; rewrite Hin; run; done.
Qed.

Lemma reference_setter_reject_sequence l v self :
  REFERENCE_COLOURSPACES E = PyTuple l →
  type_in_str_unicode v = true →
  contains (REFERENCE_COLOURSPACES E) v = false →
  reference_colourspace_setter E v self
    = (inl (AttributeError "'tuple' object has no attribute 'keys'"), self).
Proof.
  intros HR Hty Hin.
  assert (is_not_None v = true) as Hnn by (by destruct v).
  unfold reference_colourspace_setter.
  run. rewrite Hnn, Hty. run. rewrite Hin, HR. run. done.
Qed.

(** Wherever the constructor can succeed, the registry of reference
    colour spaces is a sequence, and the rejection of an unknown name
    breaks on the message. *)
Lemma reference_setter_reject_constructed
    p ics oecf lin res ref cor s lay s0 self v :
  __init__ E p ics oecf lin res ref cor (Some s) lay (blank s0)
  = (inr tt, self) →
  type_in_str_unicode v = true →
  contains (REFERENCE_COLOURSPACES E) v = false →
  reference_colourspace_setter E v self
    = (inl (AttributeError "'tuple' object has no attribute 'keys'"), self).
Proof.
  intros Hinit.
  apply init_success in Hinit
    as (im & presets & g & i & l & items & HR & _).
  by apply reference_setter_reject_sequence with l.
Qed.
End PipelineAndSetters.

(** * The claims on a concrete canvas *)

(** C4.  The gamut view and the diagram view both have a
    [toggle_axis_action] method and both exist; a key press matching the
    action calls the gamut view's handler and not the diagram view's. *)
Theorem diagram_view_handler_not_called :
  let r := on_key_press Example.env Example.control_g Example.canvas_1 in
  is_Some (diagram_view Example.canvas_1) ∧
  hasattr_view Example.env DiagramView "toggle_axis_action" = true ∧
  fst r = inr tt ∧
  trace (snd r) = [(OnView GamutView, "toggle_axis_action")].
Proof. vm_compute. split; [by eexists|]. by repeat split. Qed.

(** C5.  Assigning a name absent from the registry of reference colour
    spaces raises, not the assertion error listing the valid names, but
    an attribute error from [REFERENCE_COLOURSPACES.keys()]; the same
    assignment to [correlate_colourspace] raises the assertion error that
    lists the names. *)
Theorem reference_setter_absent_name_error :
  let r := reference_colourspace_setter Example.env (VStr "foo")
             Example.canvas_1 in
  contains (REFERENCE_COLOURSPACES Example.env) (VStr "foo") = false ∧
  fst r = inl (AttributeError "'tuple' object has no attribute 'keys'") ∧
  snd r = Example.canvas_1 ∧
  fst (correlate_colourspace_setter Example.env (VStr "foo") Example.canvas_1)
  = inl (AssertionError
           (not_found_message (VStr "foo")
              " colourspace not found in factory RGB colourspaces: "
              ["ACES2065-1"; "ACEScg"; "Rec. 709"; "aces"; "sRGB"])).
Proof. vm_compute. by repeat split. Qed.

Lemma init_canvas_3 :
  __init__ Example.env (VStr "rgba.exr") (VStr "Rec. 709") (VStr "Rec. 709")
    (VBool true) (VInt 2) (VStr "CIE xyY") (VStr "ACEScg")
    (Some Example.three_actions) (VStr "layout_1")
    (blank Example.three_actions)
  = (inr tt, Example.canvas_3).
Proof. vm_compute. reflexivity. Defined.

Lemma init_canvas_1 :
  __init__ Example.env (VStr "rgba.exr") (VStr "Rec. 709") (VStr "Rec. 709")
    (VBool true) (VInt 1) (VStr "CIE xyY") (VStr "ACEScg")
    (Some Example.one_action) (VStr "layout_1") (blank Example.one_action)
  = (inr tt, Example.canvas_1).
Proof. vm_compute. reflexivity. Defined.

Lemma correlate_cycle_period_witness :
  RGB_candidates Example.env ≠ [] ∧
  correlate_after (1 + length (RGB_candidates Example.env)) Example.canvas_3
  = correlate_after 1 Example.canvas_3.
Proof.
  assert (Hne : RGB_candidates Example.env ≠ []) by (vm_compute; discriminate).
  split; [exact Hne|].
  exact (proj1 (proj2 (proj2
    (correlate_cycle_period Example.env _ _ _ _ _ _ _ _ _ _ _
       init_canvas_3 Hne))) 1 Nat.lt_0_1).
Defined.

Lemma correlate_cycle_not_anchored :
  (correlate_colourspace Example.canvas_3 = VStr "ACEScg" ∧
   RGB_candidates Example.env = ["ACES2065-1"; "ACEScg"; "Rec. 709"; "sRGB"] ∧
   correlate_after 4 Example.canvas_3 = VStr "sRGB" ∧
   correlate_after 4 Example.canvas_3 ≠ correlate_colourspace Example.canvas_3) ∧
  (fst (Example.construct_with "rgba.exr" (VInt 1) "aces" "layout_1"
          Example.one_action) = inr tt ∧
   correlate_colourspace Example.canvas_aces = VStr "aces" ∧
   correlate_after 4 Example.canvas_aces = VStr "sRGB" ∧
   correlate_after 4 Example.canvas_aces
   ≠ correlate_colourspace Example.canvas_aces).
Proof. vm_compute. by repeat split. Qed.

Lemma reference_cycle_visits_witness :
  NoDup (iter (REFERENCE_COLOURSPACES Example.env)) ∧
  ∃ r i,
    text (VStr "CIE xyY") = Some r ∧
    iter (REFERENCE_COLOURSPACES Example.env) !! i = Some r ∧
    reference_after (length (iter (REFERENCE_COLOURSPACES Example.env)))
      Example.canvas_3 = VStr r.
Proof.
  assert (Hnd : NoDup (iter (REFERENCE_COLOURSPACES Example.env))).
  { refine (bool_decide_unpack _ _). vm_compute. exact I. }
  split; [exact Hnd|].
  destruct (reference_cycle_visits Example.env _ _ _ _ _ _ _ _ _ _ _
              init_canvas_3 Hnd)
    as (r & i & Hr & Hi & _ & _ & _ & HN).
  exists r, i. by repeat split.
Defined.



(** Key presses that run a handler: the built-in cycle action of the
    canvas, the handler of one view, and a handler that raises before the
    view after it is called. *)
Lemma key_press_runs_handlers :
  (let r := on_key_press Example.env Example.control_g Example.canvas_cycle in
   fst r = inr tt ∧
   trace (snd r) = [(Canvas, "cycle_correlate_colourspace_action")] ∧
   correlate_colourspace (snd r) = VStr "ACES2065-1" ∧
   view_correlate_colourspace <$> gamut_view (snd r)
   = Some (VStr "ACES2065-1")) ∧
  (let r := on_key_press Example.env Example.control_g Example.canvas_clear in
   fst r = inr tt ∧
   trace (snd r) = [(OnView ConsoleView, "clear_action")] ∧
   view_border_color <$> console_view (snd r) = Some "cleared") ∧
  (let r := on_key_press Example.env Example.control_g Example.canvas_fit in
   fst r = inl (ValueError "no image to fit") ∧
   trace (snd r) = [(OnView GamutView, "fit_image_action")] ∧
   hasattr_view Example.env ImageView "fit_image_action" = true ∧
   image_view (snd r) = image_view Example.canvas_fit).
Proof. vm_compute. by repeat split. Qed.

Lemma unbound_action_never_dispatched_witness :
  settings_actions Example.three_actions ≫= (.!! "unbound")
    = Some Example.unbound ∧
  setting_sequence Example.unbound = None ∧
  actions Example.canvas_3 !! "unbound" =
    Some {| action_name := Some "toggle_axis"; action_description := None;
            sequence := {| modifiers := []; key := None |} |}.
Proof.
  split; [reflexivity|]. split; [reflexivity|].
  exact (proj1 (unbound_action_never_dispatched Example.env
                  _ _ _ _ _ _ _ _ _ _ _ _ "unbound" Example.unbound
                  init_canvas_3 eq_refl eq_refl eq_refl)).
Defined.

Lemma layout_application_witness :
  get_layout Example.canvas_1 = Some Example.preset_1 ∧
  __layout_views Example.env Example.canvas_1
  = (inr tt,
     assign_grid
       (Some [placement_of (AView GamutView)
                (view_preset_of (Example.view_at "gamut_view" 0 0 2 1));
              placement_of (AView ImageView)
                (view_preset_of (Example.view_at "image_view" 0 1 1 1));
              placement_of (AView ConsoleView)
                (view_preset_of (Example.view_at "console_view" 1 1 1 1))])
       Example.canvas_1) ∧
  get_layout (assign_layout (VStr "layout_9") Example.canvas_1) = None ∧
  __layout_views Example.env (assign_layout (VStr "layout_9") Example.canvas_1)
  = (inl (AttributeError "'NoneType' object has no attribute 'views'"),
     assign_grid (Some []) (assign_layout (VStr "layout_9") Example.canvas_1)).
Proof.
  assert (H1 : get_layout Example.canvas_1 = Some Example.preset_1)
    by (vm_compute; reflexivity).
  assert (H2 : views_built Example.canvas_1).
  { vm_compute. repeat split; by eexists. }
  assert (H3 : Forall (λ p, view p ∈ ["console_view"; "gamut_view";
                                      "image_view"; "diagram_view"])
                 (values (views Example.preset_1))).
  { refine (bool_decide_unpack _ _). vm_compute. exact I. }
  assert (H4 : get_layout (assign_layout (VStr "layout_9") Example.canvas_1)
               = None) by (vm_compute; reflexivity).
  split; [exact H1|]. split.
  - destruct (proj2 (layout_application Example.env Example.canvas_1)
                _ H1 H2 H3) as (g & Hrun & _).
    assert (Hg : __grid (snd (__layout_views Example.env Example.canvas_1))
                 = Some g) by (rewrite Hrun; apply grid_assign_grid).
    vm_compute in Hg. injection Hg as <-. exact Hrun.
  - split; [exact H4|].
    exact (proj1 (layout_application Example.env
                    (assign_layout (VStr "layout_9") Example.canvas_1)) H4).
Defined.

Lemma rgba_image_shape : has_shape Example.rgba_image 3 5 4.
Proof. split; [reflexivity|]. repeat constructor. Defined.

Lemma resample_factor_dimensions_witness :
  has_shape (read_image Example.env "rgba.exr") 3 5 4 ∧
  __input_resample Example.canvas_3 = VInt 2 ∧
  ∃ im, __create_image Example.env Example.canvas_3
        = (inr tt, assign_image (Some im) Example.canvas_3) ∧
        has_shape im ((3 + 1) / 2) ((5 + 1) / 2) (4 `min` 3).
Proof.
  split; [exact rgba_image_shape|]. split; [reflexivity|].
  destruct (proj2 (resample_factor_dimensions Example.env Example.canvas_3
                     "rgba.exr" Example.rgba_image 3 5 4
                     eq_refl eq_refl rgba_image_shape) eq_refl)
    as (im & Hrun & Hshape & _).
  exists im. by split.
Defined.

Lemma channel_count_and_resample_field_witness :
  (∃ im h' w', __create_image Example.env Example.canvas_1
               = (inr tt, assign_image (Some im) Example.canvas_1) ∧
               has_shape im h' w' (4 `min` 3)) ∧
  input_resample_setter (VInt (-2)) Example.canvas_1
  = (inr tt, assign_input_resample (VInt (-2)) Example.canvas_1).
Proof.
  split.
  - apply (proj1 (channel_count_and_resample_field Example.env)
             Example.canvas_1 "rgba.exr" Example.rgba_image (Some 1%Z) 3 5 4
             eq_refl eq_refl rgba_image_shape eq_refl).
    discriminate.
  - exact (proj2 (channel_count_and_resample_field Example.env)
             Example.canvas_1 (VInt (-2))).
Defined.

Lemma channel_count_and_resample_bound_fail :
  (fst (Example.construct "grey.exr" (VInt 1) Example.one_action) = inr tt ∧
   image Example.canvas_grey = Some Example.grey_image ∧
   has_shape Example.grey_image 2 2 1) ∧
  (fst (input_resample_setter (VInt 0) Example.canvas_1) = inr tt ∧
   input_resample (snd (input_resample_setter (VInt 0) Example.canvas_1))
   = VInt 0 ∧
   fst (input_resample_setter (VInt (-2)) Example.canvas_1) = inr tt ∧
   input_resample (snd (input_resample_setter (VInt (-2)) Example.canvas_1))
   = VInt (-2)).
Proof.
  split.
  - split; [vm_compute; reflexivity|]. split; [vm_compute; reflexivity|].
    split; [reflexivity|]. repeat constructor.
  - vm_compute. by repeat split.
Qed.

(** The chord of the settings is compared as it is written: only the
    event side is lowered, so a chord configured with a capital key is
    matched by no event. *)
Lemma capital_key_never_matches key' modifiers' name description ms :
  chord_matches (lower key') modifiers'
    {| action_name := name; action_description := description;
       sequence := {| modifiers := ms; key := Some "G" |} |} = false.
Proof.
  unfold chord_matches. cbn.
  rewrite bool_decide_eq_false_2; [done|].
  intros [= Hk]. destruct key' as [|c [|c' r]]; try discriminate.
  cbn in Hk. injection Hk as Hc.
  destruct c as [[] [] [] [] [] [] [] []]; vm_compute in Hc; discriminate.
Qed.

(** Construction with a layout name that is in no preset fails in
    [__layout_views], after the views have been built. *)
Lemma construction_with_unknown_layout :
  let r := Example.construct_with "rgba.exr" (VInt 1) "ACEScg" "layout_9"
             Example.one_action in
  fst r = inl (AttributeError "'NoneType' object has no attribute 'views'") ∧
  is_Some (gamut_view (snd r)) ∧ __grid (snd r) = Some [].
Proof. vm_compute. split; [done|]. split; [by eexists|done]. Qed.

(** * Further properties *)

(** ** [sorted] *)

Lemma ascii_compare_Lt_trans a b c :
  Ascii.compare a b = Lt → Ascii.compare b c = Lt → Ascii.compare a c = Lt.
Proof.
  unfold Ascii.compare. rewrite !N.compare_lt_iff. lia.
Qed.

Lemma string_leb_trans s1 s2 s3 :
  String.leb s1 s2 = true → String.leb s2 s3 = true → String.leb s1 s3 = true.
Proof.
  unfold String.leb. revert s2 s3.
  induction s1 as [|c1 s1 IH]; intros [|c2 s2] [|c3 s3]; cbn; try done.
  destruct (Ascii.compare c1 c2) eqn:H12; try done;
    destruct (Ascii.compare c2 c3) eqn:H23; try done.
  - apply Ascii.compare_eq_iff in H12 as ->, H23 as ->.
    assert (Ascii.compare c3 c3 = Eq) as ->
      by (unfold Ascii.compare; apply N.compare_refl).
    apply IH.
  - apply Ascii.compare_eq_iff in H12 as ->. by rewrite H23.
  - apply Ascii.compare_eq_iff in H23 as <-. by rewrite H12.
  - by rewrite (ascii_compare_Lt_trans _ _ _ H12 H23).
Qed.

Lemma string_le_trans : Transitive string_le.
Proof. intros s1 s2 s3. apply string_leb_trans. Qed.

Lemma string_le_antisym : AntiSymm eq string_le.
Proof. intros s1 s2. apply String.leb_antisym. Qed.

Lemma insert_sorted_Permutation x l : insert_sorted x l ≡ₚ x :: l.
Proof.
  induction l as [|y l IH]; [done|]. cbn.
  destruct (String.leb x y); [done|]. rewrite IH. apply Permutation_swap.
Qed.

Lemma sorted_Permutation l : sorted l ≡ₚ l.
Proof.
  induction l as [|x l IH]; [done|]. cbn.
  by rewrite insert_sorted_Permutation, IH.
Qed.

Lemma insert_sorted_Sorted x l :
  Sorted string_le l → Sorted string_le (insert_sorted x l).
Proof.
  induction l as [|y l IH]; intros Hl; [by repeat constructor|]. cbn.
  destruct (String.leb x y) eqn:Hxy.
  - constructor; [done|]. by constructor.
  - assert (Hyx : string_le y x).
    { destruct (String.leb_total x y) as [H|H]; [congruence|done]. }
    apply Sorted_inv in Hl as [Hl Hhd]. constructor; [by apply IH|].
    destruct l as [|z l]; cbn; [by constructor|].
    destruct (String.leb x z); constructor; [done|].
    by apply HdRel_inv in Hhd.
Qed.

Lemma sorted_Sorted l : Sorted string_le (sorted l).
Proof.
  induction l as [|x l IH]; [constructor|]. cbn. by apply insert_sorted_Sorted.
Qed.

(** [sorted] gives the same list for every arrangement of its input. *)
Lemma sorted_order_irrelevant l1 l2 : l1 ≡ₚ l2 → sorted l1 = sorted l2.
Proof.
  intros Hp.
  apply (@Sorted_unique _ string_le string_le_trans string_le_antisym);
    try apply sorted_Sorted.
  by rewrite !sorted_Permutation.
Qed.

Section KeyPress.
Context {sample : Type} (E : Env sample).
Implicit Types (self : Analysis sample).

Lemma dispatch_all_unmatched key' modifiers' registered self :
  Forall (λ a, chord_matches key' modifiers' a = false) registered →
  dispatch_all E key' modifiers' registered self = (inr tt, self).
Proof.
  intros Hall. revert self. induction Hall as [|a l Ha Hall IH]; intros self.
  - done.
  - unfold dispatch_all in *. cbn. rewrite Ha. apply IH.
Qed.

(** X15.  A key press that matches the chord of no registered action
    returns without raising and leaves the canvas as it was. *)
Theorem unmatched_key_press_is_noop ev self :
  (∀ name a, __actions self !! name = Some a →
     chord_matches (lower (event_key_name ev))
       (sorted (lower <$> event_modifier_names ev)) a = false) →
  on_key_press E ev self = (inr tt, self).
Proof.
  intros Hnone. unfold on_key_press.
  change ((get ≫= ?f) self) with (f self self). cbv beta.
  apply dispatch_all_unmatched. apply Forall_forall. intros a Ha.
  apply elem_of_values in Ha as [name Ha]. by apply (Hnone name).
Qed.

(** X16.  Two key events with the same key whose held modifiers are the
    same up to order are dispatched alike. *)
Theorem modifier_order_irrelevant ev ev' self :
  event_key_name ev = event_key_name ev' →
  event_modifier_names ev ≡ₚ event_modifier_names ev' →
  on_key_press E ev self = on_key_press E ev' self.
Proof.
  intros Hk Hm. unfold on_key_press. rewrite Hk.
  by rewrite (sorted_order_irrelevant (lower <$> event_modifier_names ev)
                (lower <$> event_modifier_names ev'))
    by (by apply fmap_Permutation).
Qed.

(** X17.  Two actions with the same key whose configured modifiers are
    the same up to order match the same key presses. *)
Theorem configured_modifier_order_irrelevant key' modifiers' a a' :
  key (sequence a) = key (sequence a') →
  modifiers (sequence a) ≡ₚ modifiers (sequence a') →
  chord_matches key' modifiers' a = chord_matches key' modifiers' a'.
Proof.
  intros Hk Hm. unfold chord_matches.
  by rewrite Hk, (sorted_order_irrelevant _ _ Hm).
Qed.
End KeyPress.

Section CycleEffects.
Context {sample : Type} (E : Env sample).
Implicit Types (self : Analysis sample).

Lemma times_invariant {A} (P : Analysis sample → Prop) (m : M sample A) :
  (∀ s r s', m s = (r, s') → P s → P s') →
  ∀ k s, P s → P (snd (times k m s)).
Proof.
  intros Hstep k. induction k as [|k IH]; intros s Hs; [done|].
  cbn. unfold mbind, M_bind.
  destruct (m s) as [[e|x] s1] eqn:Hm.
  - cbn. by eapply Hstep.
  - apply IH. by eapply Hstep.
Qed.

Lemma times_last {A} (Q : Analysis sample → Prop) (m : M sample A) :
  (∀ s x s', m s = (inr x, s') → Q s') →
  ∀ k s s', 0 < k → times k m s = (inr tt, s') → Q s'.
Proof.
  intros Hstep k. induction k as [|k IH]; intros s s' Hk Hrun; [lia|].
  cbn in Hrun. unfold mbind, M_bind in Hrun.
  destruct (m s) as [[e|x] s1] eqn:Hm; [done|].
  destruct k as [|k].
  - cbn in Hrun. injection Hrun as <-. by eapply Hstep.
  - eapply IH; [lia|done].
Qed.

Lemma cycle_correlate_step_frame self r self' :
  cycle_correlate_colourspace_action self = (r, self') →
  correlate_cycle_frame self self'.
Proof.
  destruct self as [? ? ? ? ? ? ? ? ? ? ? ? ? gv iv ? ? ? rc fc ? ? ?].
  unfold cycle_correlate_colourspace_action, next_of, setattr_view,
    correlate_cycle_frame; run.
  destruct rc as [c|]; run; [|by intros [= <- <-]].
  destruct (next c) as [e|[x c']]; run; [by intros [= <- <-]|].
  destruct gv; run; [|by intros [= <- <-]].
  destruct iv; run; by intros [= <- <-].
Qed.

Lemma cycle_reference_step_frame self r self' :
  cycle_reference_colourspace_action self = (r, self') →
  reference_cycle_frame self self'.
Proof.
  destruct self as [? ? ? ? ? ? ? ? ? ? ? ? ? gv iv ? ? ? rc fc ? ? ?].
  unfold cycle_reference_colourspace_action, next_of, setattr_view,
    reference_cycle_frame; run.
  destruct fc as [c|]; run; [|by intros [= <- <-]].
  destruct (next c) as [e|[x c']]; run; [by intros [= <- <-]|].
  destruct gv; run; by intros [= <- <-].
Qed.

Lemma times_cycle_frames k self :
  correlate_cycle_frame self
    (snd (times k cycle_correlate_colourspace_action self)) ∧
  reference_cycle_frame self
    (snd (times k cycle_reference_colourspace_action self)).
Proof.
  split.
  - apply (times_invariant (correlate_cycle_frame self)).
    + intros s r s' Hstep Hs. apply cycle_correlate_step_frame in Hstep.
      unfold correlate_cycle_frame in *. destruct_and!.
      repeat split; congruence.
    + by repeat split.
  - apply (times_invariant (reference_cycle_frame self)).
    + intros s r s' Hstep Hs. apply cycle_reference_step_frame in Hstep.
      unfold reference_cycle_frame in *. destruct_and!.
      repeat split; congruence.
    + by repeat split.
Qed.

(** X11.  Whatever the number of calls, and whether they return or raise,
    cycling the correlate colour space leaves the image, the reference
    selection, the input fields, the action registry and the console and
    diagram views as they were, and cycling the reference colour space
    leaves the image, the correlate selection, the input fields, the
    registry and the console, image and diagram views as they were: the
    image pipeline is never run again. *)
Theorem cycling_leaves_the_rest_alone k self :
  correlate_cycle_frame self
    (snd (times k cycle_correlate_colourspace_action self)) ∧
  reference_cycle_frame self
    (snd (times k cycle_reference_colourspace_action self)).
Proof. apply times_cycle_frames. Qed.

(** The views a cycle action assigns to hold the new value. *)
Lemma cycle_correlate_step_pushed self x self' :
  cycle_correlate_colourspace_action self = (inr x, self') →
  view_correlate_colourspace <$> gamut_view self'
    = Some (correlate_colourspace self') ∧
  view_correlate_colourspace <$> image_view self'
    = Some (correlate_colourspace self').
Proof.
  destruct self as [? ? ? ? ? ? ? ? ? ? ? ? ? gv iv ? ? ? rc fc ? ? ?].
  unfold cycle_correlate_colourspace_action, next_of, setattr_view; run.
  destruct rc as [c|]; run; [|done].
  destruct (next c) as [e|[y c']]; run; [done|].
  destruct gv; run; [|done].
  destruct iv; run; [|done]. by intros [= <- <-].
Qed.

Lemma cycle_reference_step_pushed self x self' :
  cycle_reference_colourspace_action self = (inr x, self') →
  view_reference_colourspace <$> gamut_view self'
    = Some (reference_colourspace self').
Proof.
  destruct self as [? ? ? ? ? ? ? ? ? ? ? ? ? gv iv ? ? ? rc fc ? ? ?].
  unfold cycle_reference_colourspace_action, next_of, setattr_view; run.
  destruct fc as [c|]; run; [|done].
  destruct (next c) as [e|[y c']]; run; [done|].
  destruct gv; run; [|done]. by intros [= <- <-].
Qed.

(** X12.  After any number [k ≥ 1] of calls of
    [cycle_correlate_colourspace_action] on a constructed canvas, the
    gamut view and the image view hold the correlate colour space of the
    canvas, and the diagram view still holds the one it was built with. *)
Theorem correlate_pushed_to_gamut_and_image_only
    p ics oecf lin res ref cor s lay s0 self k :
  __init__ E p ics oecf lin res ref cor (Some s) lay (blank s0)
  = (inr tt, self) →
  RGB_candidates E ≠ [] → 0 < k →
  let self' := snd (times k cycle_correlate_colourspace_action self) in
  view_correlate_colourspace <$> gamut_view self'
    = Some (correlate_colourspace self') ∧
  view_correlate_colourspace <$> image_view self'
    = Some (correlate_colourspace self') ∧
  view_correlate_colourspace <$> diagram_view self' = Some cor.
Proof.
  intros Hinit Hne Hk self'.
  pose proof (init_correlate_ready E _ _ _ _ _ _ _ _ _ _ _ Hinit) as Hr.
  destruct (correlate_after_ready _ self k Hne Hr) as [Hok _].
  destruct (times k cycle_correlate_colourspace_action self)
    as [r s1] eqn:Hrun. cbn in Hok. subst r. subst self'. cbn [snd].
  pose proof (times_last
    (λ s', view_correlate_colourspace <$> gamut_view s'
             = Some (correlate_colourspace s') ∧
           view_correlate_colourspace <$> image_view s'
             = Some (correlate_colourspace s'))
    cycle_correlate_colourspace_action cycle_correlate_step_pushed
    k self s1 Hk Hrun) as [Hg Hi].
  split; [done|]. split; [done|].
  destruct (times_cycle_frames k self) as [Hframe _].
  rewrite Hrun in Hframe. cbn in Hframe.
  destruct Hframe as (_ & _ & _ & _ & _ & _ & _ & -> & _).
  apply init_success in Hinit
    as (im & presets & g & i & l & d & _ & _ & _ & ->). done.
Qed.

(** X13.  On a canvas constructed with the reference colour space at
    position [i] of the registry of [N] names, every call of
    [cycle_reference_colourspace_action] returns, and after [k ≥ 1] calls
    the canvas and the gamut view both hold the name at position
    [(i + k) mod N] of the registry. *)
Theorem reference_pushed_to_gamut
    p ics oecf lin res ref cor s lay s0 self k :
  __init__ E p ics oecf lin res ref cor (Some s) lay (blank s0)
  = (inr tt, self) →
  0 < k →
  let registry := iter (REFERENCE_COLOURSPACES E) in
  let r := times k cycle_reference_colourspace_action self in
  ∃ name i x,
    text ref = Some name ∧ list_index name registry = Some i ∧
    registry !! ((i + k) mod length registry) = Some x ∧
    fst r = inr tt ∧
    reference_colourspace (snd r) = VStr x ∧
    view_reference_colourspace <$> gamut_view (snd r) = Some (VStr x).
Proof.
  intros Hinit Hk registry r.
  pose proof Hinit as Hinit'.
  apply init_success in Hinit'
    as (im & presets & g & i & l & d & HR & Hi & _ & Hself).
  cbn zeta in Hself. subst registry. rewrite HR. cbn [iter].
  destruct (text ref) as [name|] eqn:Hname; [|done]. cbn in Hi.
  pose proof (list_index_lookup _ _ _ Hi) as Hlookup.
  pose proof (lookup_lt_Some _ _ _ Hlookup) as Hlt.
  set (rotated := rotate (- Z.of_nat i - 1) l) in *.
  assert (Hlen : length rotated = length l) by (by apply rotate_past_length).
  assert (Hne : rotated ≠ []).
  { intros Hnil. rewrite Hnil in Hlen. cbn in Hlen. lia. }
  assert (Hready : reference_ready rotated 0 self).
  { subst self. exists (new_cycle rotated), 0. split; [done|].
    split; [apply new_cycle_at_position|]. split; [done|]. cbn. eauto. }
  destruct (reference_after_ready rotated self k Hne Hready)
    as [Hok (x & Hx & Hval)]; [done|].
  unfold reference_after in Hval. fold r in Hok, Hval.
  rewrite Hlen in Hx. unfold rotated in Hx.
  rewrite rotate_past_lookup in Hx
    by (try done; apply Nat.mod_upper_bound; lia).
  rewrite Nat.Div0.add_mod_idemp_r in Hx.
  replace (S i + (k - 1)) with (i + k) in Hx by lia.
  exists name, i, x. split; [done|]. split; [done|]. split; [done|].
  split; [done|]. split; [done|].
  destruct r as [res' s1] eqn:Hrun. cbn in Hok, Hval |- *. subst res'.
  rewrite <- Hval.
  exact (times_last _ cycle_reference_colourspace_action
           cycle_reference_step_pushed k self s1 Hk Hrun).
Qed.

(** X14.  On a constructed canvas whose registry holds no eligible
    candidate, [cycle_correlate_colourspace_action] raises
    [StopIteration] and leaves the canvas as it was. *)
Theorem correlate_cycle_without_candidates
    p ics oecf lin res ref cor s lay s0 self :
  __init__ E p ics oecf lin res ref cor (Some s) lay (blank s0)
  = (inr tt, self) →
  RGB_candidates E = [] →
  cycle_correlate_colourspace_action self = (inl StopIteration, self).
Proof.
  intros Hinit Hnil.
  apply init_success in Hinit
    as (im & presets & g & i & l & d & _ & _ & _ & ->).
  rewrite Hnil. reflexivity.
Qed.
End CycleEffects.

Ltac setter_cases v :=
  destruct v; run; repeat (case_match; run); try done; eauto.

Section Setters.
Context {sample : Type} (E : Env sample).
Implicit Types (self : Analysis sample).

Lemma mapping_contains_name v :
  None_or_name (in_RGB_COLOURSPACES E) v
  = negb (is_not_None v)
    || (type_in_str_unicode v && mapping_contains (RGB_COLOURSPACES E) v).
Proof.
  unfold in_RGB_COLOURSPACES, mapping_contains.
  destruct v; cbn; try done;
    case_bool_decide as Hin; destruct (getitem _ _) eqn:Hg; cbn; try done;
    try (by destruct Hin); by destruct Hin; eauto.
Qed.

Lemma setters_validate :
  validates (image_path_setter E) (None_or_name (os_path_exists E))
    assign_image_path ∧
  validates (input_colourspace_setter E) (None_or_name (in_RGB_COLOURSPACES E))
    assign_input_colourspace ∧
  validates (input_oecf_setter E) (None_or_name (in_RGB_COLOURSPACES E))
    assign_input_oecf ∧
  validates (correlate_colourspace_setter E)
    (None_or_name (in_RGB_COLOURSPACES E)) assign_correlate_colourspace ∧
  validates (reference_colourspace_setter E)
    (None_or_name (in_REFERENCE_COLOURSPACES E)) assign_reference_colourspace ∧
  validates (sample := sample) input_linear_setter None_or_bool
    assign_input_linear ∧
  validates (sample := sample) layout_setter (None_or_name (λ _, true))
    assign_layout.
Proof.
  assert (HRGB : ∀ (setter : value → M sample unit) assign what,
    (∀ v, setter v =
      ((if is_not_None v then
          py_assert (type_in_str_unicode v) (inr (what v).1);;
          py_assert (mapping_contains (RGB_COLOURSPACES E) v)
            (inr (what v).2)
        else mret tt);;
       modify (assign v))) →
    validates setter (None_or_name (in_RGB_COLOURSPACES E)) assign).
  { intros setter assign what Hdef v self. rewrite Hdef, mapping_contains_name.
    destruct (is_not_None v); run; [|done].
    destruct (type_in_str_unicode v); run; [|eauto].
    destruct (mapping_contains _ v); run; eauto. }
  repeat split.
  - intros v self. unfold image_path_setter. setter_cases v.
  - apply (HRGB _ _ (λ v, (not_str_message "input_colourspace" v,
      not_found_message v
        " colourspace not found in factory RGB colourspaces: "
        (mapping_keys (RGB_COLOURSPACES E))))). done.
  - apply (HRGB _ _ (λ v, (not_str_message "input_oecf" v,
      not_found_message v
        " OECF is not associated with any factory RGB colourspaces: "
        (mapping_keys (RGB_COLOURSPACES E))))). done.
  - apply (HRGB _ _ (λ v, (not_str_message "correlate_colourspace" v,
      not_found_message v
        " colourspace not found in factory RGB colourspaces: "
        (mapping_keys (RGB_COLOURSPACES E))))). done.
  - intros v self. unfold reference_colourspace_setter, contains,
      in_REFERENCE_COLOURSPACES.
    destruct v; run; try done; eauto;
      case_bool_decide; run; try done;
      destruct (keys _); run; eauto.
  - intros v self. unfold input_linear_setter. setter_cases v.
  - intros v self. unfold layout_setter. setter_cases v.
Qed.
(** X1.  Each validating setter either makes its one assignment or
    raises and leaves the object as it was.  [image_path] accepts [None]
    and the strings naming an existing file; the three RGB fields accept
    [None] and the names in the RGB registry; [reference_colourspace]
    accepts [None] and the names in the reference registry;
    [input_linear] accepts [None] and booleans; [layout] accepts [None]
    and any string, whether or not a preset has that name. *)
Theorem validating_setters :
  validates (image_path_setter E) (None_or_name (os_path_exists E))
    assign_image_path ∧
  validates (input_colourspace_setter E) (None_or_name (in_RGB_COLOURSPACES E))
    assign_input_colourspace ∧
  validates (input_oecf_setter E) (None_or_name (in_RGB_COLOURSPACES E))
    assign_input_oecf ∧
  validates (correlate_colourspace_setter E)
    (None_or_name (in_RGB_COLOURSPACES E)) assign_correlate_colourspace ∧
  validates (reference_colourspace_setter E)
    (None_or_name (in_REFERENCE_COLOURSPACES E)) assign_reference_colourspace ∧
  validates (sample := sample) input_linear_setter None_or_bool
    assign_input_linear ∧
  validates (sample := sample) layout_setter (None_or_name (λ _, true))
    assign_layout.
Proof. exact setters_validate. Qed.
End Setters.

Section Construction.
Context {sample : Type} (E : Env sample).
Implicit Types (self : Analysis sample).

Lemma foldl_ext_in {A B} (f g : B → A → B) (l : list A) (b : B) :
  (∀ b x, f b x = g b x) → foldl f b l = foldl g b l.
Proof.
  intros Hfg. revert b. induction l as [|x l IH]; intros b; [done|].
  cbn. by rewrite Hfg, IH.
Qed.

Lemma create_layout_presets_table self :
  __layout_presets self = ∅ →
  __create_layout_presets self =
  (inr tt,
   assign_layout_presets (presets_of (settings_layouts (__settings self)))
     self).
Proof.
  intros Hempty. unfold __create_layout_presets. run.
  rewrite (for_each_ext _ _
    (λ l, modify (λ s, assign_layout_presets
       (<[setting_layout_name l := preset_of l]> (__layout_presets s)) s))).
  - rewrite (for_each_assign_layout_presets
      (λ l acc, <[setting_layout_name l := preset_of l]> acc)).
    by rewrite Hempty.
  - intros l. unfold preset_of.
    rewrite <- (foldl_insert_fmap view_preset_of (setting_views l)).
    rewrite (foldl_ext_in _
      (λ (acc : dict ViewPreset) (x : string * view_setting),
         <[x.1 := view_preset_of x.2]> acc)); [done|].
    by intros acc [name v].
Qed.

Lemma presets_of_snoc layouts l :
  presets_of (layouts ++ [l])
  = <[setting_layout_name l := preset_of l]> (presets_of layouts).
Proof. unfold presets_of. by rewrite foldl_app. Qed.

(** Looking a name up in the table gives the preset of the last layout
    of that name. *)
Lemma presets_table_lookup layouts name :
  presets_of layouts !! name
  = preset_of <$>
      last (filter (λ l, setting_layout_name l = name) layouts).
Proof.
  induction layouts as [|l layouts IH] using rev_ind; [done|].
  rewrite presets_of_snoc, filter_app, filter_cons, filter_nil.
  destruct (decide (setting_layout_name l = name)) as [<-|Hne].
  - by rewrite dict_lookup_insert_eq, last_snoc.
  - by rewrite dict_lookup_insert_ne, app_nil_r.
Qed.

Lemma validates_inr setter accepts assign v self x self' :
  validates setter accepts assign →
  setter v self = (inr x, self') →
  accepts v = true ∧ self' = assign v self.
Proof.
  intros Hval Hrun. specialize (Hval v self).
  destruct (accepts v).
  - rewrite Hval in Hrun. by injection Hrun as <-.
  - destruct Hval as [e He]. congruence.
Qed.

Lemma resample_zero (image : ndarray sample) :
  resample (Some 0%Z) image = inl (ValueError "slice step cannot be zero").
Proof. done. Qed.

Lemma create_image_inr_full self x self' :
  __create_image E self = (inr x, self') →
  ∃ path linear step im,
    text (__image_path self) = Some path ∧
    linearise E (__input_linear self) (__input_oecf self) (read_image E path)
      = inr linear ∧
    step_of (__input_resample self) = inr step ∧ step ≠ Some 0%Z ∧
    resample step (first_three_channels linear) = inr im ∧
    self' = assign_image (Some im) self.
Proof.
  unfold __create_image. intros H. run_in H.
  destruct (text (__image_path self)) as [path|]; run_in H; [|done].
  destruct (linearise E _ _ _) as [e|linear] eqn:Hlin; run_in H; [done|].
  destruct (step_of _) as [e|step] eqn:Hstep; run_in H; [done|].
  destruct (resample step _) as [e|im] eqn:Hres; run_in H; [done|].
  injection H as <-. exists path, linear, step, im.
  repeat split; try done. intros ->. by rewrite resample_zero in Hres.
Qed.

(** A layout that was applied names attributes of the canvas only. *)
Lemma for_each_place_hasattr l self g x self' :
  __grid self = Some g →
  for_each l (place E) self = (inr x, self') →
  Forall (λ p, hasattr E (view p) = true) l.
Proof.
  revert self g. induction l as [|p l IH]; intros self g Hg Hrun; [constructor|].
  cbn in Hrun. apply bind_inr in Hrun as (? & s1 & Hp & Hrun).
  destruct (place_grid E p self g Hg) as [[e He]|(r1 & w & Hp' & Hget)];
    [congruence|].
  constructor.
  - pose proof (getattr_hasattr E (view p) self) as Hhas.
    destruct (hasattr E (view p)); [done|congruence].
  - rewrite Hp' in Hp. injection Hp as _ <-.
    eapply IH; [apply grid_assign_grid|done].
Qed.

Lemma layout_views_inr_full self x self' :
  __layout_views E self = (inr x, self') →
  ∃ lp g, get_layout self = Some lp ∧
          Forall (λ p, hasattr E (view p) = true) (values (views lp)) ∧
          self' = assign_grid (Some g) self.
Proof.
  intros H. pose proof H as H'. unfold __layout_views in H'. run_in H'.
  rewrite get_layout_assign_grid in H'.
  destruct (get_layout self) as [lp|] eqn:Hlp; [|done].
  pose proof (for_each_place_hasattr _ _ [] _ _ (grid_assign_grid _ _) H')
    as Hall.
  apply layout_views_inr in H as [g ->]. by exists lp, g.
Qed.

(** The object a successful constructor call leaves behind, and what the
    arguments of the call satisfy. *)
Lemma init_success_full p ics oecf lin res ref cor s lay s0 self :
  __init__ E p ics oecf lin res ref cor (Some s) lay (blank s0)
  = (inr tt, self) →
  ∃ path linear step im lp g i l d,
    (text p = Some path ∧ os_path_exists E path = true) ∧
    (None_or_name (in_RGB_COLOURSPACES E) ics = true ∧
     None_or_name (in_RGB_COLOURSPACES E) oecf = true ∧
     None_or_name (in_RGB_COLOURSPACES E) cor = true ∧
     None_or_bool lin = true ∧
     None_or_name (λ _, true) lay = true) ∧
    (REFERENCE_COLOURSPACES E = PyTuple l ∧
     (text ref ≫= λ r, list_index r l) = Some i) ∧
    settings_actions s = Some d ∧
    (linearise E lin oecf (read_image E path) = inr linear ∧
     step_of res = inr step ∧ step ≠ Some 0%Z ∧
     resample step (first_three_channels linear) = inr im) ∧
    ((text lay ≫= λ n, presets_of (settings_layouts s) !! n) = Some lp ∧
     Forall (λ q, hasattr E (view q) = true) (values (views lp))) ∧
    __image self = Some im ∧ __grid self = Some g ∧
    __layout_presets self = presets_of (settings_layouts s).
Proof.
  destruct (setters_validate E)
    as (Vpath & Vics & Voecf & Vcor & Vref & Vlin & Vlay).
  unfold __init__. intros H.
  repeat
    (let H1 := fresh "H" in
     apply bind_inr in H as (? & ? & H1 & H);
     first
       [ apply modify_inr in H1
       | apply (validates_inr _ _ _ _ _ _ _ Vpath) in H1 as [Hpath ?]
       | apply image_setter_inr in H1
       | apply (validates_inr _ _ _ _ _ _ _ Vics) in H1 as [Hics ?]
       | apply (validates_inr _ _ _ _ _ _ _ Voecf) in H1 as [Hoecf ?]
       | apply (validates_inr _ _ _ _ _ _ _ Vlin) in H1 as [Hlin ?]
       | apply input_resample_setter_inr in H1
       | apply (validates_inr _ _ _ _ _ _ _ Vref) in H1 as [Href ?]
       | apply (validates_inr _ _ _ _ _ _ _ Vcor) in H1 as [Hcor ?]
       | apply (validates_inr _ _ _ _ _ _ _ Vlay) in H1 as [Hlay ?]
       | apply get_inr in H1 as [? ?]
       | apply ret_inr in H1 as [? ?]
       | apply lift_inr in H1 as [[= <-] ?]
       | apply lift_inr in H1 as [Hindex ?]
       | (rewrite create_layout_presets_table in H1 by (subst; done);
          injection H1 as _ ?)
       | apply create_views_inr in H1
       | apply create_actions_inr in H1 as (? & Hactions & ?)
       | apply create_image_inr_full in H1
           as (path & linear & step & im & Hp & Hlinear & Hstep & Hnz & Hres & ?)
       | apply layout_views_inr_full in H1 as (lp & g & Hlp & Hall & ?)
       | idtac ];
     subst; cbn in * |-).
  apply modify_inr in H. subst self.
  apply index_inr in Hindex as (l & Hl & Hi).
  rewrite Hl in *. cbn in *.
  exists path, linear, step, im, lp, g. eexists _, _, _.
  split; [split; [done|]|].
  { destruct p; try done; cbn in Hp, Hpath; congruence. }
  split; [done|]. split; [split; [done|exact Hi]|].
  split; [eassumption|]. split; [done|]. split; [done|]. done.
Qed.
End Construction.

Section PipelineFacts.
Context {sample : Type}.
Implicit Types (image : ndarray sample).

Lemma first_three_channels_map (f : sample → sample) image :
  first_three_channels (map (map (map f)) image)
  = map (map (map f)) (first_three_channels image).
Proof.
  unfold first_three_channels. rewrite !map_map. apply map_ext. intros r.
  rewrite !map_map. apply map_ext. intros px.
  change (map f px) with (f <$> px). change (map f (take 3 px)) with (f <$> take 3 px).
  by rewrite fmap_take.
Qed.

Lemma decimate_map (f : sample → sample) n image :
  map (stride n) (stride n (map (map (map f)) image))
  = map (map (map f)) (map (stride n) (stride n image)).
Proof.
  unfold stride, ndarray in *. rewrite stride_from_map, !map_map.
  apply map_ext. intros r. by rewrite stride_from_map.
Qed.

Lemma mirror_map (f : sample → sample) image :
  map (@rev _) (rev (map (map (map f)) image))
  = map (map (map f)) (map (@rev _) (rev image)).
Proof.
  unfold ndarray in *. rewrite <- map_rev, !map_map. apply map_ext. intros r.
  by rewrite map_rev.
Qed.

Lemma resample_None image : resample None image = inr image.
Proof.
  unfold resample. cbn. by rewrite (map_result_inr _ id), map_id.
Qed.

(** Decimation and the cropping of channels commute with a function
    applied to every sample. *)
Lemma resample_map (f : sample → sample) step image :
  resample step (map (map (map f)) image)
  = match resample step image with
    | inl e => inl e
    | inr image' => inr (map (map (map f)) image')
    end.
Proof.
  destruct step as [z|]; [|by rewrite !resample_None].
  destruct (Z.lt_trichotomy z 0) as [Hneg|[->|Hpos]]; [| |].
  - replace z with (- Z.of_nat (Z.to_nat (- z)))%Z by lia.
    rewrite !resample_negative by lia. by rewrite mirror_map, decimate_map.
  - done.
  - replace z with (Z.of_nat (Z.to_nat z)) by lia.
    rewrite !resample_positive by lia. by rewrite decimate_map.
Qed.

Lemma rev_lookup {A} (l : list A) i :
  i < length l → rev l !! i = l !! (length l - S i).
Proof. intros Hi. rewrite rev_alt. by apply reverse_lookup. Qed.

Lemma pixel_at_mirror image h w c i j :
  has_shape image h w c → i < h → j < w →
  pixel_at (map (@rev _) (rev image)) i j
  = pixel_at image (h - S i) (w - S j).
Proof.
  intros [Hh Hrows] Hi Hj. unfold pixel_at, ndarray in *.
  rewrite lookup_map, rev_lookup by lia. rewrite Hh.
  destruct (image !! (h - S i)) as [r|] eqn:Hr; [|done]. cbn.
  assert (Hw : length r = w).
  { eapply Forall_lookup_1 in Hrows; [|done]. by destruct Hrows. }
  rewrite rev_lookup by lia. by rewrite Hw.
Qed.
End PipelineFacts.

Section Pipeline.
Context {sample : Type} (E : Env sample).
Implicit Types (self : Analysis sample).

(** X7.  With a positive resample factor [n] the pipeline stores an image
    of height [ceil (h / n)] and width [ceil (w / n)] with at most three
    channels, whose pixel [(i, j)] is pixel [(i n, j n)] of the linearised
    image. *)
Theorem resample_every_nth self path linear h w c (n : nat) :
  text (__image_path self) = Some path →
  linearise E (__input_linear self) (__input_oecf self) (read_image E path)
    = inr linear →
  has_shape (read_image E path) h w c →
  0 < n →
  __input_resample self = VInt (Z.of_nat n) →
  ∃ im, __create_image E self = (inr tt, assign_image (Some im) self) ∧
        has_shape im ((h + n - 1) / n) ((w + n - 1) / n) (c `min` 3) ∧
        ∀ i j, pixel_at im i j =
               pixel_at (first_three_channels linear) (i * n) (j * n).
Proof.
  intros Hpath Hlin Hshape Hn Hres.
  pose proof (has_shape_first_three_channels _ _ _ _
                (linearise_shape _ _ _ _ _ _ _ _ Hlin Hshape)) as Hrgb.
  rewrite (create_image_run E self path linear (Some (Z.of_nat n)) Hpath Hlin)
    by (by rewrite Hres).
  rewrite (resample_positive n) by done.
  eexists. split; [done|]. split; [by apply has_shape_stride|].
  intros i j. by apply pixel_at_stride.
Qed.

(** X8.  With resample factor 0 the pipeline raises (the slice step
    cannot be zero) and stores nothing; with [None] it stores the image
    at full size; with -1 it stores the image with rows and columns in
    reverse order. *)
Theorem resample_edge_steps self path linear h w c :
  text (__image_path self) = Some path →
  linearise E (__input_linear self) (__input_oecf self) (read_image E path)
    = inr linear →
  has_shape (read_image E path) h w c →
  (__input_resample self = VInt 0 →
     __create_image E self
     = (inl (ValueError "slice step cannot be zero"), self)) ∧
  (__input_resample self = VNone →
     __create_image E self
     = (inr tt, assign_image (Some (first_three_channels linear)) self)) ∧
  (__input_resample self = VInt (-1) →
     ∃ im, __create_image E self = (inr tt, assign_image (Some im) self) ∧
           has_shape im h w (c `min` 3) ∧
           ∀ i j, i < h → j < w →
             pixel_at im i j
             = pixel_at (first_three_channels linear) (h - S i) (w - S j)).
Proof.
  intros Hpath Hlin Hshape.
  pose proof (has_shape_first_three_channels _ _ _ _
                (linearise_shape _ _ _ _ _ _ _ _ Hlin Hshape)) as Hrgb.
  split; [|split]; intros Hres.
  - by rewrite (create_image_run E self path linear (Some 0%Z) Hpath Hlin)
      by (by rewrite Hres).
  - rewrite (create_image_run E self path linear None Hpath Hlin)
      by (by rewrite Hres).
    by rewrite resample_None.
  - rewrite (create_image_run E self path linear (Some (-1)%Z) Hpath Hlin)
      by (by rewrite Hres).
    change (-1)%Z with (- Z.of_nat 1)%Z. rewrite resample_negative by lia.
    rewrite (map_ext _ id) by apply stride_1. rewrite map_id, stride_1.
    eexists. split; [done|]. split; [by apply has_shape_rev|].
    intros i j Hi Hj. by apply (pixel_at_mirror _ h w (c `min` 3)).
Qed.

(** X9.  When the input is not linear, the image stored is the decoded
    image cropped to three channels and decimated, with the inverse
    transfer function of the OECF applied to every sample that is kept:
    linearising before or after the decimation gives the same image. *)
Theorem linearisation_after_decimation self path colourspace step :
  text (__image_path self) = Some path →
  truthy (__input_linear self) = false →
  (text (__input_oecf self) ≫= getitem (RGB_COLOURSPACES E))
    = Some colourspace →
  step_of (__input_resample self) = inr step →
  __create_image E self =
  match resample step (first_three_channels (read_image E path)) with
  | inl e => (inl e, self)
  | inr im =>
      (inr tt,
       assign_image
         (Some (map (map (map (inverse_transfer_function colourspace))) im))
         self)
  end.
Proof.
  intros Hpath Hlin Hcs Hstep.
  rewrite (create_image_run E self path
             (map (map (map (inverse_transfer_function colourspace)))
                (read_image E path)) step Hpath); [| |done].
  - rewrite first_three_channels_map, resample_map.
    by destruct (resample step _).
  - unfold linearise, RGB_COLOURSPACES_getitem. rewrite Hlin. cbn.
    destruct (text (__input_oecf self)) as [n|]; [|done].
    cbn in Hcs. by rewrite Hcs.
Qed.
End Pipeline.

Section LayoutFacts.
Context {sample : Type} (E : Env sample).
Implicit Types (self : Analysis sample).


End LayoutFacts.

Section ConstructionRequires.
Context {sample : Type} (E : Env sample).
Implicit Types (self : Analysis sample).

Lemma list_index_elem_of_inv r l i : list_index r l = Some i → r ∈ l.
Proof.
  intros Hi. apply list_index_lookup in Hi. by eapply list_elem_of_lookup_2.
Qed.

Lemma linearise_inr_inv lin oecf decoded linear :
  linearise E lin oecf decoded = inr linear →
  truthy lin = true ∨ oecf ≠ VNone.
Proof.
  unfold linearise. destruct (truthy lin); cbn; [eauto|].
  destruct oecf; try done; eauto.
Qed.

(** X2.  A call of the constructor returns only if: the image path is a
    string naming an existing file; the input colour space, the OECF and
    the correlate colour space are each [None] or in the RGB registry;
    the linearity flag is [None] or a boolean, and the OECF is not [None]
    unless the flag is true; the resample factor is [None] or a non-zero
    integer; the reference colour space is a name of the reference
    registry, which is a sequence; settings are given and have an actions
    entry; and the layout names a preset all of whose view identifiers
    are attributes of the canvas. *)
Theorem construction_requires p ics oecf lin res ref cor settings' lay s0 self :
  __init__ E p ics oecf lin res ref cor settings' lay (blank s0)
  = (inr tt, self) →
  constructible E p ics oecf lin res ref cor settings' lay.
Proof.
  intros Hinit. destruct settings' as [s|]; [|done].
  apply init_success_full in Hinit
    as (path & linear & step & im & lp & g & i & l & d
        & [Hp Hex] & (Hics & Hoecf & Hcor & Hlin & Hlay) & [HR Hi]
        & Hd & (Hlinear & Hstep & Hnz & Hres) & [Hlp Hall] & _).
  unfold constructible.
  split; [eauto|]. do 4 (split; [done|]).
  split; [by eapply linearise_inr_inv|].
  split.
  { destruct res; try done; [by left|]. right. injection Hstep as <-.
    eexists. split; [done|]. congruence. }
  split.
  { destruct (text ref) as [r|]; [|done]. cbn in Hi.
    exists l, r. split; [done|]. split; [done|].
    by eapply list_index_elem_of_inv. }
  exists s. split; [done|]. split; [eauto|].
  destruct (text lay) as [name|]; [|done]. cbn in Hlp.
  by exists name, lp.
Qed.
End ConstructionRequires.

Section MoreConstruction.
Context {sample : Type} (E : Env sample).
Implicit Types (self : Analysis sample).

(** X21.  Called without settings, which is the default of the
    argument, the constructor raises a type error at once, whatever the
    other arguments are: the arguments of the base class subscript the
    settings before anything is assigned, and the settings file is never
    read. *)
Theorem construction_without_settings p ics oecf lin res ref cor lay self :
  ∃ message,
    __init__ E p ics oecf lin res ref cor None lay self
    = (inl (TypeError message), self).
Proof. by eexists. Qed.

(** X3.  With an image path that names no existing file the constructor
    raises the assertion error of the path, with no image loaded and no
    view built. *)
Theorem missing_image_aborts_construction
    p path ics oecf lin res ref cor s lay s0 :
  text p = Some path → os_path_exists E path = false →
  let r := __init__ E p ics oecf lin res ref cor (Some s) lay (blank s0) in
  fst r = inl (AssertionError (not_exists_message p)) ∧
  image (snd r) = None ∧
  console_view (snd r) = None ∧ gamut_view (snd r) = None ∧
  image_view (snd r) = None ∧ diagram_view (snd r) = None.
Proof.
  intros Hp Hex. unfold __init__, image_path_setter.
  destruct p; try done; cbn in Hp; injection Hp as ->; run; by rewrite Hex.
Qed.

(** X4.  A constructed canvas holds the selections it was given, and its
    four views exist whatever the layout: the gamut, image and diagram
    views hold the image of the canvas and its colour-space selections. *)
Theorem constructed_views_share_state
    p ics oecf lin res ref cor s lay s0 self :
  __init__ E p ics oecf lin res ref cor (Some s) lay (blank s0)
  = (inr tt, self) →
  ∃ im gv iv dv,
    image self = Some im ∧
    (input_colourspace self = ics ∧ input_oecf self = oecf ∧
     reference_colourspace self = ref ∧ correlate_colourspace self = cor) ∧
    is_Some (console_view self) ∧
    (gamut_view self = Some gv ∧ view_image gv = Some im ∧
     view_input_colourspace gv = ics ∧ view_reference_colourspace gv = ref ∧
     view_correlate_colourspace gv = cor) ∧
    (image_view self = Some iv ∧ view_image iv = Some im ∧
     view_oecf iv = oecf ∧ view_input_colourspace iv = ics ∧
     view_correlate_colourspace iv = cor) ∧
    (diagram_view self = Some dv ∧ view_image dv = Some im ∧
     view_oecf dv = oecf ∧ view_input_colourspace dv = ics ∧
     view_correlate_colourspace dv = cor).
Proof.
  intros Hinit.
  apply init_success in Hinit
    as (im & presets & g & i & l & d & _ & _ & _ & ->).
  cbn. eexists im, _, _, _. repeat split; eauto.
Qed.

(** X6.  [__create_actions] replaces the registry by one action per entry
    of the settings, under the key of the entry; when the settings have
    no actions entry it raises and leaves the registry empty. *)
Theorem create_actions_registry self :
  match settings_actions (__settings self) with
  | Some entries =>
      ∃ self', __create_actions self = (inr tt, self') ∧
               ∀ name, actions self' !! name = action_of <$> entries !! name
  | None =>
      __create_actions self
      = (inl (AttributeError "'tuple' object has no attribute 'items'"),
         assign_actions ∅ self)
  end.
Proof.
  destruct (settings_actions (__settings self)) as [entries|] eqn:Hentries.
  - eexists. split; [by apply create_actions_run|].
    intros name. unfold actions. rewrite <- dict_lookup_fmap. by destruct self.
  - unfold __create_actions. run.
    replace (settings_actions (__settings (assign_actions ∅ self)))
      with (@None (dict action_setting)) by (by destruct self).
    done.
Qed.

(** X5.  [__create_layout_presets], run on an empty table, never fails,
    and afterwards a name is bound to the preset of the last layout of
    the settings with that name, with one view preset per view of that
    layout. *)
Theorem layout_presets_last_wins self :
  __layout_presets self = ∅ →
  ∃ self',
    __create_layout_presets self = (inr tt, self') ∧
    ∀ name,
      __layout_presets self' !! name
      = preset_of <$>
          last (filter (λ l, setting_layout_name l = name)
                  (settings_layouts (__settings self))).
Proof.
  intros Hempty. eexists. split; [by apply create_layout_presets_table|].
  intros name. rewrite <- presets_table_lookup. by destruct self.
Qed.

(** X18.  A dispatch calls the handler of the canvas first, if it has
    one.  If that handler raises, its exception is passed on and no view is
    called.  Otherwise the views of the tuple that have a handler are
    called in the order of the tuple, each once, up to and including the
    first whose handler raises, and the dispatch returns what that loop
    returns; a view that was called is left as its handler made it, and a
    view that was not called is left as it was. *)
Theorem dispatch_calls a vs self :
  __views self = Some vs → NoDup vs →
  let method := action_method a in
  let r := dispatch E a self in
  let then_views s1 :=
    let out := view_outcome E method s1 in
    fst r = result_of out vs ∧
    trace (snd r) = trace s1 ++ calls_of method (OnView <$> called out vs) ∧
    ∀ k, view_attribute k (snd r)
         = if decide (k ∈ called out vs) then snd <$> out k
           else view_attribute k s1 in
  match getattr_method method with
  | Some h =>
      match h (assign_trace (trace self ++ [(Canvas, method)]) self) with
      | (inl e, s1) =>
          r = (inl e, s1) ∧ trace s1 = trace self ++ [(Canvas, method)]
      | (inr _, s1) =>
          trace s1 = trace self ++ [(Canvas, method)] ∧ then_views s1
      end
  | None => then_views self
  end.
Proof.
  intros Hvs Hnd method r then_views. subst r then_views. cbn beta.
  rewrite (dispatch_run E a vs self Hvs). fold method.
  destruct (getattr_method method) as [h|] eqn:Hh.
  - pose proof (handler_frame method h
      (assign_trace (trace self ++ [(Canvas, method)]) self) Hh)
      as (Ht & _ & _).
    rewrite trace_assign_trace in Ht.
    destruct (h _) as [[e|b] s1]; cbn in Ht; [done|].
    split; [done|]. apply (view_loop_run E method vs s1 Hnd).
  - apply (view_loop_run E method vs self Hnd).
Qed.

(** X19.  No key press on a constructed canvas calls a handler of the
    diagram view. *)
Theorem key_press_never_reaches_diagram_view
    p ics oecf lin res ref cor s lay s0 self ev method :
  __init__ E p ics oecf lin res ref cor (Some s) lay (blank s0)
  = (inr tt, self) →
  (OnView DiagramView, method) ∉ trace (snd (on_key_press E ev self)).
Proof. apply diagram_view_never_called. Qed.
End MoreConstruction.

Section KeyPressFrame.
Context {sample : Type} (E : Env sample).
Implicit Types (self : Analysis sample).

(** X20.  On a canvas with the tuple of views the constructor builds,
    which no key press changes, no key press, whatever it dispatches and
    whether or not a handler raises, changes the image, the image path,
    the input fields, the settings, the layout and its presets, the action
    registry, the grid or the diagram view: the handlers of the canvas
    assign to none of them, and a handler of a view acts on its view. *)
Theorem key_press_leaves_image_and_registry ev self :
  __views self = Some [ConsoleView; GamutView; ImageView] →
  key_press_frame self (snd (on_key_press E ev self)).
Proof.
  intros Hvs. unfold on_key_press.
  change ((get ≫= ?f) self) with (f self self). cbv beta.
  apply (dispatch_all_invariant E _ _ _ _ self Hvs). set_solver.
Qed.
End KeyPressFrame.

(** * The further properties on concrete objects *)

Lemma init_alias_canvas :
  __init__ Example2.alias_env (VStr "rgba.exr") (VStr "aces") (VStr "aces")
    (VBool true) (VInt 1) (VStr "CIE xyY") (VStr "prophoto")
    (Some Example.one_action) (VStr "layout_1") (blank Example.one_action)
  = (inr tt, Example2.alias_canvas).
Proof. vm_compute. reflexivity. Defined.

Lemma unmatched_key_press_is_noop_witness :
  Forall (λ a,
     chord_matches (lower (event_key_name Example2.plain_z))
       (sorted (lower <$> event_modifier_names Example2.plain_z)) a = false)
    (values (__actions Example.canvas_3)) ∧
  on_key_press Example.env Example2.plain_z Example.canvas_3
  = (inr tt, Example.canvas_3).
Proof.
  assert (H : Forall (λ a,
     chord_matches (lower (event_key_name Example2.plain_z))
       (sorted (lower <$> event_modifier_names Example2.plain_z)) a = false)
    (values (__actions Example.canvas_3))).
  { refine (bool_decide_unpack _ _). vm_compute. exact I. }
  split; [exact H|].
  apply (unmatched_key_press_is_noop Example.env Example2.plain_z
           Example.canvas_3).
  intros name a Ha. apply (proj1 (Forall_forall _ _) H).
  apply elem_of_values. by exists name.
Defined.

Lemma modifier_order_irrelevant_witness :
  event_modifier_names Example2.control_shift_g
    ≡ₚ event_modifier_names Example2.shift_control_g ∧
  on_key_press Example.env Example2.control_shift_g Example.canvas_3
  = on_key_press Example.env Example2.shift_control_g Example.canvas_3.
Proof.
  assert (H : event_modifier_names Example2.control_shift_g
              ≡ₚ event_modifier_names Example2.shift_control_g)
    by apply perm_swap.
  split; [exact H|].
  exact (modifier_order_irrelevant Example.env Example2.control_shift_g
           Example2.shift_control_g Example.canvas_3 eq_refl H).
Defined.

Lemma configured_modifier_order_irrelevant_witness :
  chord_matches "g" ["control"; "shift"]
    {| action_name := Some "a"; action_description := None;
       sequence := {| modifiers := ["shift"; "control"]; key := Some "g" |} |}
  = chord_matches "g" ["control"; "shift"]
    {| action_name := Some "a"; action_description := None;
       sequence := {| modifiers := ["control"; "shift"]; key := Some "g" |} |}.
Proof.
  exact (configured_modifier_order_irrelevant "g" ["control"; "shift"]
           {| action_name := Some "a"; action_description := None;
              sequence := {| modifiers := ["shift"; "control"];
                             key := Some "g" |} |}
           {| action_name := Some "a"; action_description := None;
              sequence := {| modifiers := ["control"; "shift"];
                             key := Some "g" |} |}
           eq_refl (perm_swap _ _ _)).
Defined.

Lemma correlate_pushed_to_gamut_and_image_only_witness :
  view_correlate_colourspace
    <$> gamut_view (snd (times 2 cycle_correlate_colourspace_action
                           Example.canvas_3))
  = Some (correlate_colourspace
            (snd (times 2 cycle_correlate_colourspace_action
                    Example.canvas_3))) ∧
  view_correlate_colourspace
    <$> diagram_view (snd (times 2 cycle_correlate_colourspace_action
                             Example.canvas_3))
  = Some (VStr "ACEScg").
Proof.
  assert (Hne : RGB_candidates Example.env ≠ []) by (vm_compute; discriminate).
  destruct (correlate_pushed_to_gamut_and_image_only Example.env
              _ _ _ _ _ _ _ _ _ _ Example.canvas_3 2
              init_canvas_3 Hne (Nat.lt_0_succ 1)) as (Hg & _ & Hd).
  by split.
Defined.

Lemma reference_pushed_to_gamut_witness :
  let r := times 8 cycle_reference_colourspace_action Example.canvas_3 in
  fst r = inr tt ∧
  reference_colourspace (snd r) = VStr "CIE Lab" ∧
  view_reference_colourspace <$> gamut_view (snd r) = Some (VStr "CIE Lab").
Proof.
  destruct (reference_pushed_to_gamut Example.env _ _ _ _ _ _ _ _ _ _
              Example.canvas_3 8 init_canvas_3 (Nat.lt_0_succ 7))
    as (name & i & x & Hname & Hi & Hx & Hok & Href & Hview).
  injection Hname as <-. vm_compute in Hi. injection Hi as <-.
  vm_compute in Hx. injection Hx as <-. by repeat split.
Defined.

Lemma correlate_cycle_without_candidates_witness :
  RGB_candidates Example2.alias_env = [] ∧
  cycle_correlate_colourspace_action Example2.alias_canvas
  = (inl StopIteration, Example2.alias_canvas).
Proof.
  assert (H : RGB_candidates Example2.alias_env = []) by reflexivity.
  split; [exact H|].
  exact (correlate_cycle_without_candidates Example2.alias_env
           _ _ _ _ _ _ _ _ _ _ _ init_alias_canvas H).
Defined.

Lemma resample_every_nth_witness :
  ∃ im, __create_image Example.env
          (assign_input_resample (VInt 3) Example.canvas_1)
        = (inr tt, assign_image (Some im)
                     (assign_input_resample (VInt 3) Example.canvas_1)) ∧
        has_shape im ((3 + 3 - 1) / 3) ((5 + 3 - 1) / 3) (4 `min` 3).
Proof.
  destruct (resample_every_nth Example.env
              (assign_input_resample (VInt 3) Example.canvas_1)
              "rgba.exr" Example.rgba_image 3 5 4 3
              eq_refl eq_refl rgba_image_shape (Nat.lt_0_succ 2) eq_refl)
    as (im & Hrun & Hshape & _).
  exists im. by split.
Defined.

Lemma resample_edge_steps_witness :
  __create_image Example.env (assign_input_resample (VInt 0) Example.canvas_1)
  = (inl (ValueError "slice step cannot be zero"),
     assign_input_resample (VInt 0) Example.canvas_1).
Proof.
  exact (proj1 (resample_edge_steps Example.env
                  (assign_input_resample (VInt 0) Example.canvas_1)
                  "rgba.exr" Example.rgba_image 3 5 4
                  eq_refl eq_refl rgba_image_shape) eq_refl).
Defined.

Lemma linearisation_after_decimation_witness :
  __create_image Example.env
    (assign_input_linear (VBool false) Example.canvas_3)
  = match resample (Some 2%Z) (first_three_channels Example.rgba_image) with
    | inl e => (inl e, assign_input_linear (VBool false) Example.canvas_3)
    | inr im =>
        (inr tt,
         assign_image
           (Some (map (map (map
              (inverse_transfer_function Example.identity_colourspace))) im))
           (assign_input_linear (VBool false) Example.canvas_3))
    end.
Proof.
  exact (linearisation_after_decimation Example.env
           (assign_input_linear (VBool false) Example.canvas_3)
           "rgba.exr" Example.identity_colourspace (Some 2%Z)
           eq_refl eq_refl eq_refl eq_refl).
Defined.


Lemma dispatch_calls_witness :
  let r := dispatch Example.env (action_of Example.fit_image)
             Example.canvas_1 in
  fst r = inl (ValueError "no image to fit") ∧
  trace (snd r) = [(OnView GamutView, "fit_image_action")] ∧
  image_view (snd r) = image_view Example.canvas_1.
Proof.
  assert (Hnd : NoDup [ConsoleView; GamutView; ImageView]).
  { refine (bool_decide_unpack _ _). vm_compute. exact I. }
  pose proof (dispatch_calls Example.env (action_of Example.fit_image)
                [ConsoleView; GamutView; ImageView] Example.canvas_1
                eq_refl Hnd) as (Hr & Ht & Hv).
  cbn zeta. rewrite Hr, Ht. split; [by vm_compute|]. split; [by vm_compute|].
  exact (Hv ImageView).
Defined.

Lemma key_press_never_reaches_diagram_view_witness :
  (OnView DiagramView, "toggle_axis_action")
  ∉ trace (snd (on_key_press Example.env Example.control_g Example.canvas_1)).
Proof.
  exact (key_press_never_reaches_diagram_view Example.env _ _ _ _ _ _ _ _ _ _
           Example.canvas_1 Example.control_g "toggle_axis_action"
           init_canvas_1).
Defined.

Lemma layout_presets_last_wins_witness :
  ∃ self' : Analysis Z,
    __create_layout_presets (blank Example.one_action) = (inr tt, self') ∧
    __layout_presets self' !! "layout_1" = Some Example.preset_1.
Proof.
  destruct (layout_presets_last_wins (blank (sample := Z) Example.one_action)
              eq_refl) as (self' & Hrun & Hlookup).
  exists self'. split; [exact Hrun|]. rewrite Hlookup. reflexivity.
Defined.

Lemma missing_image_aborts_construction_witness :
  fst (Example.construct "nope.exr" (VInt 1) Example.one_action)
  = inl (AssertionError (not_exists_message (VStr "nope.exr"))).
Proof.
  exact (proj1 (missing_image_aborts_construction Example.env
                  (VStr "nope.exr") "nope.exr" _ _ _ _ _ _ _ _ _
                  eq_refl eq_refl)).
Defined.

Lemma constructed_views_share_state_witness :
  ∃ im dv, image Example.canvas_1 = Some im ∧
           diagram_view Example.canvas_1 = Some dv ∧
           view_image dv = Some im.
Proof.
  destruct (constructed_views_share_state Example.env _ _ _ _ _ _ _ _ _ _ _
              init_canvas_1)
    as (im & gv & iv & dv & Him & _ & _ & _ & _ & Hd & Hdi & _).
  exists im, dv. by repeat split.
Defined.

Lemma construction_requires_witness :
  constructible Example.env (VStr "rgba.exr") (VStr "Rec. 709")
    (VStr "Rec. 709") (VBool true) (VInt 1) (VStr "CIE xyY") (VStr "ACEScg")
    (Some Example.one_action) (VStr "layout_1").
Proof.
  exact (construction_requires Example.env _ _ _ _ _ _ _ _ _ _ _
           init_canvas_1).
Defined.

Lemma key_press_leaves_image_and_registry_witness :
  key_press_frame Example.canvas_fit
    (snd (on_key_press Example.env Example.control_g Example.canvas_fit)).
Proof.
  exact (key_press_leaves_image_and_registry Example.env Example.control_g
           Example.canvas_fit eq_refl).
Defined.
